(** * Personal-data utilities: password hashing and log redaction

    A shallow embedding of [0x00-personal_data/encrypt_password.py] and
    [0x00-personal_data/filtered_logger.py].

    Python [str] values are modelled by [string] (code points 0..255),
    passwords, which are encoded, by the list of their code points, and
    [bytes] values by [list byte].  The library modules the code calls,
    [re], [bcrypt] and [logging], are modelled in the modules of these
    names; the functions of the repository itself follow them under their
    own names. *)

From Stdlib Require Import String Ascii List Bool Arith Lia.
From Stdlib Require Import NArith.
From Stdlib Require Strings.Byte.
From Stdlib Require Import Init.Byte.
From Stdlib Require Import DecimalString.
Import ListNotations.
Open Scope string_scope.
Open Scope nat_scope.

(** ** Outcomes of Python calls *)

(** The exception classes the modelled calls can raise. *)
Inductive exn : Type :=
| re_error      (* re.error: the pattern or the template does not compile *)
| IndexError    (* a template names a group the pattern does not have *)
| ValueError    (* bcrypt: invalid salt, or a password that is refused *)
| KeyError      (* a format string names an attribute the record lacks *)
| UnicodeEncodeError. (* str.encode: a code point that has no encoding *)

(** A call returns a value, raises, or falls outside the fragment of the
    library that this development models. *)
Inductive outcome (A : Type) : Type :=
| Ok (a : A)
| Raise (e : exn)
| Unmodelled.

Arguments Ok {A} a.
Arguments Raise {A} e.
Arguments Unmodelled {A}.

Definition bind {A B : Type} (o : outcome A) (f : A -> outcome B) : outcome B :=
  match o with
  | Ok a => f a
  | Raise e => Raise e
  | Unmodelled => Unmodelled
  end.

Notation "x <- o ;; k" := (bind o (fun x => k))
  (at level 61, o at next level, right associativity).

(** ** Characters *)

Definition code (c : ascii) : nat := nat_of_ascii c.

Definition in_range (lo hi : nat) (c : ascii) : bool :=
  (lo <=? code c) && (code c <=? hi).

Definition is_digit (c : ascii) : bool := in_range 48 57 c.
Definition is_upper (c : ascii) : bool := in_range 65 90 c.
Definition is_lower (c : ascii) : bool := in_range 97 122 c.
Definition is_letter (c : ascii) : bool := is_upper c || is_lower c.
Definition is_alnum (c : ascii) : bool := is_letter c || is_digit c.
Definition is_ascii (c : ascii) : bool := code c <? 128.

Definition mem (c : ascii) (s : string) : bool :=
  existsb (Ascii.eqb c) (list_ascii_of_string s).

(** [str.isidentifier] on ASCII names. *)
Definition is_identifier (s : string) : bool :=
  match s with
  | EmptyString => false
  | String c s' =>
      (is_letter c || Ascii.eqb c "_")
      && forallb (fun d => is_alnum d || Ascii.eqb d "_") (list_ascii_of_string s')
  end.

Definition all_ascii (s : string) : bool :=
  forallb is_ascii (list_ascii_of_string s).

Fixpoint snoc (s : string) (c : ascii) : string :=
  match s with
  | EmptyString => String c EmptyString
  | String d s' => String d (snoc s' c)
  end.

(** ** The [re] module: compiling a pattern

    The fragment modelled: literal characters, ["."], character sets with
    ranges and negation, alternation, capturing, named and non-capturing
    groups, and the greedy repeats ["*"], ["+"] and ["?"] over a body that
    cannot match the empty string and holds no group.  Anything else of the
    pattern language yields [Unmodelled]. *)

Module re.

Inductive set_item : Type :=
| SChar (c : ascii)
| SRange (lo hi : ascii).

Inductive token : Type :=
| TLit (c : ascii)
| TAny
| TSet (negate : bool) (items : list set_item)
| TOpen (capture : bool) (name : option string)
| TClose
| TBar
| TStar
| TPlus
| TQuest.

(** Where the scanner stands inside the pattern. *)
Inductive lstate : Type :=
| LNormal
| LEscape                                   (* after a backslash *)
| LParen                                    (* after an opening parenthesis *)
| LParenQ                                   (* after "(?" *)
| LParenQP                                  (* after "(?P" *)
| LName (acc : string)                      (* inside "(?P<" *)
| LSet0                                     (* after "[" *)
| LSet (negate : bool) (items : list set_item)
| LSetEsc (negate : bool) (items : list set_item)
| LSetLit (negate : bool) (items : list set_item) (c : ascii)
| LSetDash (negate : bool) (items : list set_item) (c : ascii).

(** SPECIAL_CHARS of the pattern parser. *)
Definition SPECIAL_CHARS : string := ".\[{()*+?^$|".

Definition is_special (c : ascii) : bool := mem c SPECIAL_CHARS.

Definition normal_step (c : ascii) : outcome (list token * lstate) :=
  if Ascii.eqb c "\" then Ok ([], LEscape)
  else if Ascii.eqb c "[" then Ok ([], LSet0)
  else if Ascii.eqb c "(" then Ok ([], LParen)
  else if Ascii.eqb c ")" then Ok ([TClose], LNormal)
  else if Ascii.eqb c "|" then Ok ([TBar], LNormal)
  else if Ascii.eqb c "*" then Ok ([TStar], LNormal)
  else if Ascii.eqb c "+" then Ok ([TPlus], LNormal)
  else if Ascii.eqb c "?" then Ok ([TQuest], LNormal)
  else if Ascii.eqb c "." then Ok ([TAny], LNormal)
  else if mem c "{^$" then Unmodelled
  else Ok ([TLit c], LNormal).

(** Inside a set, before a member: a closing bracket ends the set unless
    the set is still empty, where it is a member. *)
Definition set_step (negate : bool) (items : list set_item) (c : ascii)
  : outcome (list token * lstate) :=
  if Ascii.eqb c "]" then
    match items with
    | [] => Ok ([], LSetLit negate items c)
    | _ :: _ => Ok ([TSet negate items], LNormal)
    end
  else if Ascii.eqb c "\" then Ok ([], LSetEsc negate items)
  else Ok ([], LSetLit negate items c).

Definition lex_step (st : lstate) (c : ascii) : outcome (list token * lstate) :=
  match st with
  | LNormal => normal_step c
  | LEscape =>
      if is_ascii c && is_alnum c then Unmodelled else Ok ([TLit c], LNormal)
  | LParen =>
      if Ascii.eqb c "?" then Ok ([], LParenQ)
      else r <- normal_step c ;; Ok (TOpen true None :: fst r, snd r)
  | LParenQ =>
      if Ascii.eqb c "P" then Ok ([], LParenQP)
      else if Ascii.eqb c ":" then Ok ([TOpen false None], LNormal)
      else Unmodelled
  | LParenQP =>
      if Ascii.eqb c "<" then Ok ([], LName "")
      else if Ascii.eqb c "=" then Unmodelled
      else Raise re_error
  | LName acc =>
      if Ascii.eqb c ">" then
        match acc with
        | EmptyString => Raise re_error
        | _ =>
            if negb (all_ascii acc) then Unmodelled
            else if is_identifier acc then Ok ([TOpen true (Some acc)], LNormal)
            else Raise re_error
        end
      else Ok ([], LName (snoc acc c))
  | LSet0 =>
      if Ascii.eqb c "^" then Ok ([], LSet true []) else set_step false [] c
  | LSet negate items => set_step negate items c
  | LSetEsc negate items =>
      if is_ascii c && is_alnum c then Unmodelled
      else Ok ([], LSetLit negate items c)
  | LSetLit negate items m =>
      if Ascii.eqb c "-" then Ok ([], LSetDash negate items m)
      else set_step negate (items ++ [SChar m])%list c
  | LSetDash negate items m =>
      if Ascii.eqb c "]" then
        Ok ([TSet negate (items ++ [SChar m; SChar "-"])%list], LNormal)
      else if Ascii.eqb c "\" then Unmodelled
      else if code m <=? code c then Ok ([], LSet negate (items ++ [SRange m c])%list)
      else Raise re_error
  end.

(** The end of the pattern: only the normal state and a pending opening
    parenthesis (which the parser then finds unclosed) are not errors. *)
Definition lex_end (st : lstate) : outcome (list token) :=
  match st with
  | LNormal => Ok []
  | LParen => Ok [TOpen true None]
  | _ => Raise re_error
  end.

Fixpoint lex (st : lstate) (p : string) : outcome (list token) :=
  match p with
  | EmptyString => lex_end st
  | String c p' =>
      r <- lex_step st c ;;
      ts <- lex (snd r) p' ;;
      Ok (fst r ++ ts)%list
  end.

(** The abstract syntax the parser builds. *)
Inductive regex : Type :=
| Eps
| Lit (c : ascii)
| Any
| CharSet (negate : bool) (items : list set_item)
| Cat (r1 r2 : regex)
| Alt (r1 r2 : regex)
| Star (r : regex)
| Plus (r : regex)
| Opt (r : regex)
| Group (gid : nat) (r : regex)
| NGroup (r : regex).

Definition seq_of (items : list regex) : regex := fold_right Cat Eps items.

Fixpoint alt_of (first : regex) (others : list regex) : regex :=
  match others with
  | [] => first
  | r :: others' => Alt first (alt_of r others')
  end.

(** The alternatives read so far ([alts], latest first) and the items of
    the alternative being read ([items], latest first), as one regex. *)
Definition close_alts (alts items : list regex) : regex :=
  match rev (seq_of (rev items) :: alts) with
  | [] => Eps
  | r :: rs => alt_of r rs
  end.

Fixpoint nullable (r : regex) : bool :=
  match r with
  | Eps => true
  | Lit _ | Any | CharSet _ _ => false
  | Cat r1 r2 => nullable r1 && nullable r2
  | Alt r1 r2 => nullable r1 || nullable r2
  | Star _ | Opt _ => true
  | Plus r1 | Group _ r1 | NGroup r1 => nullable r1
  end.

Fixpoint has_group (r : regex) : bool :=
  match r with
  | Eps | Lit _ | Any | CharSet _ _ => false
  | Cat r1 r2 | Alt r1 r2 => has_group r1 || has_group r2
  | Star r1 | Plus r1 | Opt r1 | NGroup r1 => has_group r1
  | Group _ _ => true
  end.

Definition is_repeat (r : regex) : bool :=
  match r with
  | Star _ | Plus _ | Opt _ => true
  | _ => false
  end.

(** An open group: its number when it captures, and what had been read of
    the enclosing alternation. *)
Record frame : Type := mkFrame
  { f_gid : option nat; f_alts : list regex; f_items : list regex }.

Record pstate : Type := mkPstate
  { stack : list frame;
    alts : list regex;
    items : list regex;
    groups : nat;                       (* capturing groups opened so far *)
    groupindex : list (string * nat) }. (* names of the named groups *)

Definition pstate0 : pstate := mkPstate [] [] [] 0 [].

Fixpoint lookup (name : string) (l : list (string * nat)) : option nat :=
  match l with
  | [] => None
  | (n, g) :: l' => if String.eqb name n then Some g else lookup name l'
  end.

Definition push_item (r : regex) (st : pstate) : pstate :=
  mkPstate (stack st) (alts st) (r :: items st) (groups st) (groupindex st).

(** A repeat applies to the item read last. *)
Definition repeat (mk : regex -> regex) (starred : bool) (st : pstate) : outcome pstate :=
  match items st with
  | [] => Raise re_error                       (* nothing to repeat *)
  | r :: rest =>
      if is_repeat r then
        (if starred then Raise re_error        (* multiple repeat *)
         else Unmodelled)                      (* lazy or possessive repeat *)
      else if nullable r || has_group r then Unmodelled
      else Ok (mkPstate (stack st) (alts st) (mk r :: rest) (groups st) (groupindex st))
  end.

Definition parse_step (st : pstate) (t : token) : outcome pstate :=
  match t with
  | TLit c => Ok (push_item (Lit c) st)
  | TAny => Ok (push_item Any st)
  | TSet negate its => Ok (push_item (CharSet negate its) st)
  | TBar =>
      Ok (mkPstate (stack st) (seq_of (rev (items st)) :: alts st) []
                   (groups st) (groupindex st))
  | TOpen false _ =>
      Ok (mkPstate (mkFrame None (alts st) (items st) :: stack st) [] []
                   (groups st) (groupindex st))
  | TOpen true name =>
      let gid := S (groups st) in
      let fr := mkFrame (Some gid) (alts st) (items st) in
      match name with
      | None => Ok (mkPstate (fr :: stack st) [] [] gid (groupindex st))
      | Some n =>
          match lookup n (groupindex st) with
          | Some _ => Raise re_error           (* redefinition of group name *)
          | None => Ok (mkPstate (fr :: stack st) [] [] gid ((n, gid) :: groupindex st))
          end
      end
  | TClose =>
      match stack st with
      | [] => Raise re_error                   (* unbalanced parenthesis *)
      | fr :: stack' =>
          let body := close_alts (alts st) (items st) in
          let item := match f_gid fr with
                      | Some gid => Group gid body
                      | None => NGroup body
                      end in
          Ok (mkPstate stack' (f_alts fr) (item :: f_items fr)
                       (groups st) (groupindex st))
      end
  | TStar => repeat Star true st
  | TPlus => repeat Plus false st
  | TQuest => repeat Opt false st
  end.

Fixpoint parse_tokens (st : pstate) (ts : list token) : outcome pstate :=
  match ts with
  | [] => Ok st
  | t :: ts' => st' <- parse_step st t ;; parse_tokens st' ts'
  end.

(** A compiled pattern: its syntax, the number of its capturing groups and
    the index of the named ones. *)
Record Pattern : Type := mkPattern
  { p_regex : regex; p_groups : nat; p_groupindex : list (string * nat) }.

Definition compile (pattern : string) : outcome Pattern :=
  ts <- lex LNormal pattern ;;
  st <- parse_tokens pstate0 ts ;;
  match stack st with
  | _ :: _ => Raise re_error                   (* missing ), unterminated subpattern *)
  | [] => Ok (mkPattern (close_alts (alts st) (items st)) (groups st) (groupindex st))
  end.

(** *** Matching

    A backtracking matcher in continuation-passing style: alternatives
    are tried in order, repeats are greedy, and a continuation that fails
    sends the search back to the latest choice. *)

Definition captures : Type := list (nat * string).

Definition cont : Type := string -> captures -> option (string * captures).

Fixpoint group_text (gid : nat) (cs : captures) : option string :=
  match cs with
  | [] => None
  | (g, v) :: cs' => if g =? gid then Some v else group_text gid cs'
  end.

Definition in_item (c : ascii) (it : set_item) : bool :=
  match it with
  | SChar d => Ascii.eqb c d
  | SRange lo hi => (code lo <=? code c) && (code c <=? code hi)
  end.

Definition in_set (negate : bool) (its : list set_item) (c : ascii) : bool :=
  xorb negate (existsb (in_item c) its).

Definition newline : ascii := ascii_of_nat 10.

(** What was consumed between the text [s] and its suffix [s']. *)
Definition consumed (s s' : string) : string :=
  substring 0 (String.length s - String.length s') s.

Definition one_char (ok : ascii -> bool) (s : string) (cs : captures) (k : cont)
  : option (string * captures) :=
  match s with
  | String d s' => if ok d then k s' cs else None
  | EmptyString => None
  end.

Definition or_else {A : Type} (o : option A) (other : option A) : option A :=
  match o with
  | Some x => Some x
  | None => other
  end.

(** A greedy loop over [body]: one more round when it matches and moves
    forward, else the rest of the pattern. *)
Fixpoint loop (body : string -> captures -> cont -> option (string * captures))
    (fuel : nat) (s : string) (cs : captures) (k : cont) : option (string * captures) :=
  match fuel with
  | O => k s cs
  | S fuel' =>
      or_else
        (body s cs (fun s' cs' =>
           if String.length s' <? String.length s then loop body fuel' s' cs' k
           else k s' cs'))
        (k s cs)
  end.

Fixpoint rmatch (r : regex) (s : string) (cs : captures) (k : cont)
  : option (string * captures) :=
  match r with
  | Eps => k s cs
  | Lit c => one_char (Ascii.eqb c) s cs k
  | Any => one_char (fun d => negb (Ascii.eqb d newline)) s cs k
  | CharSet negate its => one_char (in_set negate its) s cs k
  | Cat r1 r2 => rmatch r1 s cs (fun s' cs' => rmatch r2 s' cs' k)
  | Alt r1 r2 => or_else (rmatch r1 s cs k) (rmatch r2 s cs k)
  | Star r1 => loop (rmatch r1) (String.length s) s cs k
  | Plus r1 =>
      rmatch r1 s cs (fun s' cs' => loop (rmatch r1) (String.length s') s' cs' k)
  | Opt r1 => or_else (rmatch r1 s cs k) (k s cs)
  | Group gid r1 =>
      rmatch r1 s cs (fun s' cs' => k s' ((gid, consumed s s') :: cs'))
  | NGroup r1 => rmatch r1 s cs k
  end.

(** A match that starts at the head of [s]: the text left after it and its
    groups, group 0 being the whole match.  With [must_advance] an empty
    match is refused, and the search goes on among the other choices. *)
Definition match_here (r : regex) (s : string) (must_advance : bool)
  : option (string * captures) :=
  rmatch r s []
    (fun s' cs' =>
       if must_advance && (String.length s' =? String.length s) then None
       else Some (s', (0, consumed s s') :: cs')).

(** *** Replacement templates

    A backslash in the template starts an escape: a group reference
    (by name, by number), a control character, or an error.  Octal escapes
    and references of several digits are not modelled. *)

Inductive titem : Type :=
| TText (c : ascii)
| TGroup (gid : nat).

Inductive tstate : Type :=
| TNormal
| TEsc                        (* after a backslash *)
| TEscG                       (* after backslash g *)
| TGName (acc : string)       (* inside the angle brackets *)
| TDigit (d : nat).           (* after backslash and one digit *)

Definition digit_value (c : ascii) : nat := code c - 48.

Fixpoint number_of (acc : nat) (s : string) : nat :=
  match s with
  | EmptyString => acc
  | String c s' => number_of (10 * acc + digit_value c) s'
  end.

Definition all_digits (s : string) : bool :=
  forallb is_digit (list_ascii_of_string s).

(** The characters that the ESCAPES table maps a letter to. *)
Definition control_escape (c : ascii) : option ascii :=
  if Ascii.eqb c "a" then Some (ascii_of_nat 7)
  else if Ascii.eqb c "b" then Some (ascii_of_nat 8)
  else if Ascii.eqb c "f" then Some (ascii_of_nat 12)
  else if Ascii.eqb c "n" then Some (ascii_of_nat 10)
  else if Ascii.eqb c "r" then Some (ascii_of_nat 13)
  else if Ascii.eqb c "t" then Some (ascii_of_nat 9)
  else if Ascii.eqb c "v" then Some (ascii_of_nat 11)
  else if Ascii.eqb c "\" then Some c
  else None.

Definition group_ref (pat : Pattern) (gid : nat) : outcome (list titem * tstate) :=
  if p_groups pat <? gid then Raise re_error      (* invalid group reference *)
  else Ok ([TGroup gid], TNormal).

Definition template_normal (c : ascii) : outcome (list titem * tstate) :=
  if Ascii.eqb c "\" then Ok ([], TEsc) else Ok ([TText c], TNormal).

Definition template_step (pat : Pattern) (st : tstate) (c : ascii)
  : outcome (list titem * tstate) :=
  match st with
  | TNormal => template_normal c
  | TEsc =>
      if Ascii.eqb c "g" then Ok ([], TEscG)
      else if Ascii.eqb c "0" then Unmodelled
      else if is_digit c then Ok ([], TDigit (digit_value c))
      else match control_escape c with
           | Some e => Ok ([TText e], TNormal)
           | None =>
               if is_ascii c && is_letter c then Raise re_error      (* bad escape *)
               else Ok ([TText "\"; TText c], TNormal)
           end
  | TEscG =>
      if Ascii.eqb c "<" then Ok ([], TGName "") else Raise re_error
  | TGName acc =>
      if Ascii.eqb c ">" then
        match acc with
        | EmptyString => Raise re_error                               (* missing group name *)
        | _ =>
            if negb (all_ascii acc) then Unmodelled
            else if is_identifier acc then
              match lookup acc (p_groupindex pat) with
              | Some gid => group_ref pat gid
              | None => Raise IndexError                              (* unknown group name *)
              end
            else if all_digits acc then group_ref pat (number_of 0 acc)
            else Unmodelled
        end
      else Ok ([], TGName (snoc acc c))
  | TDigit d =>
      if is_digit c then Unmodelled
      else
        r <- group_ref pat d ;;
        r' <- template_normal c ;;
        Ok (fst r ++ fst r', snd r')%list
  end.

Definition template_end (pat : Pattern) (st : tstate) : outcome (list titem) :=
  match st with
  | TNormal => Ok []
  | TDigit d => r <- group_ref pat d ;; Ok (fst r)
  | _ => Raise re_error
  end.

Fixpoint parse_template_from (pat : Pattern) (st : tstate) (repl : string)
  : outcome (list titem) :=
  match repl with
  | EmptyString => template_end pat st
  | String c repl' =>
      r <- template_step pat st c ;;
      ts <- parse_template_from pat (snd r) repl' ;;
      Ok (fst r ++ ts)%list
  end.

Definition parse_template (pat : Pattern) (repl : string) : outcome (list titem) :=
  parse_template_from pat TNormal repl.

(** A group that took no part in the match expands to the empty string. *)
Fixpoint expand (tpl : list titem) (cs : captures) : string :=
  match tpl with
  | [] => ""
  | TText c :: tpl' => String c (expand tpl' cs)
  | TGroup gid :: tpl' =>
      match group_text gid cs with
      | Some v => v ++ expand tpl' cs
      | None => expand tpl' cs
      end
  end.

(** *** Substitution

    [scan] walks the text from left to right.  At each place it looks for
    a match starting there; a match is replaced by the expanded template
    and the walk resumes after it ([skip] counts the characters of the
    match still to pass).  After an empty match the same place is tried
    once more for a match that moves forward. *)

Fixpoint scan (r : regex) (tpl : list titem) (s : string) (skip : nat) : string :=
  match skip with
  | S n =>
      match s with
      | String _ s' => scan r tpl s' n
      | EmptyString => ""
      end
  | O =>
      let resume (n : nat) : string :=
        match s with
        | String _ s' => scan r tpl s' n
        | EmptyString => ""
        end in
      let copy : string :=
        match s with
        | String c s' => String c (scan r tpl s' 0)
        | EmptyString => ""
        end in
      match match_here r s false with
      | Some (rest, cs) =>
          match String.length s - String.length rest with
          | S n => expand tpl cs ++ resume n
          | O =>
              expand tpl cs ++
              match match_here r s true with
              | Some (rest2, cs2) =>
                  expand tpl cs2 ++ resume (String.length s - String.length rest2 - 1)
              | None => copy
              end
          end
      | None => copy
      end
  end.

(** [re.sub(pattern, repl, string)]: the pattern is compiled, then the
    template, and every match found from left to right is replaced. *)
Definition sub (pattern repl text : string) : outcome string :=
  pat <- compile pattern ;;
  tpl <- parse_template pat repl ;;
  Ok (scan (p_regex pat) tpl text 0).

(** [re.escape]: a backslash before every character that is special in a
    pattern. *)
Definition escaped_chars : string :=
  "()[]{}?*+-|^$\.&~# " ++
  String (ascii_of_nat 9) (String (ascii_of_nat 10) (String (ascii_of_nat 13)
    (String (ascii_of_nat 11) (String (ascii_of_nat 12) "")))).

Fixpoint escape (s : string) : string :=
  match s with
  | EmptyString => ""
  | String c s' =>
      if mem c escaped_chars then String "\" (String c (escape s'))
      else String c (escape s')
  end.

End re.

(** ** The [bcrypt] module

    The hash format is the one of the library: a header with the version
    and the cost, 22 characters that encode the 16 bytes of the salt, and
    31 characters that encode 23 bytes of the digest.  The key schedule
    that computes the digest is a parameter of the model.

    The releases of the library do not agree on every input.  A password
    with a NUL byte raises [ValueError] in the releases 3.x and is hashed
    by the later ones; a password of more than 72 bytes raises
    [ValueError] in the release 5.0, where the earlier ones hash its first
    72 bytes.  The release that is installed is a parameter of the model.
    A salt, or a hash read as a salt, is modelled where the releases read
    it alike; where they differ the model gives no result. *)

Definition bytes : Type := list byte.

(** A bytes literal. *)
Definition bytes_lit (s : string) : bytes := list_byte_of_string s.

Definition byte_of (n : nat) : byte :=
  match Byte.of_nat n with
  | Some x => x
  | None => x00
  end.

Fixpoint bytes_eqb (x y : bytes) : bool :=
  match x, y with
  | [], [] => true
  | c :: x', d :: y' => Byte.eqb c d && bytes_eqb x' y'
  | _, _ => false
  end.

(** The source of random bytes, as the tape of the bytes it will give. *)
Definition entropy : Type := nat -> byte.

(** [os.urandom(n)]. *)
Definition urandom (n : nat) (e : entropy) : bytes * entropy :=
  (map e (seq 0 n), fun i => e (n + i)).

Module bcrypt.

Definition Base64Code : string :=
  "./ABCDEFGHIJKLMNOPQRSTUVWXYZabcdefghijklmnopqrstuvwxyz0123456789".

Definition char64_of (n : nat) : byte :=
  byte_of_ascii (nth n (list_ascii_of_string Base64Code) "."%char).

Fixpoint index_of (c : ascii) (l : list ascii) : option nat :=
  match l with
  | [] => None
  | d :: l' => if Ascii.eqb c d then Some 0 else option_map S (index_of c l')
  end.

(** The value of a character of the alphabet, [None] for any other. *)
Definition CHAR64 (c : byte) : option nat :=
  index_of (ascii_of_byte c) (list_ascii_of_string Base64Code).

(** Three bytes give four characters of six bits each; no padding.  The
    shifts and masks of the library are written as quotients and
    remainders: [c >> 2] is [c / 4], [(c & 0x03) << 4] is [c mod 4 * 16]. *)
Fixpoint encode_base64 (data : bytes) : bytes :=
  match data with
  | [] => []
  | [x1] =>
      let n1 := Byte.to_nat x1 in
      [char64_of (n1 / 4); char64_of (n1 mod 4 * 16)]
  | [x1; x2] =>
      let n1 := Byte.to_nat x1 in
      let n2 := Byte.to_nat x2 in
      [char64_of (n1 / 4); char64_of (n1 mod 4 * 16 + n2 / 16);
       char64_of (n2 mod 16 * 4)]
  | x1 :: x2 :: x3 :: rest =>
      let n1 := Byte.to_nat x1 in
      let n2 := Byte.to_nat x2 in
      let n3 := Byte.to_nat x3 in
      char64_of (n1 / 4) :: char64_of (n1 mod 4 * 16 + n2 / 16)
      :: char64_of (n2 mod 16 * 4 + n3 / 64) :: char64_of (n3 mod 64)
      :: encode_base64 rest
  end.

(** [len] bytes read back from the characters of [data]. *)
Fixpoint decode_base64 (len : nat) (data : bytes) : option bytes :=
  match len, data with
  | 0, _ => Some []
  | 1, p1 :: p2 :: _ =>
      match CHAR64 p1, CHAR64 p2 with
      | Some c1, Some c2 => Some [byte_of (c1 * 4 + c2 / 16)]
      | _, _ => None
      end
  | 2, p1 :: p2 :: p3 :: _ =>
      match CHAR64 p1, CHAR64 p2, CHAR64 p3 with
      | Some c1, Some c2, Some c3 =>
          Some [byte_of (c1 * 4 + c2 / 16); byte_of (c2 mod 16 * 16 + c3 / 4)]
      | _, _, _ => None
      end
  | S (S (S len')), p1 :: p2 :: p3 :: p4 :: data' =>
      match CHAR64 p1, CHAR64 p2, CHAR64 p3, CHAR64 p4 with
      | Some c1, Some c2, Some c3, Some c4 =>
          option_map
            (fun rest =>
               byte_of (c1 * 4 + c2 / 16) :: byte_of (c2 mod 16 * 16 + c3 / 4)
               :: byte_of (c3 mod 4 * 64 + c4) :: rest)
            (decode_base64 len' data')
      | _, _, _, _ => None
      end
  | _, _ => None
  end.

Definition BCRYPT_MAXSALT : nat := 16.
Definition BCRYPT_MINLOGROUNDS : nat := 4.

Definition digit_of (c : byte) : option nat :=
  let n := Byte.to_nat c in
  if (48 <=? n) && (n <=? 57) then Some (n - 48) else None.

(** The releases of the library. *)
Inductive release : Type :=
| R3     (* the releases 3.x *)
| R4     (* the releases 4.x *)
| R5.    (* the release 5.0 *)

(** The passwords that a release refuses with [ValueError]. *)
Definition rejects (r : release) (password : bytes) : bool :=
  match r with
  | R3 => existsb (Byte.eqb x00) password
  | R4 => false
  | R5 => 72 <? List.length password
  end.

Definition in_alphabet (c : byte) : bool :=
  match CHAR64 c with
  | Some _ => true
  | None => false
  end.

(** What a salt (or a whole hash) says: the minor version, the logarithm
    of the number of rounds, and the 16 bytes of the salt.  This is the
    reading that the releases share: the header "$2a$", "$2b$" or "$2y$",
    a cost of two digits from 04 to 31, a dollar sign, 22 characters that
    are the encoding of 16 bytes, and after them characters of the
    alphabet only.  Elsewhere the releases differ: the releases 3.x read
    the header byte by byte and take a last character of the salt that
    carries more than two bits, the later ones split the text at the
    dollar signs, read the cost as a number, know the version 2x and
    refuse such a last character. *)
Definition parse_salt (salt : bytes) : option (byte * nat * bytes) :=
  match salt with
  | d1 :: v :: minor :: d2 :: r1 :: r0 :: d3 :: rest =>
      if Byte.eqb d1 "$" && Byte.eqb v "2"
         && (Byte.eqb minor "a" || Byte.eqb minor "b" || Byte.eqb minor "y")
         && Byte.eqb d2 "$" && Byte.eqb d3 "$"
      then
        match digit_of r1, digit_of r0 with
        | Some t, Some u =>
            let logr := 10 * t + u in
            if (BCRYPT_MINLOGROUNDS <=? logr) && (logr <=? 31) then
              match decode_base64 BCRYPT_MAXSALT rest with
              | Some csalt =>
                  if bytes_eqb (encode_base64 csalt) (firstn 22 rest)
                     && forallb in_alphabet (skipn 22 rest)
                  then Some (minor, logr, csalt)
                  else None
              | None => None
              end
            else None
        | _, _ => None
        end
      else None
  | _ => None
  end.

Definition header (minor : byte) (logr : nat) : bytes :=
  ["$"; "2"; minor; "$";
   byte_of (48 + logr / 10); byte_of (48 + logr mod 10); "$"]%byte.

Section Hash.

(** The release that is installed. *)
Variable installed : release.

(** The key schedule and encryption that give the digest: the cost, the 16
    bytes of the salt and the password to the bytes of the digest. *)
Variable eksblowfish : nat -> bytes -> bytes -> bytes.

(** [bcrypt.hashpw(password, salt)].  [ValueError] on a password that the
    release refuses; of any other password the first 72 bytes are hashed.
    Every release raises [ValueError] on a salt without dollar sign; on
    the other salts outside of the shared reading the releases differ. *)
Definition hashpw (password salt : bytes) : outcome bytes :=
  if rejects installed password then Raise ValueError
  else
    match parse_salt salt with
    | Some (minor, logr, csalt) =>
        let key := firstn 72 password in
        Ok (header minor logr ++ encode_base64 csalt
            ++ encode_base64 (firstn 23 (eksblowfish logr csalt key)))%list
    | None =>
        if existsb (Byte.eqb "$") salt then Unmodelled else Raise ValueError
    end.

(** [bcrypt.checkpw(password, hashed_password)]: the hash is computed
    again with the salt that [hashed_password] holds, and compared. *)
Definition checkpw (password hashed_password : bytes) : outcome bool :=
  ret <- hashpw password hashed_password ;;
  Ok (bytes_eqb ret hashed_password).

End Hash.

(** [bcrypt.gensalt()] with its defaults: version 2b, 12 rounds. *)
Definition gensalt (e : entropy) : bytes * entropy :=
  let (salt, e') := urandom BCRYPT_MAXSALT e in
  ((header "b"%byte 12 ++ encode_base64 salt)%list, e').

End bcrypt.

(** ** [encrypt_password.py] *)

(** A password is a Python [str]: the list of its code points.  (The
    texts of the logger, which are never encoded, are modelled by
    [string].) *)
Definition text : Type := list N.

(** A text of Latin-1 characters. *)
Definition text_of (s : string) : text := map N_of_ascii (list_ascii_of_string s).

(** The UTF-8 encoding of one code point; a surrogate has none. *)
Definition utf8_char (n : N) : outcome bytes :=
  let b (k : N) : byte := byte_of (N.to_nat k) in
  if (n <? 128)%N then Ok [b n]
  else if (n <? 2048)%N then Ok [b (192 + n / 64)%N; b (128 + n mod 64)%N]
  else if ((55296 <=? n) && (n <=? 57343))%N then Raise UnicodeEncodeError
  else if (n <? 65536)%N then
    Ok [b (224 + n / 4096)%N; b (128 + n / 64 mod 64)%N; b (128 + n mod 64)%N]
  else if (n <? 1114112)%N then
    Ok [b (240 + n / 262144)%N; b (128 + n / 4096 mod 64)%N;
        b (128 + n / 64 mod 64)%N; b (128 + n mod 64)%N]
  else Unmodelled.                      (* not a code point *)

(** [str.encode('utf-8')]. *)
Fixpoint encode_utf8 (s : text) : outcome bytes :=
  match s with
  | [] => Ok []
  | c :: s' =>
      x <- utf8_char c ;;
      rest <- encode_utf8 s' ;;
      Ok (x ++ rest)%list
  end.

Section EncryptPassword.

Variable installed : bcrypt.release.
Variable eksblowfish : nat -> bytes -> bytes -> bytes.

(** [hash_password(password)]: the password is encoded, the salt is
    drawn, then the password is hashed with it. *)
Definition hash_password (password : text) (e : entropy) : outcome bytes * entropy :=
  match encode_utf8 password with
  | Ok data =>
      let (salt, e') := bcrypt.gensalt e in
      (bcrypt.hashpw installed eksblowfish data salt, e')
  | Raise x => (Raise x, e)
  | Unmodelled => (Unmodelled, e)
  end.

(** [is_valid(hashed_password, password)]. *)
Definition is_valid (hashed_password : bytes) (password : text) : outcome bool :=
  data <- encode_utf8 password ;;
  bcrypt.checkpw installed eksblowfish data hashed_password.

End EncryptPassword.

(** ** The [logging] module: records and [Formatter.format] *)

Module logging.

(** The attributes of a record that a format string can name.  [message]
    is what [getMessage] returns and [asctime] what [formatTime] returns
    for the record; [exc_text] and [stack_info] are empty when the record
    carries no exception and no stack. *)
Record LogRecord : Type := mkLogRecord
  { name : string;
    levelname : string;
    asctime : string;
    message : string;
    exc_text : string;
    stack_info : string }.

Definition attribute (record : LogRecord) (key : string) : option string :=
  if String.eqb key "name" then Some (name record)
  else if String.eqb key "levelname" then Some (levelname record)
  else if String.eqb key "asctime" then Some (asctime record)
  else if String.eqb key "message" then Some (message record)
  else None.

Fixpoint spaces (n : nat) : string :=
  match n with
  | O => ""
  | S n' => String " " (spaces n')
  end.

(** [str.ljust] and [str.rjust]. *)
Definition ljust (width : nat) (s : string) : string :=
  s ++ spaces (width - String.length s).

Definition rjust (width : nat) (s : string) : string :=
  spaces (width - String.length s) ++ s.

(** Where the scanner stands inside a percent-style format string. *)
Inductive fstate : Type :=
| FNormal
| FPercent                                       (* after a percent sign *)
| FKey (acc : string)                            (* inside the parentheses *)
| FSpec (key : string)                           (* after the key *)
| FWidth (key : string) (ljustify : bool) (w : nat). (* reading the width *)

Definition conversion (record : LogRecord) (key : string) (ljustify : bool) (w : nat)
  : outcome (string * fstate) :=
  match attribute record key with
  | Some v => Ok ((if ljustify then ljust w v else rjust w v), FNormal)
  | None => Raise KeyError
  end.

Definition format_step (record : LogRecord) (st : fstate) (c : ascii)
  : outcome (string * fstate) :=
  match st with
  | FNormal =>
      if Ascii.eqb c "%" then Ok ("", FPercent) else Ok (String c "", FNormal)
  | FPercent =>
      if Ascii.eqb c "%" then Ok ("%", FNormal)
      else if Ascii.eqb c "(" then Ok ("", FKey "")
      else Unmodelled
  | FKey acc =>
      if Ascii.eqb c ")" then Ok ("", FSpec acc)
      else if Ascii.eqb c "(" then Unmodelled
      else Ok ("", FKey (snoc acc c))
  | FSpec key =>
      if Ascii.eqb c "s" then conversion record key false 0
      else if Ascii.eqb c "-" then Ok ("", FWidth key true 0)
      else if in_range 49 57 c then Ok ("", FWidth key false (code c - 48))
      else Unmodelled
  | FWidth key lj w =>
      if Ascii.eqb c "s" then conversion record key lj w
      else if is_digit c then Ok ("", FWidth key lj (10 * w + (code c - 48)))
      else Unmodelled
  end.

Fixpoint percent_format (record : LogRecord) (st : fstate) (fmt : string)
  : outcome string :=
  match fmt with
  | EmptyString =>
      match st with
      | FNormal => Ok ""
      | _ => Raise ValueError                    (* incomplete format *)
      end
  | String c fmt' =>
      r <- format_step record st c ;;
      rest <- percent_format record (snd r) fmt' ;;
      Ok (fst r ++ rest)
  end.

Fixpoint ends_with_newline (s : string) : bool :=
  match s with
  | EmptyString => false
  | String c EmptyString => Ascii.eqb c (ascii_of_nat 10)
  | String _ s' => ends_with_newline s'
  end.

(** The text of an exception or of a stack goes on a line of its own. *)
Definition append_block (s block : string) : string :=
  match block with
  | EmptyString => s
  | _ => (if ends_with_newline s then s else s ++ String (ascii_of_nat 10) "") ++ block
  end.

Module Formatter.

(** [logging.Formatter(fmt).format(record)]. *)
Definition format (fmt : string) (record : LogRecord) : outcome string :=
  s <- percent_format record FNormal fmt ;;
  Ok (append_block (append_block s (exc_text record)) (stack_info record)).

End Formatter.

End logging.

(** ** [filtered_logger.py] *)

Module patterns.

(** The pattern: one of the field names, captured as group [field], the
    equals sign, and everything up to a character of the separator. *)
Definition extract (fields : list string) (sep : string) : string :=
  "(?P<field>" ++ String.concat "|" fields ++ ")=[^" ++ sep ++ "]*".

(** The template: the field name, the equals sign and the redaction. *)
Definition replace (redaction : string) : string :=
  "\g<field>=" ++ redaction.

End patterns.

Definition PII_FIELDS : list string :=
  ["name"; "email"; "phone"; "ssn"; "password"].

Definition filter_datum (fields : list string) (redaction message separator : string)
  : outcome string :=
  re.sub (patterns.extract fields separator) (patterns.replace redaction) message.

Module RedactingFormatter.

Definition REDACTION : string := "***".
Definition FORMAT : string :=
  "[HOLBERTON] %(name)s %(levelname)s %(asctime)-15s: %(message)s".
Definition SEPARATOR : string := ";".

(** An instance holds the fields to redact. *)
Record t : Type := mk { fields : list string }.

(** [RedactingFormatter.format(self, record)]. *)
Definition format (self : t) (record : logging.LogRecord) : outcome string :=
  msg <- logging.Formatter.format FORMAT record ;;
  filter_datum (fields self) REDACTION msg SEPARATOR.

End RedactingFormatter.

(** ** The loggers of the process

    [logging.getLogger] hands out one logger object per name: what is set
    on it, and the handlers added to it, stay for the next caller.  The
    state below holds these objects, the clock that dates the records,
    and what has been written to the standard error. *)

Definition NOTSET : nat := 0.
Definition INFO : nat := 20.

(** [logging.getLevelName]. *)
Definition getLevelName (level : nat) : string :=
  if level =? 50 then "CRITICAL"
  else if level =? 40 then "ERROR"
  else if level =? 30 then "WARNING"
  else if level =? 20 then "INFO"
  else if level =? 10 then "DEBUG"
  else if level =? 0 then "NOTSET"
  else "Level " ++ NilEmpty.string_of_uint (Nat.to_uint level).

Module StreamHandler.

(** A handler that writes to the standard error.  Handlers are compared
    by identity: [id] tells the objects apart. *)
Record t : Type := mk
  { id : nat; level : nat; formatter : option RedactingFormatter.t }.

Definition setFormatter (fmt : RedactingFormatter.t) (self : t) : t :=
  mk (id self) (level self) (Some fmt).

End StreamHandler.

Module Logger.

Record t : Type := mk
  { level : nat; propagate : bool; handlers : list StreamHandler.t }.

End Logger.

Record world : Type := mkWorld
  { loggerDict : string -> option Logger.t;  (* the loggers, by name *)
    created : nat;                            (* handlers created so far *)
    clock : nat -> string;                    (* the time of the n-th record, as
                                                 [formatTime] renders it *)
    records : nat;                            (* records created so far *)
    stderr : string }.                        (* written to the standard error *)

Definition set_logger (name : string) (l : Logger.t) (w : world) : world :=
  mkWorld (fun n => if String.eqb n name then Some l else loggerDict w n)
          (created w) (clock w) (records w) (stderr w).

(** [logging.getLogger(name)]: the logger of that name, made on first
    use with no level, no handler, and propagating. *)
Definition getLogger (name : string) (w : world) : Logger.t * world :=
  match loggerDict w name with
  | Some l => (l, w)
  | None =>
      let l := Logger.mk NOTSET true [] in
      (l, set_logger name l w)
  end.

(** [logging.StreamHandler()]: a new object. *)
Definition new_StreamHandler (w : world) : StreamHandler.t * world :=
  (StreamHandler.mk (created w) NOTSET None,
   mkWorld (loggerDict w) (S (created w)) (clock w) (records w) (stderr w)).

(** The updates of a logger act on the object that [name] refers to. *)
Definition update_logger (name : string) (f : Logger.t -> Logger.t) (w : world) : world :=
  let (l, w') := getLogger name w in set_logger name (f l) w'.

Definition setLevel (name : string) (level : nat) : world -> world :=
  update_logger name (fun l => Logger.mk level (Logger.propagate l) (Logger.handlers l)).

Definition set_propagate (name : string) (p : bool) : world -> world :=
  update_logger name (fun l => Logger.mk (Logger.level l) p (Logger.handlers l)).

(** [Logger.addHandler]: the handler is appended unless this very object
    is among the handlers already. *)
Definition addHandler (name : string) (h : StreamHandler.t) : world -> world :=
  update_logger name (fun l =>
    if existsb (fun h' => StreamHandler.id h' =? StreamHandler.id h) (Logger.handlers l)
    then l
    else Logger.mk (Logger.level l) (Logger.propagate l) (Logger.handlers l ++ [h])%list).

(** A record with its numeric level. *)
Record LogEvent : Type := mkLogEvent
  { levelno : nat; record : logging.LogRecord }.

(** [logging.LogRecord(name, level, None, None, msg, None, None)]: no
    arguments, no exception, no stack; the clock gives the time. *)
Definition new_LogRecord (name : string) (level : nat) (msg : string) (w : world)
  : LogEvent * world :=
  (mkLogEvent level
     (logging.mkLogRecord name (getLevelName level) (clock w (records w)) msg "" ""),
   mkWorld (loggerDict w) (created w) (clock w) (S (records w)) (stderr w)).

(** [StreamHandler.emit]: the record is formatted, with the formatter of
    the handler or else the default one, and written with a newline.  The
    report that [handleError] writes when the formatter raises is not
    modelled. *)
Definition emit (h : StreamHandler.t) (ev : LogEvent) (w : world) : outcome world :=
  let formatted :=
    match StreamHandler.formatter h with
    | Some fmt => RedactingFormatter.format fmt (record ev)
    | None => logging.Formatter.format "%(message)s" (record ev)
    end in
  match formatted with
  | Ok msg =>
      Ok (mkWorld (loggerDict w) (created w) (clock w) (records w)
                  (stderr w ++ msg ++ String (ascii_of_nat 10) ""))
  | _ => Unmodelled
  end.

(** The loop of [Logger.callHandlers] over the handlers of one logger. *)
Fixpoint callHandlers (hs : list StreamHandler.t) (ev : LogEvent) (w : world)
  : outcome world :=
  match hs with
  | [] => Ok w
  | h :: hs' =>
      w' <- (if StreamHandler.level h <=? levelno ev then emit h ev w else Ok w) ;;
      callHandlers hs' ev w'
  end.

(** [Logger.handle(record)]: the level of the logger is not looked at.
    A logger that propagates hands the record on to its parents, and one
    with no handler at all falls back on the handler of last resort;
    both are outside the model. *)
Definition handle (name : string) (ev : LogEvent) (w : world) : outcome world :=
  let (l, w') := getLogger name w in
  if Logger.propagate l then Unmodelled
  else match Logger.handlers l with
       | [] => Unmodelled
       | hs => callHandlers hs ev w'
       end.

(** ** [filtered_logger.py]: the logger, the connection and [main] *)

(** [get_logger()]: a reference to the logger "user_data", with one more
    handler. *)
Definition get_logger (w : world) : string * world :=
  let logger := "user_data" in
  let (_, w) := getLogger logger w in
  let (stream_handler, w) := new_StreamHandler w in
  let stream_handler :=
    StreamHandler.setFormatter (RedactingFormatter.mk PII_FIELDS) stream_handler in
  let w := setLevel logger INFO w in
  let w := set_propagate logger false w in
  let w := addHandler logger stream_handler w in
  (logger, w).

(** The environment of the process. *)
Definition environ : Type := string -> option string.

(** [os.getenv(key, default)]. *)
Definition getenv (env : environ) (key default : string) : string :=
  match env key with
  | Some v => v
  | None => default
  end.

(** What [mysql.connector.connect] is called with. *)
Record ConnectArgs : Type := mkConnectArgs
  { host : string; port : nat; user : string; password : string; database : string }.

(** [get_db()]: the connection, as the arguments it is opened with. *)
Definition get_db (env : environ) : ConnectArgs :=
  let db_host := getenv env "PERSONAL_DATA_DB_HOST" "localhost" in
  let db_name := getenv env "PERSONAL_DATA_DB_NAME" "" in
  let db_user := getenv env "PERSONAL_DATA_DB_USERNAME" "root" in
  let db_pwd := getenv env "PERSONAL_DATA_DB_PASSWORD" "" in
  mkConnectArgs db_host 3306 db_user db_pwd db_name.

(** [str.split(sep)] on a separator of one character. *)
Fixpoint split_from (sep : ascii) (acc s : string) : list string :=
  match s with
  | EmptyString => [acc]
  | String c s' =>
      if Ascii.eqb c sep then acc :: split_from sep "" s'
      else split_from sep (snoc acc c) s'
  end.

Definition split (sep : ascii) (s : string) : list string := split_from sep "" s.

(** The message of a row: the pairs [column=value] joined by "; ", and a
    last semicolon.  [combine] is [zip]: it stops at the shorter list. *)
Definition row_message (columns row : list string) : string :=
  let record := map (fun x => fst x ++ "=" ++ snd x) (combine columns row) in
  String.concat "; " record ++ ";".

Section Main.

(** The rows that the server reached with the given arguments answers a
    query with, each value as [str.format] renders it. *)
Variable server : ConnectArgs -> string -> list (list string).

Definition log_row (info_logger : string) (columns row : list string) (w : world)
  : outcome world :=
  let msg := row_message columns row in
  let (log_record, w) := new_LogRecord "user_data" INFO msg w in
  handle info_logger log_record w.

Fixpoint log_rows (info_logger : string) (columns : list string)
    (rows : list (list string)) (w : world) : outcome world :=
  match rows with
  | [] => Ok w
  | row :: rows' =>
      w' <- log_row info_logger columns row w ;;
      log_rows info_logger columns rows' w'
  end.

(** [main()]. *)
Definition main (env : environ) (w : world) : outcome world :=
  let fields := "name,email,phone,ssn,password,ip,last_login,user_agent" in
  let columns := split "," fields in
  let query := "SELECT " ++ fields ++ " FROM users;" in
  let (info_logger, w) := get_logger w in
  let connection := get_db env in
  let rows := server connection query in
  log_rows info_logger columns rows w.

End Main.

(** ** The redaction as the specification words it

    Field names are read as literal text.  The message is walked from left
    to right; where a listed name followed by the equals sign begins, the
    name and the sign are kept, the redaction is written, and the value,
    which runs up to the next separator or to the end, is dropped. *)

(** [strip_prefix p s] is what follows [p] in [s], when [s] starts with [p]. *)
Fixpoint strip_prefix (p s : string) : option string :=
  match p with
  | EmptyString => Some s
  | String c p' =>
      match s with
      | String d s' => if Ascii.eqb c d then strip_prefix p' s' else None
      | EmptyString => None
      end
  end.

(** The first listed name that, followed by the equals sign, begins [s],
    with the text after the sign. *)
Fixpoint find_field (fields : list string) (s : string) : option (string * string) :=
  match fields with
  | [] => None
  | f :: fields' =>
      match strip_prefix (f ++ "=") s with
      | Some after => Some (f, after)
      | None => find_field fields' s
      end
  end.

(** The text from the next separator on. *)
Fixpoint skip_value (sep : ascii) (s : string) : string :=
  match s with
  | EmptyString => ""
  | String c s' => if Ascii.eqb c sep then s else skip_value sep s'
  end.

Fixpoint redact_upto (n : nat) (fields : list string) (redaction : string)
    (sep : ascii) (message : string) : string :=
  match n with
  | O => message
  | S n' =>
      match find_field fields message with
      | Some (f, after) =>
          f ++ "=" ++ redaction
            ++ redact_upto n' fields redaction sep (skip_value sep after)
      | None =>
          match message with
          | EmptyString => ""
          | String c m' => String c (redact_upto n' fields redaction sep m')
          end
      end
  end.

Definition redact (fields : list string) (redaction : string) (sep : ascii)
    (message : string) : string :=
  redact_upto (String.length message) fields redaction sep message.

(** Some listed name followed by the equals sign begins somewhere in [s]. *)
Fixpoint occurs (fields : list string) (s : string) : bool :=
  match find_field fields s with
  | Some _ => true
  | None =>
      match s with
      | EmptyString => false
      | String _ s' => occurs fields s'
      end
  end.

(** A name in which no character is special in a pattern. *)
Definition literal_name (f : string) : bool :=
  forallb (fun c => negb (re.is_special c)) (list_ascii_of_string f).

(** A name of ASCII letters and digits. *)
Definition alnum_name (f : string) : bool :=
  forallb is_alnum (list_ascii_of_string f).

(** The redaction with the names escaped, so that the pattern reads them
    as literal text. *)
Definition filter_datum_literal (fields : list string)
    (redaction message separator : string) : outcome string :=
  filter_datum (map re.escape fields) redaction message separator.

(** ** What the pattern of [patterns.extract] compiles to *)

Definition name_tokens (f : string) : list re.token :=
  map re.TLit (list_ascii_of_string f).

(** The tokens of the names joined by the bar, as [String.concat] joins
    the names. *)
Fixpoint names_tokens (fields : list string) : list re.token :=
  match fields with
  | [] => []
  | [f] => name_tokens f
  | f :: fields' => (name_tokens f ++ re.TBar :: names_tokens fields')%list
  end.

Definition extract_tokens (fields : list string) (sep : ascii) : list re.token :=
  (re.TOpen true (Some "field") :: names_tokens fields
   ++ [re.TClose; re.TLit "="; re.TSet true [re.SChar sep]; re.TStar])%list.

(** The regex of a literal name. *)
Definition name_regex (f : string) : re.regex :=
  re.seq_of (map re.Lit (list_ascii_of_string f)).

(** An empty list of names joins to the empty string, which reads as one
    empty name. *)
Definition alternatives (fields : list string) : list string :=
  match fields with
  | [] => [""]
  | _ => fields
  end.

Definition names_regex (fields : list string) : re.regex :=
  match map name_regex (alternatives fields) with
  | [] => re.Eps
  | r :: rs => re.alt_of r rs
  end.

(** The body that the group of names closes to, [alts0] being the
    alternatives read before the names. *)
Definition body_of (alts0 : list re.regex) (fields : list string) : re.regex :=
  match (rev alts0 ++ map name_regex (alternatives fields))%list with
  | [] => re.Eps
  | r :: rs => re.alt_of r rs
  end.

Definition value_regex (sep : ascii) : re.regex :=
  re.Star (re.CharSet true [re.SChar sep]).

Definition extract_regex (fields : list string) (sep : ascii) : re.regex :=
  re.Cat (re.Group 1 (names_regex fields))
         (re.Cat (re.Lit "=") (re.Cat (value_regex sep) re.Eps)).

Definition extract_pattern (fields : list string) (sep : ascii) : re.Pattern :=
  re.mkPattern (extract_regex fields sep) 1 [("field", 1)].

Definition replace_template (redaction : string) : list re.titem :=
  (re.TGroup 1 :: re.TText "=" :: map re.TText (list_ascii_of_string redaction))%list.

(** The scanner run over a part of a pattern: the tokens it gives and the
    state it is left in. *)
Fixpoint lex_run (st : re.lstate) (p : string) : outcome (list re.token * re.lstate) :=
  match p with
  | EmptyString => Ok ([], st)
  | String c p' =>
      r <- re.lex_step st c ;;
      r' <- lex_run (snd r) p' ;;
      Ok ((fst r ++ fst r')%list, snd r')
  end.

(** Likewise for the scanner of templates. *)
Fixpoint template_run (pat : re.Pattern) (st : re.tstate) (repl : string)
  : outcome (list re.titem * re.tstate) :=
  match repl with
  | EmptyString => Ok ([], st)
  | String c repl' =>
      r <- re.template_step pat st c ;;
      r' <- template_run pat (snd r) repl' ;;
      Ok ((fst r ++ fst r')%list, snd r')
  end.

(** A text with no backslash: a template reads it as it stands. *)
Definition no_backslash (s : string) : bool :=
  forallb (fun c => negb (Ascii.eqb c "\")) (list_ascii_of_string s).

(** The value that [skip_value] passes over. *)
Fixpoint take_value (sep : ascii) (s : string) : string :=
  match s with
  | EmptyString => ""
  | String c s' => if Ascii.eqb c sep then "" else String c (take_value sep s')
  end.

(** ** Log lines as records

    The wire format of a log line: records [key=value], each closed by
    the separator. *)

Definition free_of (c : ascii) (s : string) : bool := negb (mem c s).

Definition record_text (sep : ascii) (kv : string * string) : string :=
  fst kv ++ "=" ++ snd kv ++ String sep "".

Fixpoint line (sep : ascii) (records : list (string * string)) : string :=
  match records with
  | [] => ""
  | kv :: records' => record_text sep kv ++ line sep records'
  end.

(** [f] ends [k]. *)
Fixpoint ends_with (f k : string) : bool :=
  String.eqb f k ||
  match k with
  | EmptyString => false
  | String _ k' => ends_with f k'
  end.

(** The key ends with a listed name. *)
Definition key_listed (fields : list string) (k : string) : bool :=
  existsb (fun f => ends_with f k) fields.

Definition redact_record (fields : list string) (redaction : string)
    (kv : string * string) : string * string :=
  if key_listed fields (fst kv) then (fst kv, redaction) else kv.

(** A key or a value holds neither the equals sign nor the separator. *)
Definition atom (sep : ascii) (s : string) : bool :=
  free_of "=" s && free_of sep s.

Definition well_formed (sep : ascii) (records : list (string * string)) : bool :=
  forallb (fun kv => atom sep (fst kv) && atom sep (snd kv)) records.

(** A field name that is literal in a pattern and is itself an atom. *)
Definition field_name (sep : ascii) (f : string) : bool :=
  literal_name f && atom sep f.

(** ** The rendered record *)

(** The scanner of format strings run over a part of the string. *)
Fixpoint format_run (record : logging.LogRecord) (st : logging.fstate) (fmt : string)
  : outcome (string * logging.fstate) :=
  match fmt with
  | EmptyString => Ok ("", st)
  | String c fmt' =>
      r <- logging.format_step record st c ;;
      r' <- format_run record (snd r) fmt' ;;
      Ok (fst r ++ fst r', snd r')
  end.

(** The record through the template of the formatter: the prefix, the
    name of the logger, the severity, the time in a column of 15, and the
    message; then the text of the exception and of the stack, if any. *)
Definition rendered (record : logging.LogRecord) : string :=
  logging.append_block
    (logging.append_block
       ("[HOLBERTON] " ++ logging.name record ++ " " ++ logging.levelname record
        ++ " " ++ logging.ljust 15 (logging.asctime record) ++ ": "
        ++ logging.message record)
       (logging.exc_text record))
    (logging.stack_info record).

(** ** Hashes *)

(** The 16 bytes that a call of [gensalt] draws from the entropy. *)
Definition drawn_salt (e : entropy) : bytes := fst (urandom bcrypt.BCRYPT_MAXSALT e).

(** The minor versions that every release reads. *)
Definition known_minor (minor : byte) : bool :=
  Byte.eqb minor "a" || Byte.eqb minor "b" || Byte.eqb minor "y".

(** The 23 bytes of the digest that [hashpw] keeps, for a cost, a salt
    and the bytes of a password. *)
Definition digest (eksblowfish : nat -> bytes -> bytes -> bytes)
    (logr : nat) (csalt data : bytes) : bytes :=
  firstn 23 (eksblowfish logr csalt (firstn 72 data)).

(** The hash for a version, a cost, a salt and the bytes of a password. *)
Definition hash_of (eksblowfish : nat -> bytes -> bytes -> bytes)
    (minor : byte) (logr : nat) (csalt data : bytes) : bytes :=
  (bcrypt.header minor logr ++ bcrypt.encode_base64 csalt
   ++ bcrypt.encode_base64 (digest eksblowfish logr csalt data))%list.

(** The hash that [hashpw] gives for a salt of [gensalt]: version 2b, 12
    rounds. *)
Definition hash_with (eksblowfish : nat -> bytes -> bytes -> bytes)
    (csalt data : bytes) : bytes :=
  hash_of eksblowfish "b" 12 csalt data.

(** A source of random bytes that gives the same byte for ever. *)
Definition stuck (x : byte) : entropy := fun _ => x.

(** A source of random bytes that counts up from zero. *)
Definition counting : entropy := byte_of.

(** ** Tactics *)

(** From [is_special c = false] to one hypothesis per special character
    ([mem_cons] unfolds the membership test). *)
Ltac split_mem H mem_cons :=
  unfold re.is_special, re.SPECIAL_CHARS in H;
  repeat (rewrite mem_cons in H; apply orb_false_elim in H;
          let E := fresh "E" in destruct H as [E H]).

Ltac rewrite_eqbs :=
  repeat match goal with
         | E : Ascii.eqb _ _ = false |- _ => rewrite E; clear E
         end.

(** ** Records whose values may hold the equals sign *)

(** How many times a character occurs. *)
Fixpoint count (c : ascii) (s : string) : nat :=
  match s with
  | EmptyString => 0
  | String d s' => (if Ascii.eqb c d then 1 else 0) + count c s'
  end.

(** What the redaction needs of a record to treat it as one: a key with
    no equals sign; a value with no separator where the key is listed,
    and with no equals sign where it is not. *)
Definition readable_record (fields : list string) (sep : ascii)
    (kv : string * string) : bool :=
  free_of "=" (fst kv)
  && (if key_listed fields (fst kv) then free_of sep (snd kv)
      else free_of "=" (snd kv)).

Definition readable (fields : list string) (sep : ascii)
    (records : list (string * string)) : bool :=
  forallb (readable_record fields sep) records.

(** What the template of the formatter puts before the message. *)
Definition line_header (record : logging.LogRecord) : string :=
  "[HOLBERTON] " ++ logging.name record ++ " " ++ logging.levelname record
  ++ " " ++ logging.ljust 15 (logging.asctime record) ++ ": ".

(** ** The lines that [main] writes *)

Definition newline : string := String (ascii_of_nat 10) "".

(** The text [s], [n] times. *)
Fixpoint repeat_text (n : nat) (s : string) : string :=
  match n with
  | O => ""
  | S n' => s ++ repeat_text n' s
  end.

(** [get_logger] called [n] times. *)
Fixpoint get_logger_times (n : nat) (w : world) : world :=
  match n with
  | O => w
  | S n' => snd (get_logger (get_logger_times n' w))
  end.

(** The handlers of the logger "user_data". *)
Definition user_data_handlers (w : world) : list StreamHandler.t :=
  match loggerDict w "user_data" with
  | Some l => Logger.handlers l
  | None => []
  end.

(** Every handler of the logger is an object made in this process: its
    identity is below the count of the objects made. *)
Definition known_handlers (w : world) : bool :=
  forallb (fun h => StreamHandler.id h <? created w) (user_data_handlers w).

(** A process in which no logger has been asked for, to evaluate examples
    with; its clock stands still. *)
Definition example_world : world :=
  mkWorld (fun _ => None) 0 (fun _ => "2019-11-19 18:24:25,105") 0 "".

(** The handler that a call of [get_logger] makes. *)
Definition redacting_handler (id : nat) : StreamHandler.t :=
  StreamHandler.mk id NOTSET (Some (RedactingFormatter.mk PII_FIELDS)).

(** The columns that [main] selects. *)
Definition COLUMNS : list string :=
  ["name"; "email"; "phone"; "ssn"; "password"; "ip"; "last_login"; "user_agent"].

(** The keys of the records that [main] logs, as the redaction reads
    them: after the first, a key begins with the space that follows the
    semicolon. *)
Definition KEYS : list string := "name" :: map (append " ") (tl COLUMNS).

(** A row with the values of the first five columns, the fields of
    [PII_FIELDS], replaced by the redaction. *)
Definition masked (row : list string) : list string :=
  (map (fun _ => RedactingFormatter.REDACTION) (firstn 5 row) ++ skipn 5 row)%list.

(** The values of a row that the redaction reads as values: no semicolon
    in the first five, no equals sign in the others. *)
Definition loggable (row : list string) : bool :=
  forallb (free_of ";") (firstn 5 row) && forallb (free_of "=") (skipn 5 row).

(** The line for a row in a record created at the time [asctime]. *)
Definition log_line (asctime : string) (row : list string) : string :=
  "[HOLBERTON] user_data INFO " ++ logging.ljust 15 asctime ++ ": "
  ++ row_message COLUMNS (masked row) ++ newline.

(** The lines for the rows, the first in the [n]-th record of the clock. *)
Fixpoint log_lines (clock : nat -> string) (n : nat) (rows : list (list string))
  : string :=
  match rows with
  | [] => ""
  | row :: rows' => log_line (clock n) row ++ log_lines clock (S n) rows'
  end.

(** The query that [main] sends. *)
Definition QUERY : string :=
  "SELECT name,email,phone,ssn,password,ip,last_login,user_agent FROM users;".

(** A server to evaluate examples with: on the port 3306 of the local
    host, a table of two users. *)
Definition example_server (args : ConnectArgs) (query : string)
  : list (list string) :=
  if String.eqb (host args) "localhost" && (port args =? 3306)
     && String.eqb (user args) "root" && String.eqb query QUERY
  then [["Marlene Wood"; "hwestiii@att.net"; "(473) 401-4253"; "261-72-6780";
         "K5?BMNv"; "60ed:c396:2ff:244:bbd0:9208:26f2:93ea";
         "2019-11-14T06:14:24"; "Mozilla/5.0 (compatible; MSIE 9.0; Windows NT 6.1)"];
        ["Belen Bailey"; "bcevc@yahoo.com"; "(539) 233-4942"; "203-38-5395";
         "^3EZ~TkX"; "f724:c5d1:a14d:c4c5:bae2:9457:3769:1969";
         "2019-11-14T06:16:19"; "None"]]
  else [].

(** ** A separator of several characters

    The separator goes into the character set of the pattern as it is, so
    a separator of several characters is read as a set of characters. *)

(** A character that stands for itself inside a character set. *)
Definition plain_in_set (c : ascii) : bool :=
  negb (Ascii.eqb c "]") && negb (Ascii.eqb c "\") && negb (Ascii.eqb c "-").

Definition plain_separator (seps : string) : bool :=
  negb (String.eqb seps "") && forallb plain_in_set (list_ascii_of_string seps).

Definition set_items (seps : string) : list re.set_item :=
  map re.SChar (list_ascii_of_string seps).

(** The text from the next character that occurs in [seps] on. *)
Fixpoint skip_value_among (seps s : string) : string :=
  match s with
  | EmptyString => ""
  | String c s' => if mem c seps then s else skip_value_among seps s'
  end.

(** The value that [skip_value_among] passes over. *)
Fixpoint take_value_among (seps s : string) : string :=
  match s with
  | EmptyString => ""
  | String c s' => if mem c seps then "" else String c (take_value_among seps s')
  end.

(** The redaction from left to right, a value ending at the first
    character that occurs in [seps] or at the end of the message. *)
Fixpoint redact_among_upto (n : nat) (fields : list string) (redaction seps : string)
    (message : string) : string :=
  match n with
  | O => message
  | S n' =>
      match find_field fields message with
      | Some (f, after) =>
          f ++ "=" ++ redaction
            ++ redact_among_upto n' fields redaction seps (skip_value_among seps after)
      | None =>
          match message with
          | EmptyString => ""
          | String c m' => String c (redact_among_upto n' fields redaction seps m')
          end
      end
  end.

Definition redact_among (fields : list string) (redaction seps : string)
    (message : string) : string :=
  redact_among_upto (String.length message) fields redaction seps message.

(** What the pattern compiles to, the set of the separator being [its]. *)
Definition extract_tokens_among (fields : list string) (its : list re.set_item)
  : list re.token :=
  (re.TOpen true (Some "field") :: names_tokens fields
   ++ [re.TClose; re.TLit "="; re.TSet true its; re.TStar])%list.

Definition value_regex_among (its : list re.set_item) : re.regex :=
  re.Star (re.CharSet true its).

Definition extract_regex_among (fields : list string) (its : list re.set_item)
  : re.regex :=
  re.Cat (re.Group 1 (names_regex fields))
         (re.Cat (re.Lit "=") (re.Cat (value_regex_among its) re.Eps)).

Definition extract_pattern_among (fields : list string) (its : list re.set_item)
  : re.Pattern :=
  re.mkPattern (extract_regex_among fields its) 1 [("field", 1)].

(** ** Tactics for conjunctions of booleans *)

Ltac split_andb :=
  repeat match goal with
         | H : _ && _ = true |- _ =>
             let H1 := fresh "H" in
             apply andb_prop in H; destruct H as [H1 H]
         end.

(** * Proofs *)

(** ** Strings *)

Lemma append_assoc (x y z : string) : (x ++ y) ++ z = x ++ (y ++ z).
Proof. induction x as [|c x IH]; simpl; [reflexivity | now rewrite IH]. Qed.

Lemma append_nil_r (x : string) : x ++ "" = x.
Proof. induction x as [|c x IH]; simpl; [reflexivity | now rewrite IH]. Qed.

Lemma length_append (x y : string) :
  String.length (x ++ y) = String.length x + String.length y.
Proof. induction x as [|c x IH]; simpl; [reflexivity | now rewrite IH]. Qed.

Lemma substring_append (x y : string) :
  substring 0 (String.length x) (x ++ y) = x.
Proof.
  induction x as [|c x IH]; simpl.
  - destruct y; reflexivity.
  - now rewrite IH.
Qed.

Lemma consumed_append (x y : string) : re.consumed (x ++ y) y = x.
Proof.
  unfold re.consumed. rewrite length_append.
  replace (String.length x + String.length y - String.length y) with (String.length x) by lia.
  apply substring_append.
Qed.

Lemma strip_prefix_Some (p s rest : string) :
  strip_prefix p s = Some rest -> s = p ++ rest.
Proof.
  revert s; induction p as [|c p IH]; simpl; intros s H.
  - now inversion H.
  - destruct s as [|d s]; [discriminate|].
    destruct (Ascii.eqb_spec c d) as [->|]; [|discriminate].
    now rewrite (IH _ H).
Qed.

Lemma strip_prefix_app (p q s : string) :
  strip_prefix (p ++ q) s =
  match strip_prefix p s with
  | Some rest => strip_prefix q rest
  | None => None
  end.
Proof.
  revert s; induction p as [|c p IH]; simpl; intros s; [reflexivity|].
  destruct s as [|d s]; [reflexivity|].
  destruct (Ascii.eqb c d); [apply IH | reflexivity].
Qed.

(** ** The scanner of patterns *)

Lemma mem_cons (c d : ascii) (s : string) :
  mem c (String d s) = Ascii.eqb c d || mem c s.
Proof. reflexivity. Qed.

Lemma mem_nil (c : ascii) : mem c "" = false.
Proof. reflexivity. Qed.

Lemma normal_step_literal (c : ascii) :
  re.is_special c = false -> re.normal_step c = Ok ([re.TLit c], re.LNormal).
Proof.
  intros H. split_mem H mem_cons.
  unfold re.normal_step. rewrite !mem_cons, mem_nil.
  rewrite_eqbs. reflexivity.
Qed.

Lemma literal_name_cons (c : ascii) (f : string) :
  literal_name (String c f) = negb (re.is_special c) && literal_name f.
Proof. reflexivity. Qed.

(** The tokens of a name of literal characters are its characters. *)
Lemma lex_literal_name (f rest : string) :
  literal_name f = true ->
  re.lex re.LNormal (f ++ rest) =
  (ts <- re.lex re.LNormal rest ;; Ok (map re.TLit (list_ascii_of_string f) ++ ts)%list).
Proof.
  induction f as [|c f IH]; intros H.
  - simpl. destruct (re.lex re.LNormal rest); reflexivity.
  - rewrite literal_name_cons in H. apply andb_prop in H as [Hc Hf].
    apply negb_true_iff in Hc.
    cbn [append re.lex re.lex_step]. rewrite (normal_step_literal _ Hc).
    cbn [bind fst snd]. rewrite (IH Hf).
    destruct (re.lex re.LNormal rest); reflexivity.
Qed.

Lemma lex_bar (rest : string) :
  re.lex re.LNormal (String "|" rest) =
  (ts <- re.lex re.LNormal rest ;; Ok (re.TBar :: ts)).
Proof.
  cbn [re.lex re.lex_step]. 
  change (re.normal_step "|") with (Ok ([re.TBar], re.LNormal) : outcome (list re.token * re.lstate)).
  cbn [bind fst snd]. destruct (re.lex re.LNormal rest); reflexivity.
Qed.

Lemma lex_names (fields : list string) (rest : string) :
  forallb literal_name fields = true ->
  re.lex re.LNormal (String.concat "|" fields ++ rest) =
  (ts <- re.lex re.LNormal rest ;; Ok (names_tokens fields ++ ts)%list).
Proof.
  induction fields as [|f fields IH]; intros H.
  - simpl. destruct (re.lex re.LNormal rest); reflexivity.
  - cbn [forallb] in H. apply andb_prop in H as [Hf Hfs].
    destruct fields as [|g fields].
    + cbn [String.concat names_tokens]. apply (lex_literal_name _ _ Hf).
    + change (String.concat "|" (f :: g :: fields))
        with (f ++ "|" ++ String.concat "|" (g :: fields)).
      rewrite !append_assoc. rewrite (lex_literal_name _ _ Hf).
      change ("|" ++ String.concat "|" (g :: fields) ++ rest)
        with (String "|" (String.concat "|" (g :: fields) ++ rest)).
      rewrite lex_bar, (IH Hfs).
      destruct (re.lex re.LNormal rest) as [ts| |]; try reflexivity.
      cbn [bind]. change (names_tokens (f :: g :: fields))
        with (name_tokens f ++ re.TBar :: names_tokens (g :: fields))%list.
      unfold name_tokens. now rewrite <- app_assoc.
Qed.

Lemma lex_append (st : re.lstate) (p rest : string) :
  re.lex st (p ++ rest) =
  (r <- lex_run st p ;; ts <- re.lex (snd r) rest ;; Ok (fst r ++ ts)%list).
Proof.
  revert st; induction p as [|c p IH]; intros st.
  - cbn [append lex_run bind fst snd app].
    destruct (re.lex st rest); reflexivity.
  - cbn [append re.lex lex_run].
    destruct (re.lex_step st c) as [[ts st']| |]; try reflexivity.
    cbn [bind fst snd]. rewrite IH.
    destruct (lex_run st' p) as [[ts' st'']| |]; try reflexivity.
    cbn [bind fst snd].
    destruct (re.lex st'' rest) as [ts''| |]; try reflexivity.
    cbn [bind]. now rewrite app_assoc.
Qed.

Lemma lex_open_field (rest : string) :
  re.lex re.LNormal ("(?P<field>" ++ rest) =
  (ts <- re.lex re.LNormal rest ;; Ok (re.TOpen true (Some "field") :: ts)).
Proof.
  rewrite lex_append.
  replace (lex_run re.LNormal "(?P<field>")
    with (Ok ([re.TOpen true (Some "field")], re.LNormal)
          : outcome (list re.token * re.lstate)) by (vm_compute; reflexivity).
  reflexivity.
Qed.

Lemma lex_set_member (sep : ascii) :
  sep <> "\"%char ->
  re.lex_step (re.LSet true []) sep = Ok ([], re.LSetLit true [] sep).
Proof.
  intros Hsep. cbn [re.lex_step]. unfold re.set_step.
  destruct (Ascii.eqb sep "]"); [reflexivity|].
  destruct (Ascii.eqb_spec sep "\"); [contradiction | reflexivity].
Qed.

Lemma lex_set_close (sep : ascii) :
  re.lex_step (re.LSetLit true [] sep) "]" =
  Ok ([re.TSet true [re.SChar sep]], re.LNormal).
Proof. reflexivity. Qed.

Lemma lex_value (sep : ascii) :
  sep <> "\"%char ->
  re.lex re.LNormal (")=[^" ++ String sep "" ++ "]*") =
  Ok [re.TClose; re.TLit "="; re.TSet true [re.SChar sep]; re.TStar].
Proof.
  intros Hsep. rewrite lex_append.
  replace (lex_run re.LNormal ")=[^")
    with (Ok ([re.TClose; re.TLit "="], re.LSet true [])
          : outcome (list re.token * re.lstate)) by (vm_compute; reflexivity).
  cbn [bind fst snd append re.lex].
  rewrite (lex_set_member _ Hsep). cbn [bind fst snd].
  rewrite lex_set_close. cbn [bind fst snd].
  replace (re.lex_step re.LNormal "*")
    with (Ok ([re.TStar], re.LNormal) : outcome (list re.token * re.lstate))
    by (vm_compute; reflexivity).
  reflexivity.
Qed.

Lemma lex_extract (fields : list string) (sep : ascii) :
  forallb literal_name fields = true ->
  sep <> "\"%char ->
  re.lex re.LNormal (patterns.extract fields (String sep "")) =
  Ok (extract_tokens fields sep).
Proof.
  intros Hf Hsep. unfold patterns.extract.
  rewrite lex_open_field, (lex_names _ _ Hf), (lex_value _ Hsep).
  reflexivity.
Qed.

(** ** The parser on the tokens of the pattern *)

Lemma parse_tokens_app (st : re.pstate) (ts ts' : list re.token) :
  re.parse_tokens st (ts ++ ts') =
  (st' <- re.parse_tokens st ts ;; re.parse_tokens st' ts').
Proof.
  revert st; induction ts as [|t ts IH]; intros st; [reflexivity|].
  cbn [app re.parse_tokens].
  destruct (re.parse_step st t); cbn [bind]; [apply IH | reflexivity | reflexivity].
Qed.

Lemma parse_literals (stk : list re.frame) (alts items : list re.regex)
    (g : nat) (gi : list (string * nat)) (l : list ascii) :
  re.parse_tokens (re.mkPstate stk alts items g gi) (map re.TLit l) =
  Ok (re.mkPstate stk alts (rev (map re.Lit l) ++ items) g gi).
Proof.
  revert items; induction l as [|c l IH]; intros items; [reflexivity|].
  cbn [map re.parse_tokens re.parse_step bind]. unfold re.push_item.
  cbn [re.stack re.alts re.items re.groups re.groupindex].
  rewrite IH. cbn [rev]. now rewrite <- app_assoc.
Qed.

Lemma close_alts_name (alts0 : list re.regex) (f : string) :
  re.close_alts alts0 (rev (map re.Lit (list_ascii_of_string f)) ++ []) =
  body_of alts0 [f].
Proof.
  unfold re.close_alts, body_of. rewrite app_nil_r, rev_involutive.
  reflexivity.
Qed.

Lemma parse_names (fr : re.frame) (stk : list re.frame) (alts0 : list re.regex)
    (g : nat) (gi : list (string * nat)) (fields : list string) (ts : list re.token) :
  re.parse_tokens (re.mkPstate (fr :: stk) alts0 [] g gi)
                  (names_tokens fields ++ re.TClose :: ts) =
  re.parse_tokens
    (re.mkPstate stk (re.f_alts fr)
       (match re.f_gid fr with
        | Some gid => re.Group gid (body_of alts0 fields)
        | None => re.NGroup (body_of alts0 fields)
        end :: re.f_items fr) g gi) ts.
Proof.
  revert alts0; induction fields as [|f fields IH]; intros alts0.
  - reflexivity.
  - destruct fields as [|f' fields].
    + cbn [names_tokens]. unfold name_tokens.
      rewrite parse_tokens_app, parse_literals. cbn [bind].
      cbn [re.parse_tokens re.parse_step re.stack re.alts re.items
           re.groups re.groupindex bind].
      now rewrite close_alts_name.
    + change (names_tokens (f :: f' :: fields))
        with (name_tokens f ++ re.TBar :: names_tokens (f' :: fields))%list.
      unfold name_tokens. rewrite <- app_assoc.
      rewrite parse_tokens_app, parse_literals. cbn [bind].
      cbn [app re.parse_tokens re.parse_step re.stack re.alts re.items
           re.groups re.groupindex bind].
      rewrite IH. rewrite app_nil_r, rev_involutive.
      unfold body_of. cbn [rev alternatives map].
      now rewrite <- app_assoc.
Qed.

Lemma parse_extract (fields : list string) (sep : ascii) :
  re.parse_tokens re.pstate0 (extract_tokens fields sep) =
  Ok (re.mkPstate [] []
        [value_regex sep; re.Lit "="; re.Group 1 (names_regex fields)]
        1 [("field", 1)]).
Proof.
  unfold extract_tokens.
  cbn [re.parse_tokens re.parse_step re.pstate0 re.lookup bind
       re.stack re.alts re.items re.groups re.groupindex].
  rewrite parse_names. reflexivity.
Qed.

(** The pattern of [patterns.extract], compiled. *)
Lemma compile_extract (fields : list string) (sep : ascii) :
  forallb literal_name fields = true ->
  sep <> "\"%char ->
  re.compile (patterns.extract fields (String sep "")) =
  Ok (extract_pattern fields sep).
Proof.
  intros Hf Hsep. unfold re.compile.
  rewrite (lex_extract _ _ Hf Hsep). cbn [bind].
  rewrite parse_extract. reflexivity.
Qed.

(** ** The template of [patterns.replace] *)

Lemma template_append (pat : re.Pattern) (st : re.tstate) (p rest : string) :
  re.parse_template_from pat st (p ++ rest) =
  (r <- template_run pat st p ;;
   ts <- re.parse_template_from pat (snd r) rest ;; Ok (fst r ++ ts)%list).
Proof.
  revert st; induction p as [|c p IH]; intros st.
  - cbn [append template_run bind fst snd app].
    destruct (re.parse_template_from pat st rest); reflexivity.
  - cbn [append re.parse_template_from template_run].
    destruct (re.template_step pat st c) as [[ts st']| |]; try reflexivity.
    cbn [bind fst snd]. rewrite IH.
    destruct (template_run pat st' p) as [[ts' st'']| |]; try reflexivity.
    cbn [bind fst snd].
    destruct (re.parse_template_from pat st'' rest) as [ts''| |]; try reflexivity.
    cbn [bind]. now rewrite app_assoc.
Qed.

Lemma template_literal (pat : re.Pattern) (s : string) :
  no_backslash s = true ->
  re.parse_template_from pat re.TNormal s =
  Ok (map re.TText (list_ascii_of_string s)).
Proof.
  induction s as [|c s IH]; intros H; [reflexivity|].
  unfold no_backslash in H. cbn [list_ascii_of_string forallb] in H.
  apply andb_prop in H as [Hc Hs]. apply negb_true_iff in Hc.
  cbn [re.parse_template_from re.template_step]. unfold re.template_normal.
  rewrite Hc. cbn [bind fst snd]. rewrite (IH Hs). reflexivity.
Qed.

Lemma template_replace (fields : list string) (sep : ascii) (redaction : string) :
  no_backslash redaction = true ->
  re.parse_template (extract_pattern fields sep) (patterns.replace redaction) =
  Ok (replace_template redaction).
Proof.
  intros H. unfold re.parse_template, patterns.replace.
  rewrite template_append.
  replace (template_run (extract_pattern fields sep) re.TNormal "\g<field>=")
    with (Ok ([re.TGroup 1; re.TText "="], re.TNormal)
          : outcome (list re.titem * re.tstate)) by (vm_compute; reflexivity).
  cbn [bind fst snd]. rewrite (template_literal _ _ H). reflexivity.
Qed.

Lemma expand_literal (s : string) (cs : re.captures) :
  re.expand (map re.TText (list_ascii_of_string s)) cs = s.
Proof. induction s as [|c s IH]; cbn; [reflexivity | now rewrite IH]. Qed.

Lemma expand_replace (redaction f : string) (cs : re.captures) :
  re.group_text 1 cs = Some f ->
  re.expand (replace_template redaction) cs = f ++ "=" ++ redaction.
Proof.
  intros H. unfold replace_template. cbn [re.expand]. rewrite H.
  now rewrite expand_literal.
Qed.

(** ** Matching the pattern *)

Lemma rmatch_Alt (r1 r2 : re.regex) (s : string) (cs : re.captures) (k : re.cont) :
  re.rmatch (re.Alt r1 r2) s cs k =
  re.or_else (re.rmatch r1 s cs k) (re.rmatch r2 s cs k).
Proof. reflexivity. Qed.

Lemma rmatch_Cat (r1 r2 : re.regex) (s : string) (cs : re.captures) (k : re.cont) :
  re.rmatch (re.Cat r1 r2) s cs k =
  re.rmatch r1 s cs (fun s' cs' => re.rmatch r2 s' cs' k).
Proof. reflexivity. Qed.

Lemma rmatch_Group (gid : nat) (r : re.regex) (s : string) (cs : re.captures)
    (k : re.cont) :
  re.rmatch (re.Group gid r) s cs k =
  re.rmatch r s cs (fun s' cs' => k s' ((gid, re.consumed s s') :: cs')).
Proof. reflexivity. Qed.

Lemma rmatch_name (f s : string) (cs : re.captures) (k : re.cont) :
  re.rmatch (name_regex f) s cs k =
  match strip_prefix f s with
  | Some rest => k rest cs
  | None => None
  end.
Proof.
  revert s; induction f as [|c f IH]; intros s; [reflexivity|].
  change (name_regex (String c f)) with (re.Cat (re.Lit c) (name_regex f)).
  cbn [re.rmatch strip_prefix]. unfold re.one_char.
  destruct s as [|d s]; [reflexivity|].
  destruct (Ascii.eqb c d); [apply IH | reflexivity].
Qed.

Lemma skip_value_length (sep : ascii) (s : string) :
  String.length (skip_value sep s) <= String.length s.
Proof.
  induction s as [|c s IH]; cbn [skip_value]; [lia|].
  destruct (Ascii.eqb c sep); cbn [String.length]; lia.
Qed.

(** The greedy loop over the characters that are not the separator stops
    at the separator, when what follows cannot fail. *)
Lemma loop_value (sep : ascii) (k : re.cont) (s : string) :
  (forall t ct, k t ct <> None) ->
  forall (fuel : nat) (cs : re.captures),
    String.length s <= fuel ->
    re.loop (re.rmatch (re.CharSet true [re.SChar sep])) fuel s cs k =
    k (skip_value sep s) cs.
Proof.
  intros Hk. induction s as [|c s IH]; intros fuel cs Hfuel.
  - destruct fuel; reflexivity.
  - destruct fuel as [|fuel]; [cbn in Hfuel; lia|].
    cbn [re.loop re.rmatch skip_value]. unfold re.one_char, re.in_set.
    cbn [existsb re.in_item]. rewrite orb_false_r.
    destruct (Ascii.eqb c sep); cbn [xorb negb re.or_else].
    + reflexivity.
    + replace (String.length s <? String.length (String c s)) with true
        by (symmetry; apply Nat.ltb_lt; cbn; lia).
      rewrite IH by (cbn in Hfuel; lia).
      destruct (k (skip_value sep s) cs) eqn:E; [reflexivity|].
      now apply Hk in E.
Qed.

(** What follows the name in the pattern: the equals sign and the value. *)
Lemma rmatch_value (sep : ascii) (k : re.cont) (s : string) (cs : re.captures) :
  (forall t ct, k t ct <> None) ->
  re.rmatch (re.Cat (re.Lit "=") (re.Cat (value_regex sep) re.Eps)) s cs k =
  match strip_prefix "=" s with
  | Some after => k (skip_value sep after) cs
  | None => None
  end.
Proof.
  intros Hk. cbn [re.rmatch strip_prefix value_regex]. unfold re.one_char.
  destruct s as [|d s]; [reflexivity|].
  destruct (Ascii.eqb "=" d); [|reflexivity].
  now apply loop_value.
Qed.

(** One alternative: the name, then the equals sign and the value. *)
Lemma rmatch_field (sep : ascii) (k : re.cont) (s : string) (cs : re.captures)
    (f : string) :
  (forall t ct, k t ct <> None) ->
  re.rmatch (name_regex f) s cs
    (fun s' cs' =>
       re.rmatch (re.Cat (re.Lit "=") (re.Cat (value_regex sep) re.Eps)) s'
                 ((1, re.consumed s s') :: cs') k) =
  match strip_prefix (f ++ "=") s with
  | Some after => k (skip_value sep after) ((1, f) :: cs)
  | None => None
  end.
Proof.
  intros Hk. rewrite rmatch_name, strip_prefix_app.
  destruct (strip_prefix f s) as [rest|] eqn:E; [|reflexivity].
  rewrite (rmatch_value _ _ _ _ Hk).
  apply strip_prefix_Some in E. subst s. now rewrite consumed_append.
Qed.

(** The alternatives are tried in the order of the list; one whose name
    matches but is not followed by the equals sign gives way to the next. *)
Lemma rmatch_names (sep : ascii) (k : re.cont) (s : string) (cs : re.captures)
    (f : string) (fields : list string) :
  (forall t ct, k t ct <> None) ->
  re.rmatch (re.alt_of (name_regex f) (map name_regex fields)) s cs
    (fun s' cs' =>
       re.rmatch (re.Cat (re.Lit "=") (re.Cat (value_regex sep) re.Eps)) s'
                 ((1, re.consumed s s') :: cs') k) =
  match find_field (f :: fields) s with
  | Some (g, after) => k (skip_value sep after) ((1, g) :: cs)
  | None => None
  end.
Proof.
  intros Hk. revert f; induction fields as [|f' fields IH]; intros f.
  - cbn [map re.alt_of find_field]. rewrite (rmatch_field _ _ _ _ _ Hk).
    destruct (strip_prefix (f ++ "=") s); reflexivity.
  - cbn [map re.alt_of]. rewrite rmatch_Alt, IH, (rmatch_field _ _ _ _ _ Hk).
    change (find_field (f :: f' :: fields) s)
      with (match strip_prefix (f ++ "=") s with
            | Some after => Some (f, after)
            | None => find_field (f' :: fields) s
            end).
    destruct (strip_prefix (f ++ "=") s) as [after|]; [|reflexivity].
    destruct (k (skip_value sep after) ((1, f) :: cs)) eqn:Ek; [reflexivity|].
    now apply Hk in Ek.
Qed.

(** A match of the pattern at the head of [s]: the first listed name that
    begins [s] and is followed by the equals sign, with its value. *)
Lemma match_here_extract (fields : list string) (sep : ascii) (s : string) :
  re.match_here (extract_regex fields sep) s false =
  match find_field (alternatives fields) s with
  | Some (f, after) =>
      Some (skip_value sep after,
            [(0, re.consumed s (skip_value sep after)); (1, f)])
  | None => None
  end.
Proof.
  unfold re.match_here, extract_regex, names_regex.
  rewrite rmatch_Cat, rmatch_Group. cbn [andb].
  destruct (alternatives fields) as [|f fs] eqn:E.
  { destruct fields; discriminate. }
  cbn [map].
  rewrite (rmatch_names sep
             (fun s' cs' => Some (s', (0, re.consumed s s') :: cs'))) by discriminate.
  destruct (find_field (f :: fs) s) as [[g after]|]; reflexivity.
Qed.

(** ** The substitution with the pattern *)

Lemma take_skip_value (sep : ascii) (s : string) :
  take_value sep s ++ skip_value sep s = s.
Proof.
  induction s as [|c s IH]; cbn [take_value skip_value]; [reflexivity|].
  destruct (Ascii.eqb c sep); [reflexivity|]. cbn [append]. now rewrite IH.
Qed.

Lemma find_field_Some (fields : list string) (s f after : string) :
  find_field fields s = Some (f, after) -> s = f ++ "=" ++ after.
Proof.
  induction fields as [|g fields IH]; cbn [find_field]; [discriminate|].
  destruct (strip_prefix (g ++ "=") s) as [a|] eqn:E; [|exact IH].
  intros H; inversion H; subst. apply strip_prefix_Some in E.
  now rewrite E, append_assoc.
Qed.

Lemma find_field_nil (fields : list string) : find_field fields "" = None.
Proof.
  induction fields as [|g fields IH]; cbn [find_field]; [reflexivity|].
  rewrite strip_prefix_app.
  destruct (strip_prefix g "") as [rest|] eqn:E; [|exact IH].
  apply strip_prefix_Some in E. destruct g; [|discriminate].
  cbn in E. subst rest. exact IH.
Qed.

Lemma scan_skip (r : re.regex) (tpl : list re.titem) (x rest : string) :
  re.scan r tpl (x ++ rest) (String.length x) = re.scan r tpl rest 0.
Proof.
  induction x as [|c x IH]; [reflexivity|].
  cbn [append String.length]. destruct rest; cbn [re.scan]; exact IH.
Qed.

Lemma scan_nil (r : re.regex) (tpl : list re.titem) :
  re.match_here r "" false = None -> re.scan r tpl "" 0 = "".
Proof. intros H. cbn [re.scan]. now rewrite H. Qed.

Lemma scan_copy (r : re.regex) (tpl : list re.titem) (c : ascii) (s : string) :
  re.match_here r (String c s) false = None ->
  re.scan r tpl (String c s) 0 = String c (re.scan r tpl s 0).
Proof. intros H. cbn [re.scan]. now rewrite H. Qed.

(** A match that is not empty is replaced, and the walk resumes after it. *)
Lemma scan_replace (r : re.regex) (tpl : list re.titem) (c : ascii)
    (x rest : string) (cs : re.captures) :
  re.match_here r (String c x ++ rest) false = Some (rest, cs) ->
  re.scan r tpl (String c x ++ rest) 0 = re.expand tpl cs ++ re.scan r tpl rest 0.
Proof.
  intros H. cbn [append] in *. cbn [re.scan]. rewrite H.
  cbn [String.length]. rewrite length_append.
  replace (S (String.length x + String.length rest) - String.length rest)
    with (S (String.length x)) by lia.
  now rewrite scan_skip.
Qed.

Lemma scan_extract (fields : list string) (sep : ascii) (redaction s : string) :
  re.scan (extract_regex fields sep) (replace_template redaction) s 0 =
  match find_field (alternatives fields) s with
  | Some (f, after) =>
      f ++ "=" ++ redaction
        ++ re.scan (extract_regex fields sep) (replace_template redaction)
                   (skip_value sep after) 0
  | None =>
      match s with
      | EmptyString => ""
      | String c s' =>
          String c (re.scan (extract_regex fields sep)
                            (replace_template redaction) s' 0)
      end
  end.
Proof.
  pose proof (match_here_extract fields sep s) as M.
  destruct (find_field (alternatives fields) s) as [[f after]|] eqn:E.
  - apply find_field_Some in E.
    assert (Es : s = (f ++ "=" ++ take_value sep after) ++ skip_value sep after).
    { now rewrite !append_assoc, take_skip_value. }
    destruct (f ++ "=" ++ take_value sep after) as [|c x] eqn:Ex.
    { destruct f; discriminate. }
    rewrite Es in M |- *. rewrite (scan_replace _ _ _ _ _ _ M).
    rewrite (expand_replace redaction f) by reflexivity.
    now rewrite !append_assoc.
  - destruct s as [|c s]; [now apply scan_nil | now apply scan_copy].
Qed.

Lemma scan_redact (fields : list string) (sep : ascii) (redaction : string) :
  forall (n : nat) (s : string),
    String.length s <= n ->
    re.scan (extract_regex fields sep) (replace_template redaction) s 0 =
    redact_upto n (alternatives fields) redaction sep s.
Proof.
  induction n as [|n IH]; intros s Hn.
  - destruct s; [|cbn in Hn; lia].
    rewrite scan_extract, find_field_nil. reflexivity.
  - rewrite scan_extract. cbn [redact_upto].
    destruct (find_field (alternatives fields) s) as [[f after]|] eqn:E.
    + rewrite IH; [reflexivity|].
      apply find_field_Some in E. subst s.
      rewrite !length_append in Hn. cbn [String.length] in Hn.
      pose proof (skip_value_length sep after). lia.
    + destruct s as [|c s]; [reflexivity|].
      rewrite IH; [reflexivity | cbn in Hn; lia].
Qed.

(** [filter_datum] on literal names, a redaction without backslash and a
    separator of one character other than the backslash. *)
Lemma filter_datum_alternatives (fields : list string) (redaction message : string)
    (sep : ascii) :
  forallb literal_name fields = true ->
  no_backslash redaction = true ->
  sep <> "\"%char ->
  filter_datum fields redaction message (String sep "") =
  Ok (redact (alternatives fields) redaction sep message).
Proof.
  intros Hf Hr Hsep. unfold filter_datum, re.sub.
  rewrite (compile_extract _ _ Hf Hsep). cbn [bind].
  rewrite (template_replace _ _ _ Hr). cbn [bind re.p_regex extract_pattern].
  unfold redact. now rewrite (scan_redact _ _ _ (String.length message)).
Qed.

(** ** The redaction of the specification *)

Section Redact.

Variables (fields : list string) (redaction : string) (sep : ascii).

Lemma redact_upto_fuel (n m : nat) (s : string) :
  String.length s <= n -> String.length s <= m ->
  redact_upto n fields redaction sep s = redact_upto m fields redaction sep s.
Proof.
  revert m s; induction n as [|n IH]; intros m s Hn Hm.
  - destruct s; [|cbn in Hn; lia].
    destruct m; cbn [redact_upto]; [reflexivity|].
    now rewrite find_field_nil.
  - destruct m as [|m].
    + destruct s; [|cbn in Hm; lia].
      cbn [redact_upto]. now rewrite find_field_nil.
    + cbn [redact_upto].
      destruct (find_field fields s) as [[f after]|] eqn:E.
      * apply find_field_Some in E. subst s.
        rewrite !length_append in Hn, Hm. cbn [String.length] in Hn, Hm.
        pose proof (skip_value_length sep after).
        rewrite (IH m) by lia. reflexivity.
      * destruct s as [|c s]; [reflexivity|].
        cbn [String.length] in Hn, Hm. rewrite (IH m) by lia. reflexivity.
Qed.

(** The redaction, one step at a time. *)
Lemma redact_unfold (s : string) :
  redact fields redaction sep s =
  match find_field fields s with
  | Some (f, after) =>
      f ++ "=" ++ redaction ++ redact fields redaction sep (skip_value sep after)
  | None =>
      match s with
      | EmptyString => ""
      | String c s' => String c (redact fields redaction sep s')
      end
  end.
Proof.
  unfold redact. destruct s as [|c s].
  - cbn [String.length redact_upto]. now rewrite find_field_nil.
  - cbn [String.length redact_upto].
    destruct (find_field fields (String c s)) as [[f after]|] eqn:E;
      [|reflexivity].
    apply find_field_Some in E.
    assert (L : String.length (skip_value sep after) <= String.length s).
    { pose proof (skip_value_length sep after).
      apply (f_equal String.length) in E. rewrite !length_append in E.
      cbn [String.length] in E. lia. }
    now rewrite (redact_upto_fuel _ (String.length (skip_value sep after)) _ L (le_n _)).
Qed.

Lemma redact_copy (c : ascii) (s : string) :
  find_field fields (String c s) = None ->
  redact fields redaction sep (String c s) = String c (redact fields redaction sep s).
Proof. intros H. now rewrite redact_unfold, H. Qed.

(** Where no listed name followed by the equals sign begins, nothing
    changes. *)
Lemma redact_no_occurrence (s : string) :
  occurs fields s = false -> redact fields redaction sep s = s.
Proof.
  induction s as [|c s IH]; intros H; [reflexivity|].
  cbn [occurs] in H.
  destruct (find_field fields (String c s)) eqn:E; [discriminate|].
  rewrite (redact_copy _ _ E). now rewrite (IH H).
Qed.

End Redact.

(** ** Records *)

Lemma free_of_cons (c d : ascii) (s : string) :
  free_of c (String d s) = negb (Ascii.eqb c d) && free_of c s.
Proof. unfold free_of. rewrite mem_cons. apply negb_orb. Qed.

Lemma atom_cons (sep c : ascii) (s : string) :
  atom sep (String c s) = true ->
  Ascii.eqb c "=" = false /\ Ascii.eqb c sep = false /\ atom sep s = true.
Proof.
  unfold atom. rewrite !free_of_cons. intros H.
  apply andb_prop in H as [H1 H2].
  apply andb_prop in H1 as [H1 H1']. apply andb_prop in H2 as [H2 H2'].
  apply negb_true_iff in H1, H2.
  rewrite Ascii.eqb_sym in H1. rewrite Ascii.eqb_sym in H2.
  now rewrite H1, H2, H1', H2'.
Qed.

(** A name and a key without equals sign: the name followed by the sign
    begins the key followed by the sign only when they are the same. *)
Lemma strip_prefix_key (sep : ascii) (g k x : string) :
  atom sep g = true -> atom sep k = true ->
  strip_prefix (g ++ "=") (k ++ "=" ++ x) =
  if String.eqb g k then Some x else None.
Proof.
  revert k; induction g as [|c g IH]; intros k Hg Hk.
  - destruct k as [|d k]; [reflexivity|].
    apply atom_cons in Hk as (Hd & _ & _).
    cbn [append strip_prefix String.eqb]. rewrite Ascii.eqb_sym. now rewrite Hd.
  - apply atom_cons in Hg as (Hc & _ & Hg).
    destruct k as [|d k].
    + cbn [append strip_prefix String.eqb]. now rewrite Hc.
    + apply atom_cons in Hk as (_ & _ & Hk).
      cbn [append strip_prefix String.eqb].
      destruct (Ascii.eqb c d); [now apply IH | reflexivity].
Qed.

(** Inside a value, and at the separator that closes it, no name followed
    by the equals sign begins. *)
Lemma strip_prefix_value (sep : ascii) (g v x : string) :
  Ascii.eqb sep "=" = false ->
  atom sep g = true -> atom sep v = true ->
  strip_prefix (g ++ "=") (v ++ String sep x) = None.
Proof.
  intros Hsep. revert v; induction g as [|c g IH]; intros v Hg Hv.
  - destruct v as [|d v]; cbn [append strip_prefix].
    + rewrite Ascii.eqb_sym. now rewrite Hsep.
    + apply atom_cons in Hv as (Hd & _ & _). rewrite Ascii.eqb_sym. now rewrite Hd.
  - apply atom_cons in Hg as (_ & Hc & Hg).
    destruct v as [|d v]; cbn [append strip_prefix].
    + now rewrite Hc.
    + apply atom_cons in Hv as (_ & _ & Hv).
      destruct (Ascii.eqb c d); [now apply IH | reflexivity].
Qed.

Section Records.

Variables (fields : list string) (redaction : string) (sep : ascii).
Hypothesis sep_not_equals : Ascii.eqb sep "=" = false.
Hypothesis fields_atoms : forallb (atom sep) fields = true.

Lemma find_field_key (k x : string) :
  atom sep k = true ->
  find_field fields (k ++ "=" ++ x) =
  if existsb (fun f => String.eqb f k) fields then Some (k, x) else None.
Proof.
  intros Hk. clear sep_not_equals.
  induction fields as [|g gs IH]; [reflexivity|].
  cbn [forallb] in fields_atoms. apply andb_prop in fields_atoms as [Hg Hgs].
  cbn [find_field existsb]. rewrite (strip_prefix_key sep) by assumption.
  destruct (String.eqb_spec g k) as [->|]; [reflexivity|].
  cbn [orb]. now apply IH.
Qed.

Lemma find_field_value (v x : string) :
  atom sep v = true -> find_field fields (v ++ String sep x) = None.
Proof.
  intros Hv. induction fields as [|g gs IH]; [reflexivity|].
  cbn [forallb] in fields_atoms. apply andb_prop in fields_atoms as [Hg Hgs].
  cbn [find_field]. rewrite (strip_prefix_value sep) by assumption.
  now apply IH.
Qed.

Lemma redact_value (v x : string) :
  atom sep v = true ->
  redact fields redaction sep (v ++ String sep x) =
  v ++ String sep (redact fields redaction sep x).
Proof.
  induction v as [|c v IH]; intros Hv.
  - cbn [append]. apply redact_copy. now apply (find_field_value "").
  - cbn [append]. rewrite redact_copy by now apply (find_field_value (String c v)).
    apply atom_cons in Hv as (_ & _ & Hv). now rewrite IH.
Qed.

Lemma redact_separator (x : string) :
  redact fields redaction sep (String sep x) =
  String sep (redact fields redaction sep x).
Proof. exact (redact_value "" x eq_refl). Qed.

Lemma skip_value_atom (v x : string) :
  atom sep v = true -> skip_value sep (v ++ String sep x) = String sep x.
Proof.
  induction v as [|c v IH]; intros Hv; cbn [append skip_value].
  - now rewrite Ascii.eqb_refl.
  - apply atom_cons in Hv as (_ & Hc & Hv). rewrite Hc. now apply IH.
Qed.

Lemma ends_with_cons (f : string) (c : ascii) (k : string) :
  ends_with f (String c k) = String.eqb f (String c k) || ends_with f k.
Proof. reflexivity. Qed.

Lemma ends_with_nil (f : string) : ends_with f "" = String.eqb f "".
Proof. cbn [ends_with]. apply orb_false_r. Qed.

Lemma key_listed_cons (c : ascii) (k : string) :
  existsb (fun f => String.eqb f (String c k)) fields = false ->
  key_listed fields (String c k) = key_listed fields k.
Proof.
  unfold key_listed. clear. induction fields as [|g gs IH]; [reflexivity|].
  cbn [existsb]. intros H. apply orb_false_elim in H as [Hg Hgs].
  rewrite ends_with_cons, Hg. cbn [orb]. now rewrite (IH Hgs).
Qed.

Lemma key_listed_exact (k : string) :
  existsb (fun f => String.eqb f k) fields = true -> key_listed fields k = true.
Proof.
  unfold key_listed. clear. induction fields as [|g gs IH]; [discriminate|].
  cbn [existsb]. intros H. apply orb_prop in H as [H|H].
  - destruct k; [rewrite ends_with_nil | rewrite ends_with_cons]; now rewrite H.
  - rewrite (IH H). apply orb_true_r.
Qed.

Lemma key_listed_nil :
  existsb (fun f => String.eqb f "") fields = false -> key_listed fields "" = false.
Proof.
  unfold key_listed. clear. induction fields as [|g gs IH]; [reflexivity|].
  cbn [existsb]. intros H. apply orb_false_elim in H as [Hg Hgs].
  now rewrite ends_with_nil, Hg, (IH Hgs).
Qed.

(** A key, its value and what follows: the value is replaced when the
    key ends with a listed name. *)
Lemma redact_key (k v x : string) :
  atom sep k = true -> atom sep v = true ->
  redact fields redaction sep (k ++ "=" ++ v ++ String sep x) =
  k ++ "=" ++ (if key_listed fields k then redaction else v)
    ++ String sep (redact fields redaction sep x).
Proof.
  intros Hk Hv. induction k as [|c k IH].
  - pose proof (find_field_key "" (v ++ String sep x) Hk) as F.
    destruct (existsb (fun f => String.eqb f "") fields) eqn:E.
    + rewrite redact_unfold, F, (key_listed_exact _ E).
      rewrite skip_value_atom by assumption.
      now rewrite redact_separator.
    + rewrite (key_listed_nil E).
      change ("" ++ "=" ++ v ++ String sep x)
        with (String "=" (v ++ String sep x)) in F |- *.
      rewrite (redact_copy _ _ _ _ _ F). now rewrite redact_value.
  - pose proof (find_field_key (String c k) (v ++ String sep x) Hk) as F.
    destruct (existsb (fun f => String.eqb f (String c k)) fields) eqn:E.
    + rewrite redact_unfold, F, (key_listed_exact _ E).
      rewrite skip_value_atom by assumption.
      now rewrite redact_separator.
    + rewrite (key_listed_cons _ _ E).
      change (String c k ++ "=" ++ v ++ String sep x)
        with (String c (k ++ "=" ++ v ++ String sep x)) in F |- *.
      rewrite (redact_copy _ _ _ _ _ F).
      apply atom_cons in Hk as (_ & _ & Hk). now rewrite (IH Hk).
Qed.

(** One record, and what follows it. *)
Lemma redact_record_text (k v x : string) :
  atom sep k = true -> atom sep v = true ->
  redact fields redaction sep (record_text sep (k, v) ++ x) =
  record_text sep (redact_record fields redaction (k, v))
    ++ redact fields redaction sep x.
Proof.
  intros Hk Hv. unfold record_text, redact_record. cbn [fst snd].
  rewrite !append_assoc.
  change (String sep "" ++ x) with (String sep x).
  rewrite redact_key by assumption.
  destruct (key_listed fields k); cbn [fst snd];
    rewrite ?append_assoc; reflexivity.
Qed.

(** A line of well-formed records is redacted record by record. *)
Lemma redact_line (records : list (string * string)) :
  well_formed sep records = true ->
  redact fields redaction sep (line sep records) =
  line sep (map (redact_record fields redaction) records).
Proof.
  induction records as [|[k v] records IH]; intros H; [reflexivity|].
  cbn [well_formed forallb fst snd] in H.
  apply andb_prop in H as [Hkv H]. apply andb_prop in Hkv as [Hk Hv].
  cbn [line map]. rewrite redact_record_text by assumption.
  now rewrite (IH H).
Qed.

End Records.

(** ** Redacting twice *)

Lemma skip_value_head (sep : ascii) (s : string) :
  skip_value sep s = "" \/ exists t, skip_value sep s = String sep t.
Proof.
  induction s as [|c s IH]; cbn [skip_value]; [now left|].
  destruct (Ascii.eqb_spec c sep) as [->|]; [right; now exists s | exact IH].
Qed.

Lemma skip_value_free (sep : ascii) (r x : string) :
  free_of sep r = true -> skip_value sep (r ++ x) = skip_value sep x.
Proof.
  induction r as [|c r IH]; intros H; [reflexivity|].
  rewrite free_of_cons in H. apply andb_prop in H as [Hc Hr].
  apply negb_true_iff in Hc. rewrite Ascii.eqb_sym in Hc.
  cbn [append skip_value]. rewrite Hc. now apply IH.
Qed.

Section Idempotence.

Variables (fields : list string) (redaction : string) (sep : ascii).
Hypothesis sep_not_equals : Ascii.eqb sep "=" = false.
Hypothesis fields_atoms : forallb (atom sep) fields = true.
Hypothesis redaction_free : free_of sep redaction = true.

Local Abbreviation R := (redact fields redaction sep).

Lemma find_field_listed (s f after : string) :
  find_field fields s = Some (f, after) ->
  atom sep f = true /\ existsb (fun g => String.eqb g f) fields = true.
Proof.
  clear sep_not_equals redaction_free.
  induction fields as [|g gs IH]; cbn [find_field]; [discriminate|].
  cbn [forallb] in fields_atoms. apply andb_prop in fields_atoms as [Hg Hgs].
  destruct (strip_prefix (g ++ "=") s) as [a|].
  - intros H; inversion H; subst. split; [assumption|].
    cbn [existsb]. now rewrite String.eqb_refl.
  - intros H. destruct (IH Hgs H) as [Ha He]. split; [assumption|].
    cbn [existsb]. rewrite He. apply orb_true_r.
Qed.

(** Whether a name followed by the equals sign begins the text is the
    same before and after the redaction. *)
Lemma strip_prefix_redact (s g : string) :
  atom sep g = true ->
  strip_prefix (g ++ "=") (R s) = None <-> strip_prefix (g ++ "=") s = None.
Proof.
  revert g; induction s as [|c s IH]; intros g Hg; [reflexivity|].
  rewrite redact_unfold.
  destruct (find_field fields (String c s)) as [[f after]|] eqn:E.
  - destruct (find_field_listed _ _ _ E) as [Hf _].
    apply find_field_Some in E. rewrite E.
    rewrite !(strip_prefix_key sep) by assumption.
    destruct (String.eqb g f); split; congruence.
  - destruct g as [|d g]; cbn [append strip_prefix].
    + destruct (Ascii.eqb "=" c); split; congruence.
    + apply atom_cons in Hg as (_ & _ & Hg).
      destruct (Ascii.eqb d c); [now apply IH | reflexivity].
Qed.

Lemma find_field_redact_names (l : list string) (s : string) :
  forallb (atom sep) l = true ->
  find_field l s = None -> find_field l (R s) = None.
Proof.
  induction l as [|g gs IH]; intros HA; cbn [find_field]; [reflexivity|].
  cbn [forallb] in HA. apply andb_prop in HA as [Hg Hgs].
  destruct (strip_prefix (g ++ "=") s) eqn:E; [discriminate|].
  intros H. apply (strip_prefix_redact s g Hg) in E. rewrite E. now apply IH.
Qed.

Lemma find_field_redact_None (s : string) :
  find_field fields s = None -> find_field fields (R s) = None.
Proof. exact (find_field_redact_names fields s fields_atoms). Qed.

Lemma find_field_redact_Some (s f after : string) :
  find_field fields s = Some (f, after) ->
  find_field fields (R s) = Some (f, redaction ++ R (skip_value sep after)).
Proof.
  intros E. rewrite redact_unfold, E.
  destruct (find_field_listed _ _ _ E) as [Hf He].
  rewrite (find_field_key fields sep fields_atoms) by assumption.
  now rewrite He.
Qed.

(** After a value the redacted text is empty or begins with the separator. *)
Lemma skip_value_redact (a : string) :
  skip_value sep (R (skip_value sep a)) = R (skip_value sep a).
Proof.
  destruct (skip_value_head sep a) as [->|[t ->]]; [reflexivity|].
  rewrite (redact_separator fields redaction sep sep_not_equals fields_atoms).
  cbn [skip_value]. now rewrite Ascii.eqb_refl.
Qed.

Lemma redact_idempotent_upto (n : nat) (s : string) :
  String.length s <= n -> R (R s) = R s.
Proof.
  revert s; induction n as [|n IH]; intros s Hn.
  - destruct s; [reflexivity | cbn in Hn; lia].
  - destruct (find_field fields s) as [[f after]|] eqn:E.
    + pose proof (find_field_redact_Some _ _ _ E) as E'.
      assert (Es : R s = f ++ "=" ++ redaction ++ R (skip_value sep after)).
      { now rewrite redact_unfold, E. }
      assert (Ers : R (R s) =
                    f ++ "=" ++ redaction
                      ++ R (skip_value sep (redaction ++ R (skip_value sep after)))).
      { now rewrite (redact_unfold _ _ _ (redact fields redaction sep s)), E'. }
      rewrite Ers, Es.
      rewrite (skip_value_free _ _ _ redaction_free), skip_value_redact.
      rewrite IH; [reflexivity|].
      apply find_field_Some in E. subst s.
      rewrite !length_append in Hn. cbn [String.length] in Hn.
      pose proof (skip_value_length sep after). lia.
    + pose proof (find_field_redact_None _ E) as E'.
      destruct s as [|c s]; [reflexivity|].
      rewrite (redact_copy _ _ _ _ _ E) in E' |- *.
      rewrite (redact_copy _ _ _ _ _ E').
      rewrite IH; [reflexivity | cbn in Hn; lia].
Qed.

Lemma redact_idempotent (s : string) :
  redact fields redaction sep (redact fields redaction sep s) =
  redact fields redaction sep s.
Proof. exact (redact_idempotent_upto (String.length s) s (le_n _)). Qed.

End Idempotence.

(** ** [filter_datum] *)

Lemma alternatives_nonempty (fields : list string) :
  fields <> [] -> alternatives fields = fields.
Proof. destruct fields; [contradiction | reflexivity]. Qed.

(** [filter_datum] on a list of literal names that is not empty. *)
Lemma filter_datum_redact (fields : list string) (redaction message : string)
    (sep : ascii) :
  fields <> [] ->
  forallb literal_name fields = true ->
  no_backslash redaction = true ->
  sep <> "\"%char ->
  filter_datum fields redaction message (String sep "") =
  Ok (redact fields redaction sep message).
Proof.
  intros Hne Hf Hr Hsep.
  rewrite (filter_datum_alternatives _ _ _ _ Hf Hr Hsep).
  now rewrite (alternatives_nonempty _ Hne).
Qed.

Lemma forallb_field_name (sep : ascii) (fields : list string) :
  forallb (field_name sep) fields = true ->
  forallb literal_name fields = true /\ forallb (atom sep) fields = true.
Proof.
  induction fields as [|f fields IH]; cbn [forallb]; [now split|].
  intros H. apply andb_prop in H as [Hf H]. apply andb_prop in Hf as [Hl Ha].
  destruct (IH H) as [IH1 IH2]. now rewrite Hl, Ha, IH1, IH2.
Qed.

Lemma eqb_neq_false (c d : ascii) : c <> d -> Ascii.eqb c d = false.
Proof. intros H. now destruct (Ascii.eqb_spec c d). Qed.

(** A letter or a digit is no special character, no equals sign and no
    semicolon. *)
Lemma is_alnum_plain (c : ascii) :
  is_alnum c = true ->
  re.is_special c = false /\ Ascii.eqb c "=" = false /\ Ascii.eqb c ";" = false.
Proof.
  intros H.
  assert (N : forall d, is_alnum d = false -> Ascii.eqb c d = false).
  { intros d Hd. apply eqb_neq_false. intros ->. congruence. }
  unfold re.is_special, re.SPECIAL_CHARS. rewrite !mem_cons, mem_nil.
  rewrite !N by reflexivity. now repeat split.
Qed.

Lemma alnum_field_name (f : string) :
  alnum_name f = true -> field_name ";" f = true.
Proof.
  unfold alnum_name, field_name, literal_name, atom, free_of, mem.
  induction f as [|c f IH]; [reflexivity|].
  cbn [list_ascii_of_string forallb existsb]. intros H.
  apply andb_prop in H as [Hc Hf].
  destruct (is_alnum_plain _ Hc) as (Hs & He & Hsc).
  apply IH in Hf. apply andb_prop in Hf as [Hl Ha].
  apply andb_prop in Ha as [Ha1 Ha2].
  rewrite Hs, Hl. rewrite (Ascii.eqb_sym "=" c), (Ascii.eqb_sym ";" c).
  rewrite He, Hsc. cbn [negb andb orb]. now rewrite Ha1, Ha2.
Qed.

Lemma forallb_alnum_field_name (fields : list string) :
  forallb alnum_name fields = true -> forallb (field_name ";") fields = true.
Proof.
  induction fields as [|f fields IH]; cbn [forallb]; [reflexivity|].
  intros H. apply andb_prop in H as [Hf H].
  now rewrite (alnum_field_name _ Hf), (IH H).
Qed.

(** ** The claims about [filter_datum] *)

(** C2: with an empty list of fields the names join to the empty string,
    so the pattern is the one of the list that holds the empty name: the
    value after every equals sign is redacted.  On the message
    "name=Bob;" the result is "name=***;", not the message. *)
Theorem filter_datum_empty_fields :
  patterns.extract [] ";" = "(?P<field>)=[^;]*"
  /\ (forall redaction message separator,
        filter_datum [] redaction message separator =
        filter_datum [""] redaction message separator)
  /\ filter_datum [] "***" "name=Bob;" ";" = Ok "name=***;".
Proof.
  split; [reflexivity|]. split; [reflexivity|]. vm_compute. reflexivity.
Qed.


(** C4, counterexample: a backslash in the redaction is read by the
    template, and a backslash as separator by the pattern.  The token
    made of a backslash and the digit 1 stands for the field name, a
    backslash before a letter that names no escape does not compile, and
    the separator backslash leaves the character set open.  And an
    occurrence inside the value of an earlier one is replaced with that
    value, its name and equals sign with it. *)
Lemma filter_datum_backslash :
  filter_datum ["password"] "\1" "password=secret123;" ";" = Ok "password=password;"
  /\ filter_datum ["password"] "\d" "password=secret123;" ";" = Raise re_error
  /\ filter_datum ["password"] "***" "password=secret123;" "\" = Raise re_error
  /\ filter_datum ["a"; "b"] "***" "a=b=1;" ";" = Ok "a=***;".
Proof. repeat split; vm_compute; reflexivity. Qed.

(** C4, amended: for a list of literal names that is not empty, a
    redaction without backslash and a separator of one character other
    than the backslash, [filter_datum] is the redaction of the
    specification: from left to right, wherever a listed name followed by
    the equals sign begins outside an earlier match, the name and the sign
    are kept and the value, up to the next separator or the end, is
    replaced by the redaction.  The two examples of the claim hold. *)
Theorem filter_datum_redacts :
  (forall (fields : list string) (redaction message : string) (sep : ascii),
     fields <> [] ->
     forallb literal_name fields = true ->
     no_backslash redaction = true ->
     sep <> "\"%char ->
     filter_datum fields redaction message (String sep "") =
     Ok (redact fields redaction sep message))
  /\ filter_datum ["password"] "***" "password=secret123;" ";" = Ok "password=***;"
  /\ filter_datum ["name"; "email"] "xxx" "name=Bob;email=b@x.com;age=5;" ";" =
     Ok "name=xxx;email=xxx;age=5;".
Proof.
  split; [exact filter_datum_redact|].
  split; vm_compute; reflexivity.
Qed.

(** C4, witness. *)
Lemma filter_datum_redacts_witness :
  redact PII_FIELDS "***" ";" "name=Bob; ssn=123-45-6789; ip=1.2.3.4;" =
    "name=***; ssn=***; ip=1.2.3.4;"
  /\ filter_datum PII_FIELDS "***" "name=Bob; ssn=123-45-6789; ip=1.2.3.4;" ";" =
     Ok (redact PII_FIELDS "***" ";" "name=Bob; ssn=123-45-6789; ip=1.2.3.4;").
Proof.
  split; [reflexivity|].
  apply (proj1 filter_datum_redacts PII_FIELDS "***"
           "name=Bob; ssn=123-45-6789; ip=1.2.3.4;" ";"%char);
    [discriminate | reflexivity | reflexivity | discriminate].
Defined.

(** C9: the names go into the pattern as they are.  The name made of an
    opening parenthesis leaves a group open, and the pattern does not
    compile; the name "a|b" is read as two alternatives, so the value of
    the key "a" is redacted, which it is not when the name is escaped or
    read as literal text. *)
Theorem field_names_not_escaped :
  (forall fields sep,
     patterns.extract fields sep =
     "(?P<field>" ++ String.concat "|" fields ++ ")=[^" ++ sep ++ "]*")
  /\ (forall redaction message,
        filter_datum ["("] redaction message ";" = Raise re_error)
  /\ filter_datum ["a|b"] "***" "a=1;" ";" = Ok "a=***;"
  /\ filter_datum_literal ["a|b"] "***" "a=1;" ";" = Ok "a=1;"
  /\ redact ["a|b"] "***" ";" "a=1;" = "a=1;".
Proof.
  split; [reflexivity|]. split.
  - intros redaction message. unfold filter_datum, re.sub.
    replace (re.compile (patterns.extract ["("] ";"))
      with (Raise re_error : outcome re.Pattern) by (vm_compute; reflexivity).
    reflexivity.
  - repeat split; vm_compute; reflexivity.
Qed.

(** C10: with the redaction "***" and the separator ";" of the formatter,
    redacting a redacted message changes nothing, for every list of
    alphanumeric names that is not empty. *)
Theorem filter_datum_idempotent :
  forall (fields : list string) (message : string),
    fields <> [] ->
    forallb alnum_name fields = true ->
    exists out : string,
      filter_datum fields "***" message ";" = Ok out
      /\ filter_datum fields "***" out ";" = Ok out.
Proof.
  intros fields message Hne Hf.
  apply forallb_alnum_field_name in Hf.
  destruct (forallb_field_name _ _ Hf) as [Hl Ha].
  exists (redact fields "***" ";" message).
  assert (Hsep : ";"%char <> "\"%char) by discriminate.
  rewrite !(filter_datum_redact fields "***" _ ";" Hne Hl eq_refl Hsep).
  split; [reflexivity|].
  now rewrite (redact_idempotent fields "***" ";" eq_refl Ha eq_refl).
Qed.

(** C10, witness: the fields of the logger on one of its lines. *)
Lemma filter_datum_idempotent_witness :
  exists out : string,
    filter_datum PII_FIELDS "***" "name=Bob; email=b@x.com; ip=1.2.3.4;" ";" = Ok out
    /\ filter_datum PII_FIELDS "***" out ";" = Ok out.
Proof.
  apply (filter_datum_idempotent PII_FIELDS "name=Bob; email=b@x.com; ip=1.2.3.4;");
    [discriminate | reflexivity].
Defined.

(** ** The formatter *)

Lemma percent_format_append (record : logging.LogRecord) (st : logging.fstate)
    (p rest : string) :
  logging.percent_format record st (p ++ rest) =
  (r <- format_run record st p ;;
   out <- logging.percent_format record (snd r) rest ;; Ok (fst r ++ out)).
Proof.
  revert st; induction p as [|c p IH]; intros st.
  - cbn [append format_run bind fst snd].
    destruct (logging.percent_format record st rest); reflexivity.
  - cbn [append logging.percent_format format_run].
    destruct (logging.format_step record st c) as [[o st']| |]; try reflexivity.
    cbn [bind fst snd]. rewrite IH.
    destruct (format_run record st' p) as [[o' st'']| |]; try reflexivity.
    cbn [bind fst snd].
    destruct (logging.percent_format record st'' rest) as [o''| |]; try reflexivity.
    cbn [bind]. now rewrite append_assoc.
Qed.

Lemma format_run_text (record : logging.LogRecord) (s : string) :
  free_of "%" s = true ->
  format_run record logging.FNormal s = Ok (s, logging.FNormal).
Proof.
  induction s as [|c s IH]; intros H; [reflexivity|].
  rewrite free_of_cons in H. apply andb_prop in H as [Hc Hs].
  apply negb_true_iff in Hc. rewrite Ascii.eqb_sym in Hc.
  cbn [format_run logging.format_step]. rewrite Hc. cbn [bind fst snd].
  now rewrite (IH Hs).
Qed.

Lemma format_run_name (record : logging.LogRecord) :
  format_run record logging.FNormal "%(name)s" =
  Ok (logging.name record, logging.FNormal).
Proof.
  transitivity (Ok (logging.name record ++ "", logging.FNormal) : outcome (string * logging.fstate));
    [vm_compute; reflexivity | now rewrite append_nil_r].
Qed.

Lemma format_run_levelname (record : logging.LogRecord) :
  format_run record logging.FNormal "%(levelname)s" =
  Ok (logging.levelname record, logging.FNormal).
Proof.
  transitivity (Ok (logging.levelname record ++ "", logging.FNormal) : outcome (string * logging.fstate));
    [vm_compute; reflexivity | now rewrite append_nil_r].
Qed.

Lemma format_run_asctime (record : logging.LogRecord) :
  format_run record logging.FNormal "%(asctime)-15s" =
  Ok (logging.ljust 15 (logging.asctime record), logging.FNormal).
Proof.
  transitivity (Ok (logging.ljust 15 (logging.asctime record) ++ "", logging.FNormal)
                : outcome (string * logging.fstate));
    [vm_compute; reflexivity | now rewrite append_nil_r].
Qed.

Lemma format_run_message (record : logging.LogRecord) :
  format_run record logging.FNormal "%(message)s" =
  Ok (logging.message record, logging.FNormal).
Proof.
  transitivity (Ok (logging.message record ++ "", logging.FNormal) : outcome (string * logging.fstate));
    [vm_compute; reflexivity | now rewrite append_nil_r].
Qed.

(** The template of the formatter on a record. *)
Lemma Formatter_format_rendered (record : logging.LogRecord) :
  logging.Formatter.format RedactingFormatter.FORMAT record = Ok (rendered record).
Proof.
  unfold logging.Formatter.format, rendered.
  change RedactingFormatter.FORMAT
    with ("[HOLBERTON] " ++ "%(name)s" ++ " " ++ "%(levelname)s" ++ " "
          ++ "%(asctime)-15s" ++ ": " ++ "%(message)s" ++ "").
  rewrite percent_format_append, format_run_text by reflexivity.
  cbn [bind fst snd].
  rewrite percent_format_append, format_run_name. cbn [bind fst snd].
  rewrite percent_format_append, format_run_text by reflexivity.
  cbn [bind fst snd].
  rewrite percent_format_append, format_run_levelname. cbn [bind fst snd].
  rewrite percent_format_append, format_run_text by reflexivity.
  cbn [bind fst snd].
  rewrite percent_format_append, format_run_asctime. cbn [bind fst snd].
  rewrite percent_format_append, format_run_text by reflexivity.
  cbn [bind fst snd].
  rewrite percent_format_append, format_run_message. cbn [bind fst snd].
  cbn [logging.percent_format bind]. now rewrite append_nil_r.
Qed.

(** C6: [format] renders the record through the template, then redacts
    the rendered text with the fields of the formatter, the redaction
    "***" and the separator ";". *)
Theorem RedactingFormatter_format_redacts_rendered :
  forall (self : RedactingFormatter.t) (record : logging.LogRecord),
    logging.Formatter.format RedactingFormatter.FORMAT record = Ok (rendered record)
    /\ RedactingFormatter.format self record =
       filter_datum (RedactingFormatter.fields self) "***" (rendered record) ";".
Proof.
  intros self record. split; [apply Formatter_format_rendered|].
  unfold RedactingFormatter.format. now rewrite Formatter_format_rendered.
Qed.

(** ** The [bcrypt] encoding *)

Lemma byte_of_to_nat (x : byte) : byte_of (Byte.to_nat x) = x.
Proof. unfold byte_of. now rewrite Byte.of_to_nat. Qed.

Lemma bytes_eqb_refl (x : bytes) : bytes_eqb x x = true.
Proof.
  induction x as [|c x IH]; [reflexivity|].
  cbn [bytes_eqb]. now rewrite (Byte.byte_dec_lb (eq_refl c)), IH.
Qed.

Lemma bytes_eqb_eq (x y : bytes) : bytes_eqb x y = true -> x = y.
Proof.
  revert y; induction x as [|c x IH]; intros [|d y] H; try discriminate;
    [reflexivity|].
  cbn [bytes_eqb] in H. apply andb_prop in H as [Hc Hx].
  apply Byte.byte_dec_bl in Hc. subst d. now rewrite (IH _ Hx).
Qed.

(** Every character of the alphabet stands for its own index. *)
Lemma CHAR64_char64_of (n : nat) :
  n < 64 -> bcrypt.CHAR64 (bcrypt.char64_of n) = Some n.
Proof.
  intros H.
  do 64 (destruct n as [|n]; [vm_compute; reflexivity|]). lia.
Qed.

Lemma sextets (n1 n2 n3 : nat) :
  n1 <= 255 -> n2 <= 255 -> n3 <= 255 ->
  n1 / 4 < 64 /\ n1 mod 4 * 16 + n2 / 16 < 64
  /\ n2 mod 16 * 4 + n3 / 64 < 64 /\ n3 mod 64 < 64
  /\ n1 mod 4 * 16 < 64 /\ n2 mod 16 * 4 < 64.
Proof.
  intros H1 H2 H3.
  pose proof (Nat.div_mod_eq n1 4). pose proof (Nat.mod_upper_bound n1 4).
  pose proof (Nat.div_mod_eq n2 16). pose proof (Nat.mod_upper_bound n2 16).
  pose proof (Nat.div_mod_eq n3 64). pose proof (Nat.mod_upper_bound n3 64).
  lia.
Qed.

Lemma octets (n1 n2 n3 : nat) :
  n1 <= 255 -> n2 <= 255 -> n3 <= 255 ->
  n1 / 4 * 4 + (n1 mod 4 * 16 + n2 / 16) / 16 = n1
  /\ (n1 mod 4 * 16 + n2 / 16) mod 16 * 16 + (n2 mod 16 * 4 + n3 / 64) / 4 = n2
  /\ (n2 mod 16 * 4 + n3 / 64) mod 4 * 64 + n3 mod 64 = n3.
Proof.
  intros H1 H2 H3.
  pose proof (Nat.div_mod_eq n1 4). pose proof (Nat.mod_upper_bound n1 4).
  pose proof (Nat.div_mod_eq n2 16). pose proof (Nat.mod_upper_bound n2 16).
  pose proof (Nat.div_mod_eq n3 64). pose proof (Nat.mod_upper_bound n3 64).
  assert (A : (n1 mod 4 * 16 + n2 / 16) / 16 = n1 mod 4
              /\ (n1 mod 4 * 16 + n2 / 16) mod 16 = n2 / 16).
  { assert (n2 / 16 < 16) by lia.
    split; [symmetry; apply (Nat.div_unique _ 16 _ (n2 / 16)); lia
           | symmetry; apply (Nat.mod_unique _ 16 (n1 mod 4)); lia]. }
  assert (B : (n2 mod 16 * 4 + n3 / 64) / 4 = n2 mod 16
              /\ (n2 mod 16 * 4 + n3 / 64) mod 4 = n3 / 64).
  { assert (n3 / 64 < 4) by lia.
    split; [symmetry; apply (Nat.div_unique _ 4 _ (n3 / 64)); lia
           | symmetry; apply (Nat.mod_unique _ 4 (n2 mod 16)); lia]. }
  destruct A as [A1 A2], B as [B1 B2]. rewrite A1, A2, B1, B2. lia.
Qed.

(** Decoding reads back what was encoded, whatever follows it. *)
Lemma decode_encode_base64 (n : nat) :
  forall (data rest : bytes),
    List.length data <= n ->
    bcrypt.decode_base64 (List.length data) (bcrypt.encode_base64 data ++ rest)%list =
    Some data.
Proof.
  induction n as [|n IH]; intros data rest Hn.
  - destruct data; [reflexivity | cbn in Hn; lia].
  - destruct data as [|x1 [|x2 [|x3 data]]].
    + reflexivity.
    + pose proof (Byte.to_nat_bounded x1) as B1.
      destruct (sextets (Byte.to_nat x1) 0 0 B1) as (S1 & _ & _ & _ & S2 & _);
        try lia.
      destruct (octets (Byte.to_nat x1) 0 0 B1) as (O1 & _ & _); try lia.
      cbn [List.length bcrypt.encode_base64 app bcrypt.decode_base64].
      rewrite !CHAR64_char64_of by assumption.
      change (0 / 16) with 0 in O1. rewrite Nat.add_0_r in O1.
      now rewrite O1, byte_of_to_nat.
    + pose proof (Byte.to_nat_bounded x1) as B1.
      pose proof (Byte.to_nat_bounded x2) as B2.
      destruct (sextets (Byte.to_nat x1) (Byte.to_nat x2) 0 B1 B2)
        as (S1 & S2 & _ & _ & _ & S3); try lia.
      destruct (octets (Byte.to_nat x1) (Byte.to_nat x2) 0 B1 B2)
        as (O1 & O2 & _); try lia.
      cbn [List.length bcrypt.encode_base64 app bcrypt.decode_base64].
      rewrite !CHAR64_char64_of by assumption.
      change (0 / 64) with 0 in O2. rewrite Nat.add_0_r in O2.
      now rewrite O1, O2, !byte_of_to_nat.
    + pose proof (Byte.to_nat_bounded x1) as B1.
      pose proof (Byte.to_nat_bounded x2) as B2.
      pose proof (Byte.to_nat_bounded x3) as B3.
      destruct (sextets _ _ _ B1 B2 B3) as (S1 & S2 & S3 & S4 & _ & _).
      destruct (octets _ _ _ B1 B2 B3) as (O1 & O2 & O3).
      cbn [List.length bcrypt.encode_base64 app bcrypt.decode_base64].
      rewrite !CHAR64_char64_of by assumption.
      rewrite O1, O2, O3, !byte_of_to_nat.
      rewrite IH by (cbn in Hn; lia). reflexivity.
Qed.

(** ** The characters of a hash *)

Lemma encode_base64_length_upto (n : nat) :
  forall data : bytes,
    List.length data <= n ->
    List.length (bcrypt.encode_base64 data) = (4 * List.length data + 2) / 3.
Proof.
  induction n as [|n IH]; intros data Hn.
  - destruct data; [reflexivity | cbn in Hn; lia].
  - destruct data as [|x1 [|x2 [|x3 data]]]; try reflexivity.
    cbn [bcrypt.encode_base64 List.length].
    rewrite IH by (cbn in Hn; lia).
    replace (4 * S (S (S (List.length data))) + 2)
      with ((4 * List.length data + 2) + 4 * 3) by lia.
    rewrite Nat.div_add by discriminate. lia.
Qed.

Lemma encode_base64_length (data : bytes) :
  List.length (bcrypt.encode_base64 data) = (4 * List.length data + 2) / 3.
Proof. exact (encode_base64_length_upto _ data (le_n _)). Qed.

Lemma in_alphabet_char64_of (n : nat) :
  n < 64 -> bcrypt.in_alphabet (bcrypt.char64_of n) = true.
Proof. intros H. unfold bcrypt.in_alphabet. now rewrite (CHAR64_char64_of _ H). Qed.

Lemma encode_base64_alphabet_upto (n : nat) :
  forall data : bytes,
    List.length data <= n ->
    forallb bcrypt.in_alphabet (bcrypt.encode_base64 data) = true.
Proof.
  induction n as [|n IH]; intros data Hn.
  - destruct data; [reflexivity | cbn in Hn; lia].
  - destruct data as [|x1 [|x2 [|x3 data]]]; [reflexivity| | |].
    + pose proof (Byte.to_nat_bounded x1) as B1.
      destruct (sextets (Byte.to_nat x1) 0 0) as (S1 & _ & _ & _ & S2 & _); try lia.
      cbn [bcrypt.encode_base64 forallb].
      now rewrite !in_alphabet_char64_of.
    + pose proof (Byte.to_nat_bounded x1) as B1.
      pose proof (Byte.to_nat_bounded x2) as B2.
      destruct (sextets (Byte.to_nat x1) (Byte.to_nat x2) 0)
        as (S1 & S2 & _ & _ & _ & S3); try lia.
      cbn [bcrypt.encode_base64 forallb].
      now rewrite !in_alphabet_char64_of.
    + pose proof (Byte.to_nat_bounded x1) as B1.
      pose proof (Byte.to_nat_bounded x2) as B2.
      pose proof (Byte.to_nat_bounded x3) as B3.
      destruct (sextets _ _ _ B1 B2 B3) as (S1 & S2 & S3 & S4 & _ & _).
      cbn [bcrypt.encode_base64 forallb].
      rewrite !in_alphabet_char64_of by assumption.
      rewrite IH by (cbn in Hn; lia). reflexivity.
Qed.

Lemma encode_base64_alphabet (data : bytes) :
  forallb bcrypt.in_alphabet (bcrypt.encode_base64 data) = true.
Proof. exact (encode_base64_alphabet_upto _ data (le_n _)). Qed.

(** Encoding loses nothing. *)
Lemma encode_base64_inj (x y : bytes) :
  bcrypt.encode_base64 x = bcrypt.encode_base64 y -> x = y.
Proof.
  intros H.
  assert (L : List.length x = List.length y).
  { apply (f_equal (@List.length byte)) in H.
    rewrite !encode_base64_length in H.
    pose proof (Nat.div_mod_eq (4 * List.length x + 2) 3).
    pose proof (Nat.div_mod_eq (4 * List.length y + 2) 3).
    pose proof (Nat.mod_upper_bound (4 * List.length x + 2) 3).
    pose proof (Nat.mod_upper_bound (4 * List.length y + 2) 3).
    lia. }
  pose proof (decode_encode_base64 _ x [] (le_n _)) as Dx.
  pose proof (decode_encode_base64 _ y [] (le_n _)) as Dy.
  rewrite app_nil_r in Dx, Dy. rewrite H, L, Dy in Dx. now inversion Dx.
Qed.

Lemma bytes_eqb_iff (x y x' y' : bytes) :
  (x = y <-> x' = y') -> bytes_eqb x y = bytes_eqb x' y'.
Proof.
  intros [H1 H2].
  destruct (bytes_eqb x y) eqn:E, (bytes_eqb x' y') eqn:E'; try reflexivity.
  - apply bytes_eqb_eq in E. rewrite (H1 E), bytes_eqb_refl in E'. discriminate.
  - apply bytes_eqb_eq in E'. rewrite (H2 E'), bytes_eqb_refl in E. discriminate.
Qed.

Lemma bytes_eqb_app (a x y : bytes) :
  bytes_eqb (a ++ x)%list (a ++ y)%list = bytes_eqb x y.
Proof.
  apply bytes_eqb_iff. split; [apply app_inv_head | now intros ->].
Qed.

Lemma firstn_exact {A : Type} (l r : list A) (n : nat) :
  List.length l = n -> firstn n (l ++ r)%list = l.
Proof.
  revert n; induction l as [|x l IH]; intros n H; subst n; cbn; [reflexivity|].
  now rewrite IH.
Qed.

Lemma skipn_exact {A : Type} (l r : list A) (n : nat) :
  List.length l = n -> skipn n (l ++ r)%list = r.
Proof.
  revert n; induction l as [|x l IH]; intros n H; subst n; cbn; [reflexivity|].
  now rewrite IH.
Qed.

(** ** Reading a hash *)

Lemma urandom_length (n : nat) (e : entropy) : List.length (fst (urandom n e)) = n.
Proof. unfold urandom. cbn [fst]. now rewrite length_map, length_seq. Qed.

Lemma drawn_salt_length (e : entropy) : List.length (drawn_salt e) = 16.
Proof. apply urandom_length. Qed.

Lemma known_minor_cases (minor : byte) :
  known_minor minor = true -> minor = "a"%byte \/ minor = "b"%byte \/ minor = "y"%byte.
Proof.
  unfold known_minor. intros H.
  apply orb_prop in H as [H|H]; [apply orb_prop in H as [H|H]|];
    apply Byte.byte_dec_bl in H; auto.
Qed.

(** The header of a hash, read back. *)
Lemma parse_salt_header (minor : byte) (logr : nat) (x : bytes) :
  known_minor minor = true ->
  4 <= logr <= 31 ->
  bcrypt.parse_salt (bcrypt.header minor logr ++ x)%list =
  match bcrypt.decode_base64 16 x with
  | Some csalt =>
      if bytes_eqb (bcrypt.encode_base64 csalt) (firstn 22 x)
         && forallb bcrypt.in_alphabet (skipn 22 x)
      then Some (minor, logr, csalt)
      else None
  | None => None
  end.
Proof.
  intros Hm Hl.
  destruct (known_minor_cases _ Hm) as [->|[->| ->]];
    do 32 (destruct logr as [|logr]; [first [lia | reflexivity]|]); lia.
Qed.

(** A hash of the shape that every release reads: its header, the
    encoding of the 16 bytes of a salt, and characters of the alphabet. *)
Lemma parse_salt_hash (minor : byte) (logr : nat) (csalt rest : bytes) :
  known_minor minor = true ->
  4 <= logr <= 31 ->
  List.length csalt = 16 ->
  forallb bcrypt.in_alphabet rest = true ->
  bcrypt.parse_salt
    (bcrypt.header minor logr ++ bcrypt.encode_base64 csalt ++ rest)%list =
  Some (minor, logr, csalt).
Proof.
  intros Hm Hl Hs Hr. rewrite (parse_salt_header _ _ _ Hm Hl).
  assert (L : List.length (bcrypt.encode_base64 csalt) = 22).
  { now rewrite encode_base64_length, Hs. }
  rewrite <- Hs at 1. rewrite (decode_encode_base64 16) by lia.
  rewrite (firstn_exact _ _ _ L), (skipn_exact _ _ _ L).
  now rewrite bytes_eqb_refl, Hr.
Qed.

(** A text without dollar sign is no salt for any release. *)
Lemma parse_salt_no_dollar (salt : bytes) :
  existsb (Byte.eqb "$") salt = false -> bcrypt.parse_salt salt = None.
Proof.
  intros H. destruct salt as [|d1 [|v [|minor [|d2 [|r1 [|r0 [|d3 rest]]]]]]];
    try reflexivity.
  cbn [existsb] in H. apply orb_false_elim in H as [H _].
  unfold bcrypt.parse_salt.
  destruct (Byte.eqb d1 "$") eqn:E; [|reflexivity].
  apply Byte.byte_dec_bl in E. subst d1. discriminate H.
Qed.

Section Hashing.

Variable installed : bcrypt.release.
Variable eksblowfish : nat -> bytes -> bytes -> bytes.

Lemma hashpw_hash (minor : byte) (logr : nat) (csalt rest data : bytes) :
  bcrypt.rejects installed data = false ->
  known_minor minor = true ->
  4 <= logr <= 31 ->
  List.length csalt = 16 ->
  forallb bcrypt.in_alphabet rest = true ->
  bcrypt.hashpw installed eksblowfish data
    (bcrypt.header minor logr ++ bcrypt.encode_base64 csalt ++ rest)%list =
  Ok (hash_of eksblowfish minor logr csalt data).
Proof.
  intros Hd Hm Hl Hs Hr. unfold bcrypt.hashpw.
  now rewrite Hd, (parse_salt_hash _ _ _ _ Hm Hl Hs Hr).
Qed.

Lemma hashpw_rejected (data salt : bytes) :
  bcrypt.rejects installed data = true ->
  bcrypt.hashpw installed eksblowfish data salt = Raise ValueError.
Proof. intros H. unfold bcrypt.hashpw. now rewrite H. Qed.

Lemma hashpw_no_dollar (data salt : bytes) :
  bcrypt.rejects installed data = false ->
  existsb (Byte.eqb "$") salt = false ->
  bcrypt.hashpw installed eksblowfish data salt = Raise ValueError.
Proof.
  intros Hd H. unfold bcrypt.hashpw.
  now rewrite Hd, (parse_salt_no_dollar _ H), H.
Qed.

Lemma is_valid_encoded (hashed : bytes) (password : text) (data : bytes) :
  encode_utf8 password = Ok data ->
  is_valid installed eksblowfish hashed password =
  bcrypt.checkpw installed eksblowfish data hashed.
Proof. intros H. unfold is_valid. now rewrite H. Qed.

(** [is_valid] on a hash that every release reads. *)
Lemma is_valid_hash (minor : byte) (logr : nat) (csalt rest : bytes)
    (password : text) (data : bytes) :
  encode_utf8 password = Ok data ->
  bcrypt.rejects installed data = false ->
  known_minor minor = true ->
  4 <= logr <= 31 ->
  List.length csalt = 16 ->
  forallb bcrypt.in_alphabet rest = true ->
  is_valid installed eksblowfish
    (bcrypt.header minor logr ++ bcrypt.encode_base64 csalt ++ rest)%list password =
  Ok (bytes_eqb (bcrypt.encode_base64 (digest eksblowfish logr csalt data)) rest).
Proof.
  intros He Hd Hm Hl Hs Hr.
  rewrite (is_valid_encoded _ _ _ He). unfold bcrypt.checkpw.
  rewrite (hashpw_hash _ _ _ _ _ Hd Hm Hl Hs Hr). cbn [bind]. f_equal.
  unfold hash_of. now rewrite !bytes_eqb_app.
Qed.

Lemma hash_password_eq (password : text) (data : bytes) (e : entropy) :
  encode_utf8 password = Ok data ->
  bcrypt.rejects installed data = false ->
  hash_password installed eksblowfish password e =
  (Ok (hash_with eksblowfish (drawn_salt e) data),
   snd (urandom bcrypt.BCRYPT_MAXSALT e)).
Proof.
  intros He Hd. unfold hash_password, bcrypt.gensalt, drawn_salt. rewrite He.
  destruct (urandom bcrypt.BCRYPT_MAXSALT e) as [salt e'] eqn:E.
  cbn [fst snd]. f_equal.
  rewrite <- (app_nil_r (bcrypt.encode_base64 salt)).
  apply hashpw_hash; try reflexivity; try assumption; [lia|].
  change salt with (fst (salt, e')). rewrite <- E. apply urandom_length.
Qed.

(** The hash of a password is valid for a candidate exactly when the two
    digests under its salt are the same. *)
Lemma is_valid_hash_with (csalt data : bytes) (candidate : text) (cdata : bytes) :
  List.length csalt = 16 ->
  encode_utf8 candidate = Ok cdata ->
  bcrypt.rejects installed cdata = false ->
  is_valid installed eksblowfish (hash_with eksblowfish csalt data) candidate =
  Ok (bytes_eqb (digest eksblowfish 12 csalt cdata) (digest eksblowfish 12 csalt data)).
Proof.
  intros Hs He Hd. unfold hash_with, hash_of.
  rewrite (is_valid_hash "b" 12 csalt _ candidate cdata He Hd eq_refl);
    [|lia|assumption|apply encode_base64_alphabet].
  f_equal. apply bytes_eqb_iff. split; [apply encode_base64_inj | now intros ->].
Qed.

Lemma hash_with_salt (csalt csalt' data data' : bytes) :
  List.length csalt = 16 -> List.length csalt' = 16 ->
  hash_with eksblowfish csalt data = hash_with eksblowfish csalt' data' ->
  csalt = csalt'.
Proof.
  intros H H' E. apply (f_equal bcrypt.parse_salt) in E.
  unfold hash_with, hash_of in E.
  rewrite !parse_salt_hash in E;
    try reflexivity; try assumption; try apply encode_base64_alphabet; try lia.
  now inversion E.
Qed.

End Hashing.

(** ** The claims about [hash_password] and [is_valid] *)

(** C1, counterexample: [is_valid] has no handler.  On a text that is no
    hash [bcrypt.checkpw] raises [ValueError] in every release, and on a
    password with a lone surrogate [str.encode] raises
    [UnicodeEncodeError], also when the hash is one that [hash_password]
    has returned. *)
Lemma is_valid_raises_on_malformed_hash :
  existsb (Byte.eqb "$") (bytes_lit "not-a-bcrypt-hash") = false
  /\ (forall (installed : bcrypt.release)
             (eksblowfish : nat -> bytes -> bytes -> bytes),
        is_valid installed eksblowfish (bytes_lit "not-a-bcrypt-hash")
                 (text_of "secret") =
        Raise ValueError)
  /\ (forall (installed : bcrypt.release)
             (eksblowfish : nat -> bytes -> bytes -> bytes) (hashed : bytes),
        is_valid installed eksblowfish hashed [55296%N] =
        Raise UnicodeEncodeError).
Proof.
  split; [reflexivity|]. split.
  - intros installed eksblowfish. destruct installed; reflexivity.
  - intros installed eksblowfish hashed. reflexivity.
Qed.

(** C1, amended: what [is_valid] does is what [str.encode] and
    [bcrypt.checkpw] do.  A password that cannot be encoded raises the
    error of [str.encode]; a password that the release refuses raises
    [ValueError]; a hash without dollar sign raises [ValueError].  On a
    hash of the shape that every release reads (the header with the
    version 2a, 2b or 2y and a cost from 04 to 31, the encoding of a salt
    of 16 bytes, then characters of the alphabet) the result is a boolean:
    whether these characters are the encoding of the digest of the
    password under that salt and cost. *)
Theorem is_valid_on_valid_hashes :
  forall (installed : bcrypt.release)
         (eksblowfish : nat -> bytes -> bytes -> bytes)
         (hashed : bytes) (password : text),
    (forall x : exn,
       encode_utf8 password = Raise x ->
       is_valid installed eksblowfish hashed password = Raise x)
    /\ (forall data : bytes,
          encode_utf8 password = Ok data ->
          (bcrypt.rejects installed data = true ->
           is_valid installed eksblowfish hashed password = Raise ValueError)
          /\ (bcrypt.rejects installed data = false ->
              existsb (Byte.eqb "$") hashed = false ->
              is_valid installed eksblowfish hashed password = Raise ValueError)
          /\ (bcrypt.rejects installed data = false ->
              forall (minor : byte) (logr : nat) (csalt rest : bytes),
                known_minor minor = true ->
                4 <= logr <= 31 ->
                List.length csalt = 16 ->
                forallb bcrypt.in_alphabet rest = true ->
                hashed =
                (bcrypt.header minor logr ++ bcrypt.encode_base64 csalt ++ rest)%list ->
                is_valid installed eksblowfish hashed password =
                Ok (bytes_eqb
                      (bcrypt.encode_base64 (digest eksblowfish logr csalt data))
                      rest))).
Proof.
  intros installed eksblowfish hashed password. split.
  - intros x H. unfold is_valid. now rewrite H.
  - intros data He. rewrite (is_valid_encoded _ _ _ _ _ He).
    unfold bcrypt.checkpw. split; [|split].
    + intros Hd. now rewrite (hashpw_rejected _ _ _ _ Hd).
    + intros Hd H. now rewrite (hashpw_no_dollar _ _ _ _ Hd H).
    + intros Hd minor logr csalt rest Hm Hl Hs Hr ->.
      rewrite <- (is_valid_hash installed eksblowfish minor logr csalt rest
                    password data He Hd Hm Hl Hs Hr).
      now rewrite (is_valid_encoded _ _ _ _ _ He).
Qed.

(** C1, witness: a hash with the salt of 16 zero bytes, for every release
    and every key schedule; and a password of 73 bytes, which the release
    5.0 refuses on the same hash. *)
Lemma is_valid_on_valid_hashes_witness :
  bytes_lit "$2b$12$......................abcdefghijklmnopqrstuvwxyzABCDE" =
    (bcrypt.header "b" 12 ++ bcrypt.encode_base64 (repeat x00 16)
     ++ bytes_lit "abcdefghijklmnopqrstuvwxyzABCDE")%list
  /\ (forall (installed : bcrypt.release)
             (eksblowfish : nat -> bytes -> bytes -> bytes),
        is_valid installed eksblowfish
          (bytes_lit "$2b$12$......................abcdefghijklmnopqrstuvwxyzABCDE")
          (text_of "pass") =
        Ok (bytes_eqb
              (bcrypt.encode_base64
                 (digest eksblowfish 12 (repeat x00 16) (bytes_lit "pass")))
              (bytes_lit "abcdefghijklmnopqrstuvwxyzABCDE")))
  /\ (forall eksblowfish : nat -> bytes -> bytes -> bytes,
        is_valid bcrypt.R5 eksblowfish
          (bytes_lit "$2b$12$......................abcdefghijklmnopqrstuvwxyzABCDE")
          (repeat 97%N 73) =
        Raise ValueError).
Proof.
  split; [reflexivity|]. split.
  - intros installed eksblowfish.
    apply (proj2 (proj2 (proj2 (is_valid_on_valid_hashes installed eksblowfish
                                  (bytes_lit "$2b$12$......................abcdefghijklmnopqrstuvwxyzABCDE")
                                  (text_of "pass"))
                           (bytes_lit "pass") eq_refl))
             ltac:(destruct installed; reflexivity)
             "b"%byte 12 (repeat x00 16)
             (bytes_lit "abcdefghijklmnopqrstuvwxyzABCDE"));
      [reflexivity | lia | reflexivity | reflexivity | reflexivity].
  - intros eksblowfish.
    apply (proj1 (proj2 (is_valid_on_valid_hashes bcrypt.R5 eksblowfish
                           (bytes_lit "$2b$12$......................abcdefghijklmnopqrstuvwxyzABCDE")
                           (repeat 97%N 73))
                    (repeat "a"%byte 73) eq_refl)).
    reflexivity.
Defined.

(** C5, counterexample: [hash_password] does not return for every
    password.  A lone surrogate has no encoding, so [str.encode] raises
    [UnicodeEncodeError]; a password of 73 bytes raises [ValueError] in
    the release 5.0, and one with a NUL byte in the releases 3.x. *)
Lemma hash_password_refused :
  encode_utf8 [55296%N] = Raise UnicodeEncodeError
  /\ (forall (installed : bcrypt.release)
             (eksblowfish : nat -> bytes -> bytes -> bytes) (e : entropy),
        fst (hash_password installed eksblowfish [55296%N] e) =
        Raise UnicodeEncodeError)
  /\ (forall (eksblowfish : nat -> bytes -> bytes -> bytes) (e : entropy),
        fst (hash_password bcrypt.R5 eksblowfish (repeat 97%N 73) e) =
        Raise ValueError)
  /\ (forall (eksblowfish : nat -> bytes -> bytes -> bytes) (e : entropy),
        fst (hash_password bcrypt.R3 eksblowfish [97%N; 0%N; 98%N] e) =
        Raise ValueError).
Proof. repeat split. Qed.

(** C5, amended: for a password that can be encoded and that the release
    takes, the hash that [hash_password] returns is valid for that
    password, whatever the salt drawn and the key schedule.  For any
    other password [hash_password] raises: the error of [str.encode], or
    [ValueError] where the release refuses the password. *)
Theorem is_valid_hash_password :
  forall (installed : bcrypt.release)
         (eksblowfish : nat -> bytes -> bytes -> bytes)
         (password : text) (e : entropy),
    (forall data : bytes,
       encode_utf8 password = Ok data ->
       bcrypt.rejects installed data = false ->
       exists hashed : bytes,
         fst (hash_password installed eksblowfish password e) = Ok hashed
         /\ is_valid installed eksblowfish hashed password = Ok true)
    /\ (forall data : bytes,
          encode_utf8 password = Ok data ->
          bcrypt.rejects installed data = true ->
          fst (hash_password installed eksblowfish password e) = Raise ValueError)
    /\ (forall x : exn,
          encode_utf8 password = Raise x ->
          fst (hash_password installed eksblowfish password e) = Raise x).
Proof.
  intros installed eksblowfish password e. split; [|split].
  - intros data He Hd.
    exists (hash_with eksblowfish (drawn_salt e) data).
    rewrite (hash_password_eq _ _ _ _ _ He Hd). split; [reflexivity|].
    rewrite (is_valid_hash_with _ _ _ _ _ _ (drawn_salt_length e) He Hd).
    now rewrite bytes_eqb_refl.
  - intros data He Hd. unfold hash_password. rewrite He.
    destruct (bcrypt.gensalt e) as [salt e']. cbn [fst].
    now apply hashpw_rejected.
  - intros x He. unfold hash_password. now rewrite He.
Qed.

(** C5, witness: a password with an accent and a character outside the
    basic plane, for every release, key schedule and entropy. *)
Lemma is_valid_hash_password_witness :
  encode_utf8 [112%N; 233%N; 128273%N] =
    Ok [x70; xc3; xa9; xf0; x9f; x94; x91]
  /\ forall (installed : bcrypt.release)
            (eksblowfish : nat -> bytes -> bytes -> bytes) (e : entropy),
       exists hashed : bytes,
         fst (hash_password installed eksblowfish [112%N; 233%N; 128273%N] e) =
           Ok hashed
         /\ is_valid installed eksblowfish hashed [112%N; 233%N; 128273%N] = Ok true.
Proof.
  split; [reflexivity|]. intros installed eksblowfish e.
  apply (proj1 (is_valid_hash_password installed eksblowfish
                  [112%N; 233%N; 128273%N] e)
           [x70; xc3; xa9; xf0; x9f; x94; x91] eq_refl).
  destruct installed; reflexivity.
Defined.

(** C8, counterexample: the hash is a function of the salt and the
    password, and the salt is what [os.urandom] gives.  When the source
    gives the same 16 bytes again, the second hash is the first. *)
Lemma hash_password_repeated_salt :
  drawn_salt (stuck x00) = drawn_salt (snd (urandom 16 (stuck x00)))
  /\ forall (installed : bcrypt.release)
            (eksblowfish : nat -> bytes -> bytes -> bytes) (password : text),
       fst (hash_password installed eksblowfish password (stuck x00)) =
       fst (hash_password installed eksblowfish password
              (snd (hash_password installed eksblowfish password (stuck x00)))).
Proof.
  split; [reflexivity|]. intros installed eksblowfish password.
  unfold hash_password. destruct (encode_utf8 password); reflexivity.
Qed.

(** C8, amended: two calls of [hash_password] on one password that can be
    encoded and that the release takes, the second drawing from the
    entropy that the first has left: both hashes are valid for the
    password, and they differ exactly when the two salts drawn differ. *)
Theorem hash_password_twice :
  forall (installed : bcrypt.release)
         (eksblowfish : nat -> bytes -> bytes -> bytes)
         (password : text) (data : bytes) (e : entropy),
    encode_utf8 password = Ok data ->
    bcrypt.rejects installed data = false ->
    let e' := snd (hash_password installed eksblowfish password e) in
    exists h1 h2 : bytes,
      fst (hash_password installed eksblowfish password e) = Ok h1
      /\ fst (hash_password installed eksblowfish password e') = Ok h2
      /\ is_valid installed eksblowfish h1 password = Ok true
      /\ is_valid installed eksblowfish h2 password = Ok true
      /\ (h1 <> h2 <-> drawn_salt e <> drawn_salt e').
Proof.
  intros installed eksblowfish password data e He Hd e'.
  exists (hash_with eksblowfish (drawn_salt e) data),
         (hash_with eksblowfish (drawn_salt e') data).
  rewrite !(hash_password_eq _ _ _ _ _ He Hd). cbn [fst].
  pose proof drawn_salt_length as L.
  assert (V : forall s, List.length s = 16 ->
              is_valid installed eksblowfish (hash_with eksblowfish s data) password =
              Ok true).
  { intros s Hs. rewrite (is_valid_hash_with _ _ _ _ _ _ Hs He Hd).
    now rewrite bytes_eqb_refl. }
  split; [reflexivity|]. split; [reflexivity|].
  split; [apply V, L|]. split; [apply V, L|]. split.
  - intros N E. apply N. now rewrite E.
  - intros N E. apply N.
    exact (hash_with_salt _ _ _ _ _ (L e) (L e') E).
Qed.

(** C8, witness: the entropy that counts up from zero, for every release
    and key schedule. *)
Lemma hash_password_twice_witness :
  drawn_salt counting <> drawn_salt (snd (urandom 16 counting))
  /\ forall (installed : bcrypt.release)
            (eksblowfish : nat -> bytes -> bytes -> bytes),
       exists h1 h2 : bytes,
         fst (hash_password installed eksblowfish (text_of "secret") counting) = Ok h1
         /\ fst (hash_password installed eksblowfish (text_of "secret")
                   (snd (hash_password installed eksblowfish (text_of "secret")
                           counting))) = Ok h2
         /\ is_valid installed eksblowfish h1 (text_of "secret") = Ok true
         /\ is_valid installed eksblowfish h2 (text_of "secret") = Ok true
         /\ (h1 <> h2 <->
             drawn_salt counting <>
             drawn_salt (snd (hash_password installed eksblowfish (text_of "secret")
                                counting))).
Proof.
  split; [intros H; vm_compute in H; discriminate H|].
  intros installed eksblowfish.
  apply (hash_password_twice installed eksblowfish (text_of "secret")
           (bytes_lit "secret") counting eq_refl).
  destruct installed; reflexivity.
Defined.

(** ** Texts without the equals sign *)

Lemma mem_append (c : ascii) (x y : string) : mem c (x ++ y) = mem c x || mem c y.
Proof.
  induction x as [|d x IH]; [reflexivity|].
  cbn [append]. rewrite !mem_cons, IH. apply orb_assoc.
Qed.

Lemma free_of_append (c : ascii) (x y : string) :
  free_of c (x ++ y) = free_of c x && free_of c y.
Proof. unfold free_of. rewrite mem_append. apply negb_orb. Qed.

Lemma free_of_head (c d : ascii) (s : string) :
  free_of c (String d s) = true -> Ascii.eqb d c = false /\ free_of c s = true.
Proof.
  rewrite free_of_cons. intros H. apply andb_prop in H as [H1 H2].
  apply negb_true_iff in H1. rewrite Ascii.eqb_sym in H1. now split.
Qed.

Lemma atom_free_of (sep : ascii) (s : string) :
  atom sep s = true -> free_of "=" s = true /\ free_of sep s = true.
Proof. unfold atom. intros H. now apply andb_prop in H. Qed.

Lemma forallb_atom_free_of (sep : ascii) (fields : list string) :
  forallb (atom sep) fields = true ->
  forallb (free_of "=") fields = true /\ forallb (free_of sep) fields = true.
Proof.
  induction fields as [|f fields IH]; cbn [forallb]; [now split|].
  intros H. apply andb_prop in H as [Hf H].
  destruct (atom_free_of _ _ Hf) as [H1 H2], (IH H) as [H3 H4].
  now rewrite H1, H2, H3, H4.
Qed.

(** A name and a text, both without equals sign: the name followed by
    the sign begins the text followed by the sign only when they are the
    same. *)
Lemma strip_prefix_text (g t x : string) :
  free_of "=" g = true -> free_of "=" t = true ->
  strip_prefix (g ++ "=") (t ++ "=" ++ x) =
  if String.eqb g t then Some x else None.
Proof.
  revert t; induction g as [|c g IH]; intros t Hg Ht.
  - destruct t as [|d t]; [reflexivity|].
    apply free_of_head in Ht as [Hd _].
    cbn [append strip_prefix String.eqb]. rewrite Ascii.eqb_sym. now rewrite Hd.
  - apply free_of_head in Hg as [Hc Hg].
    destruct t as [|d t].
    + cbn [append strip_prefix String.eqb]. now rewrite Hc.
    + apply free_of_head in Ht as [_ Ht].
      cbn [append strip_prefix String.eqb].
      destruct (Ascii.eqb c d); [now apply IH | reflexivity].
Qed.

(** In a text without the equals sign no name followed by the sign
    begins. *)
Lemma strip_prefix_no_equals (g s : string) :
  free_of "=" s = true -> strip_prefix (g ++ "=") s = None.
Proof.
  revert s; induction g as [|c g IH]; intros s H.
  - destruct s as [|d s]; [reflexivity|].
    apply free_of_head in H as [Hd _].
    cbn [append strip_prefix]. rewrite Ascii.eqb_sym. now rewrite Hd.
  - destruct s as [|d s]; [reflexivity|].
    apply free_of_head in H as [_ H]. cbn [append strip_prefix].
    destruct (Ascii.eqb c d); [now apply IH | reflexivity].
Qed.

Lemma find_field_no_equals (fields : list string) (s : string) :
  free_of "=" s = true -> find_field fields s = None.
Proof.
  intros H. induction fields as [|g fields IH]; [reflexivity|].
  cbn [find_field]. now rewrite (strip_prefix_no_equals _ _ H).
Qed.

Lemma occurs_no_equals (fields : list string) (s : string) :
  free_of "=" s = true -> occurs fields s = false.
Proof.
  induction s as [|c s IH]; intros H.
  - cbn [occurs]. now rewrite find_field_nil.
  - cbn [occurs]. rewrite (find_field_no_equals _ _ H).
    apply free_of_head in H as [_ H]. now apply IH.
Qed.

Lemma redact_no_equals (fields : list string) (redaction : string) (sep : ascii)
    (s : string) :
  free_of "=" s = true -> redact fields redaction sep s = s.
Proof. intros H. apply redact_no_occurrence. now apply occurs_no_equals. Qed.

(** ** Keys in a text *)

Lemma eqb_free_of (c : ascii) (f s : string) :
  free_of c f = true -> mem c s = true -> String.eqb f s = false.
Proof.
  intros Hf Hs. destruct (String.eqb_spec f s) as [->|]; [|reflexivity].
  unfold free_of in Hf. rewrite Hs in Hf. discriminate.
Qed.

(** A name without the character [c] ends a text in which [c] occurs only
    inside what follows the last [c]. *)
Lemma ends_with_after (c : ascii) (f p k : string) :
  free_of c f = true -> ends_with f (p ++ String c k) = ends_with f k.
Proof.
  intros Hf. induction p as [|d p IH]; cbn [append]; rewrite ends_with_cons.
  - rewrite (eqb_free_of c) by (try assumption; rewrite mem_cons, Ascii.eqb_refl; reflexivity).
    reflexivity.
  - rewrite (eqb_free_of c), IH; try assumption; [reflexivity|].
    rewrite mem_cons, mem_append, mem_cons, Ascii.eqb_refl.
    destruct (Ascii.eqb c d), (mem c p); reflexivity.
Qed.

Lemma key_listed_after (c : ascii) (fields : list string) (p k : string) :
  forallb (free_of c) fields = true ->
  key_listed fields (p ++ String c k) = key_listed fields k.
Proof.
  unfold key_listed. induction fields as [|f fields IH]; [reflexivity|].
  cbn [forallb existsb]. intros H. apply andb_prop in H as [Hf H].
  now rewrite (ends_with_after _ _ _ _ Hf), (IH H).
Qed.

Lemma skip_value_no_separator (sep : ascii) (v : string) :
  free_of sep v = true -> skip_value sep v = "".
Proof.
  induction v as [|c v IH]; intros H; [reflexivity|].
  apply free_of_head in H as [Hc H]. cbn [skip_value]. rewrite Hc. now apply IH.
Qed.

Lemma skip_value_separator (sep : ascii) (v x : string) :
  free_of sep v = true -> skip_value sep (v ++ String sep x) = String sep x.
Proof.
  intros H. rewrite (skip_value_free _ _ _ H). cbn [skip_value].
  now rewrite Ascii.eqb_refl.
Qed.

Section Texts.

Variables (fields : list string) (redaction : string) (sep : ascii).
Hypothesis fields_free : forallb (free_of "=") fields = true.

Local Abbreviation R := (redact fields redaction sep).

Lemma find_field_text (t x : string) :
  free_of "=" t = true ->
  find_field fields (t ++ "=" ++ x) =
  if existsb (fun f => String.eqb f t) fields then Some (t, x) else None.
Proof.
  intros Ht. induction fields as [|g gs IH]; [reflexivity|].
  cbn [forallb] in fields_free. apply andb_prop in fields_free as [Hg Hgs].
  cbn [find_field existsb]. rewrite strip_prefix_text by assumption.
  destruct (String.eqb_spec g t) as [->|]; [reflexivity|].
  cbn [orb]. now apply IH.
Qed.

(** A text without equals sign, the sign, and what follows: where the
    text ends with a listed name, the value that follows is replaced;
    where it does not, the text and the sign are copied. *)
Lemma redact_text (t x : string) :
  free_of "=" t = true ->
  R (t ++ "=" ++ x) =
  t ++ "=" ++ (if key_listed fields t then redaction ++ R (skip_value sep x)
               else R x).
Proof.
  intros Ht. induction t as [|c t IH].
  - pose proof (find_field_text "" x Ht) as F.
    destruct (existsb (fun f => String.eqb f "") fields) eqn:E.
    + now rewrite redact_unfold, F, (key_listed_exact _ _ E).
    + rewrite (key_listed_nil _ E).
      change ("" ++ "=" ++ x) with (String "=" x) in F |- *.
      now rewrite (redact_copy _ _ _ _ _ F).
  - pose proof (find_field_text (String c t) x Ht) as F.
    destruct (existsb (fun f => String.eqb f (String c t)) fields) eqn:E.
    + now rewrite redact_unfold, F, (key_listed_exact _ _ E).
    + rewrite (key_listed_cons _ _ _ E).
      change (String c t ++ "=" ++ x) with (String c (t ++ "=" ++ x)) in F |- *.
      rewrite (redact_copy _ _ _ _ _ F).
      apply free_of_head in Ht as [_ Ht]. now rewrite (IH Ht).
Qed.

Hypothesis fields_sep_free : forallb (free_of sep) fields = true.
Hypothesis sep_not_equals : Ascii.eqb sep "=" = false.

(** A line of readable records after a text [p] that no key reaches
    into: the records are redacted one by one. *)
Lemma redact_readable (records : list (string * string)) :
  forall p : string,
    free_of "=" p = true ->
    (forall k, key_listed fields (p ++ k) = key_listed fields k) ->
    readable fields sep records = true ->
    R (p ++ line sep records) =
    p ++ line sep (map (redact_record fields redaction) records).
Proof.
  induction records as [|[k v] records IH]; intros p Hp Hb H.
  - cbn [line map]. rewrite append_nil_r. now apply redact_no_equals.
  - cbn [readable forallb] in H. apply andb_prop in H as [Hkv H].
    unfold readable_record in Hkv. cbn [fst snd] in Hkv.
    apply andb_prop in Hkv as [Hk Hv].
    cbn [line map]. unfold record_text at 1. cbn [fst snd].
    rewrite !append_assoc. rewrite <- (append_assoc p k).
    rewrite redact_text by (rewrite free_of_append; now rewrite Hp, Hk).
    rewrite Hb.
    change (redact_record fields redaction (k, v))
      with (if key_listed fields k then (k, redaction) else (k, v)).
    unfold record_text.
    assert (Es : forall x, String sep "" ++ x = String sep x) by reflexivity.
    destruct (key_listed fields k); cbn [fst snd]; rewrite ?append_assoc, ?Es.
    + rewrite (skip_value_separator _ _ _ Hv).
      specialize (IH (String sep "")). cbn [append] in IH.
      rewrite IH; [reflexivity | | | exact H].
      * rewrite free_of_cons, Ascii.eqb_sym, sep_not_equals. reflexivity.
      * intros k'. exact (key_listed_after sep fields "" k' fields_sep_free).
    + specialize (IH (v ++ String sep "")). rewrite !append_assoc, !Es in IH.
      rewrite IH; [reflexivity | | | exact H].
      * rewrite free_of_append, Hv, free_of_cons, Ascii.eqb_sym, sep_not_equals.
        reflexivity.
      * intros k'. rewrite append_assoc, Es.
        exact (key_listed_after sep fields v k' fields_sep_free).
Qed.

(** ** Across a separator *)

Lemma strip_prefix_segment (g m x : string) :
  free_of "=" g = true -> free_of sep g = true ->
  strip_prefix (g ++ "=") (m ++ String sep x) =
  option_map (fun a => a ++ String sep x) (strip_prefix (g ++ "=") m).
Proof.
  intros Hg Hs. clear fields_free fields_sep_free.
  revert m; induction g as [|c g IH]; intros m.
  - destruct m as [|d m]; cbn [append strip_prefix].
    + rewrite Ascii.eqb_sym, sep_not_equals. reflexivity.
    + destruct (Ascii.eqb "=" d); reflexivity.
  - apply free_of_head in Hg as [_ Hg]. apply free_of_head in Hs as [Hc Hs].
    destruct m as [|d m]; cbn [append strip_prefix].
    + now rewrite Hc.
    + destruct (Ascii.eqb c d); [now apply IH | reflexivity].
Qed.

Lemma find_field_segment (m x : string) :
  find_field fields (m ++ String sep x) =
  option_map (fun fa => (fst fa, snd fa ++ String sep x)) (find_field fields m).
Proof.
  induction fields as [|g gs IH]; [reflexivity|].
  cbn [forallb] in fields_free, fields_sep_free.
  apply andb_prop in fields_free as [Hg Hgs].
  apply andb_prop in fields_sep_free as [Hs Hss].
  cbn [find_field]. rewrite strip_prefix_segment by assumption.
  destruct (strip_prefix (g ++ "=") m); [reflexivity|].
  cbn [option_map]. now apply IH.
Qed.

Lemma skip_value_segment (a x : string) :
  skip_value sep (a ++ String sep x) = skip_value sep a ++ String sep x.
Proof.
  induction a as [|c a IH]; cbn [append skip_value].
  - now rewrite Ascii.eqb_refl.
  - destruct (Ascii.eqb c sep); [reflexivity | exact IH].
Qed.

Lemma redact_separator_text (x : string) : R (String sep x) = String sep (R x).
Proof.
  apply redact_copy.
  change (String sep x) with ("" ++ String sep x).
  rewrite find_field_segment, find_field_nil. reflexivity.
Qed.

(** The redaction of two texts joined by the separator is the two
    redactions, joined by the separator. *)
Lemma redact_segment_upto (n : nat) (m x : string) :
  String.length m <= n ->
  R (m ++ String sep x) = R m ++ String sep (R x).
Proof.
  revert m; induction n as [|n IH]; intros m Hn.
  - destruct m; [|cbn in Hn; lia]. apply redact_separator_text.
  - rewrite (redact_unfold _ _ _ (m ++ String sep x)), find_field_segment.
    rewrite (redact_unfold _ _ _ m).
    destruct (find_field fields m) as [[f after]|] eqn:E; cbn [option_map fst snd].
    + rewrite skip_value_segment, IH; [now rewrite !append_assoc|].
      apply find_field_Some in E. subst m.
      rewrite !length_append in Hn. cbn [String.length] in Hn.
      pose proof (skip_value_length sep after). lia.
    + destruct m as [|c m]; [reflexivity|].
      cbn [append]. rewrite IH by (cbn in Hn; lia). reflexivity.
Qed.

Lemma redact_segment (m x : string) :
  R (m ++ String sep x) = R m ++ String sep (R x).
Proof. exact (redact_segment_upto (String.length m) m x (le_n _)). Qed.

(** ** The separators of a redacted text *)

Lemma count_append (c : ascii) (x y : string) :
  count c (x ++ y) = count c x + count c y.
Proof.
  induction x as [|d x IH]; [reflexivity|].
  cbn [append count]. rewrite IH. lia.
Qed.

Lemma count_free_of (c : ascii) (x : string) :
  free_of c x = true -> count c x = 0.
Proof.
  induction x as [|d x IH]; intros H; [reflexivity|].
  rewrite free_of_cons in H. apply andb_prop in H as [Hd H].
  apply negb_true_iff in Hd. cbn [count]. rewrite Hd. now rewrite (IH H).
Qed.

Lemma count_skip_value (s : string) :
  count sep (skip_value sep s) = count sep s.
Proof.
  induction s as [|c s IH]; [reflexivity|].
  cbn [skip_value]. destruct (Ascii.eqb c sep) eqn:E; [reflexivity|].
  cbn [count]. rewrite Ascii.eqb_sym, E. exact IH.
Qed.

Lemma find_field_free (s f after : string) :
  find_field fields s = Some (f, after) -> free_of sep f = true.
Proof.
  clear fields_free sep_not_equals.
  induction fields as [|g gs IH]; cbn [find_field]; [discriminate|].
  cbn [forallb] in fields_sep_free. apply andb_prop in fields_sep_free as [Hg Hgs].
  destruct (strip_prefix (g ++ "=") s).
  - intros H. now inversion H; subst.
  - now apply IH.
Qed.

Lemma count_redact_upto (n : nat) (s : string) :
  free_of sep redaction = true ->
  String.length s <= n ->
  count sep (R s) = count sep s.
Proof.
  intros Hr. revert s; induction n as [|n IH]; intros s Hn.
  - destruct s; [reflexivity | cbn in Hn; lia].
  - rewrite redact_unfold.
    destruct (find_field fields s) as [[f after]|] eqn:E.
    + pose proof (find_field_free _ _ _ E) as Hf.
      apply find_field_Some in E. subst s.
      assert (He : count sep "=" = 0).
      { cbn [count]. now rewrite sep_not_equals. }
      rewrite !count_append, He, (count_free_of _ _ Hf), (count_free_of _ _ Hr).
      rewrite IH, count_skip_value; [reflexivity|].
      rewrite !length_append in Hn. cbn [String.length] in Hn.
      pose proof (skip_value_length sep after). lia.
    + destruct s as [|c s]; [reflexivity|].
      cbn [count]. rewrite IH by (cbn in Hn; lia). reflexivity.
Qed.

End Texts.

(** ** [filter_datum] at the ends of a value *)

Lemma alternatives_forallb (P : string -> bool) (fields : list string) :
  P "" = true -> forallb P fields = true ->
  forallb P (alternatives fields) = true.
Proof. intros H0 H. destruct fields; [cbn; now rewrite H0 | exact H]. Qed.

(** The names that the pattern reads, for a list of field names that may
    be empty: no equals sign and no separator in them. *)
Lemma alternatives_free (sep : ascii) (fields : list string) :
  forallb (field_name sep) fields = true ->
  forallb literal_name fields = true
  /\ forallb (free_of "=") (alternatives fields) = true
  /\ forallb (free_of sep) (alternatives fields) = true.
Proof.
  intros H. destruct (forallb_field_name _ _ H) as [Hl Ha].
  destruct (forallb_atom_free_of _ _ Ha) as [H1 H2].
  split; [assumption|].
  split; apply alternatives_forallb; (reflexivity || assumption).
Qed.

Lemma In_existsb_eqb (f : string) (fields : list string) :
  In f fields -> existsb (fun g => String.eqb g f) fields = true.
Proof.
  intros H. apply existsb_exists. exists f. split; [assumption|].
  apply String.eqb_refl.
Qed.

Lemma In_alternatives (f : string) (fields : list string) :
  In f fields -> alternatives fields = fields.
Proof. intros H. apply alternatives_nonempty. intros ->. exact H. Qed.

(** X1: the redaction does not reach across a separator.  For field
    names that are literal in a pattern and hold neither the separator
    nor the equals sign, the result for two texts joined by the separator
    is the result for the first, the separator, and the result for the
    second, whatever the two texts are. *)
Theorem filter_datum_across_separator :
  forall (fields : list string) (redaction m1 m2 : string) (sep : ascii),
    forallb (field_name sep) fields = true ->
    no_backslash redaction = true ->
    sep <> "\"%char ->
    sep <> "="%char ->
    exists r1 r2 : string,
      filter_datum fields redaction m1 (String sep "") = Ok r1
      /\ filter_datum fields redaction m2 (String sep "") = Ok r2
      /\ filter_datum fields redaction (m1 ++ String sep m2) (String sep "") =
         Ok (r1 ++ String sep r2).
Proof.
  intros fields redaction m1 m2 sep Hf Hr Hsep Heq.
  destruct (alternatives_free _ _ Hf) as (Hl & He & Hs).
  exists (redact (alternatives fields) redaction sep m1),
         (redact (alternatives fields) redaction sep m2).
  rewrite !(filter_datum_alternatives _ _ _ _ Hl Hr Hsep).
  repeat split.
  now rewrite (redact_segment _ _ _ He Hs (eqb_neq_false _ _ Heq)).
Qed.

(** X1, witness: a value with a space, and what follows the semicolon. *)
Lemma filter_datum_across_separator_witness :
  exists r1 r2 : string,
    filter_datum ["name"] "***" "name=Bob Smith" ";" = Ok r1
    /\ filter_datum ["name"] "***" " nickname=bs;id=7" ";" = Ok r2
    /\ filter_datum ["name"] "***" "name=Bob Smith; nickname=bs;id=7" ";" =
       Ok (r1 ++ ";" ++ r2).
Proof.
  apply (filter_datum_across_separator ["name"] "***" "name=Bob Smith"
           " nickname=bs;id=7" ";"%char);
    [reflexivity | reflexivity | discriminate | discriminate].
Defined.

(** X2: a value ends at the first separator, also when the separator is
    part of the value that was logged.  After a listed name and the
    equals sign, the text up to the first separator is replaced; the
    separator and what follows it come out as they are when no listed
    name followed by the equals sign begins there. *)
Theorem filter_datum_value_with_separator :
  forall (fields : list string) (redaction f v rest : string) (sep : ascii),
    forallb (field_name sep) fields = true ->
    no_backslash redaction = true ->
    sep <> "\"%char ->
    sep <> "="%char ->
    In f fields ->
    free_of sep v = true ->
    occurs fields rest = false ->
    filter_datum fields redaction (f ++ "=" ++ v ++ String sep rest) (String sep "") =
    Ok (f ++ "=" ++ redaction ++ String sep rest).
Proof.
  intros fields redaction f v rest sep Hf Hr Hsep Heq Hin Hv Hrest.
  destruct (alternatives_free _ _ Hf) as (Hl & He & Hs).
  rewrite (filter_datum_alternatives _ _ _ _ Hl Hr Hsep).
  rewrite (In_alternatives _ _ Hin) in *.
  assert (Hff : free_of "=" f = true).
  { rewrite forallb_forall in He. now apply He. }
  rewrite (redact_text _ _ _ He _ _ Hff).
  rewrite (key_listed_exact _ _ (In_existsb_eqb _ _ Hin)).
  rewrite (skip_value_separator _ _ _ Hv).
  rewrite (redact_separator_text _ _ _ He Hs (eqb_neq_false _ _ Heq)).
  now rewrite (redact_no_occurrence _ _ _ _ Hrest).
Qed.

(** X2, witness: a password that holds a semicolon; what follows it is written in clear. *)
Lemma filter_datum_value_with_separator_witness :
  filter_datum ["password"; "ssn"] "***" "password=ab;cd;uid=7;" ";" =
  Ok "password=***;cd;uid=7;".
Proof.
  apply (filter_datum_value_with_separator ["password"; "ssn"] "***"
           "password" "ab" "cd;uid=7;" ";"%char);
    [reflexivity | reflexivity | discriminate | discriminate
    | now left | reflexivity | reflexivity].
Defined.

(** X3: a value that no separator closes runs to the end of the message:
    a listed name, the equals sign and a text without separator give the
    name, the sign and the redaction. *)
Theorem filter_datum_value_at_end :
  forall (fields : list string) (redaction f v : string) (sep : ascii),
    forallb literal_name fields = true ->
    forallb (free_of "=") fields = true ->
    no_backslash redaction = true ->
    sep <> "\"%char ->
    In f fields ->
    free_of sep v = true ->
    filter_datum fields redaction (f ++ "=" ++ v) (String sep "") =
    Ok (f ++ "=" ++ redaction).
Proof.
  intros fields redaction f v sep Hl He Hr Hsep Hin Hv.
  rewrite (filter_datum_alternatives _ _ _ _ Hl Hr Hsep).
  rewrite (In_alternatives _ _ Hin).
  assert (Hff : free_of "=" f = true).
  { rewrite forallb_forall in He. now apply He. }
  rewrite (redact_text _ _ _ He _ _ Hff).
  rewrite (key_listed_exact _ _ (In_existsb_eqb _ _ Hin)).
  rewrite (skip_value_no_separator _ _ Hv).
  now rewrite append_nil_r.
Qed.

(** X3, witness: a last value with an equals sign, a comma and spaces. *)
Lemma filter_datum_value_at_end_witness :
  filter_datum ["email"; "password"] "***" "password=s3cr=t, or not" ";" =
  Ok "password=***".
Proof.
  apply (filter_datum_value_at_end ["email"; "password"] "***" "password"
           "s3cr=t, or not" ";"%char);
    [reflexivity | reflexivity | reflexivity | discriminate
    | right; now left | reflexivity].
Defined.

(** X4: the redaction keeps the separators.  With a redaction that does
    not hold the separator, the result has as many separators as the
    message: no record is merged with the next, none is split. *)
Theorem filter_datum_keeps_separators :
  forall (fields : list string) (redaction message : string) (sep : ascii),
    forallb (field_name sep) fields = true ->
    no_backslash redaction = true ->
    free_of sep redaction = true ->
    sep <> "\"%char ->
    sep <> "="%char ->
    exists out : string,
      filter_datum fields redaction message (String sep "") = Ok out
      /\ count sep out = count sep message.
Proof.
  intros fields redaction message sep Hf Hr Hrs Hsep Heq.
  destruct (alternatives_free _ _ Hf) as (Hl & He & Hs).
  exists (redact (alternatives fields) redaction sep message).
  split; [exact (filter_datum_alternatives _ _ _ _ Hl Hr Hsep)|].
  exact (count_redact_upto _ _ _ Hs (eqb_neq_false _ _ Heq)
           (String.length message) message Hrs (le_n _)).
Qed.

(** X4, witness: the fields of the logger on a message with empty records. *)
Lemma filter_datum_keeps_separators_witness :
  exists out : string,
    filter_datum PII_FIELDS "***" "name=a;b;;email=x;y=;ssn=1" ";" = Ok out
    /\ count ";" out = count ";" "name=a;b;;email=x;y=;ssn=1".
Proof.
  apply (filter_datum_keeps_separators PII_FIELDS "***"
           "name=a;b;;email=x;y=;ssn=1" ";"%char);
    [reflexivity | reflexivity | reflexivity | discriminate | discriminate].
Defined.

(** X5: with the empty separator the pattern ends with a character set
    that is never closed: for every list of literal names, every
    redaction and every message, [re.error] is raised. *)
Theorem filter_datum_empty_separator :
  forall (fields : list string) (redaction message : string),
    forallb literal_name fields = true ->
    filter_datum fields redaction message "" = Raise re_error.
Proof.
  intros fields redaction message Hf.
  unfold filter_datum, re.sub, re.compile, patterns.extract.
  rewrite lex_open_field, (lex_names _ _ Hf).
  replace (re.lex re.LNormal (")=[^" ++ "" ++ "]*"))
    with (Raise re_error : outcome (list re.token)) by (vm_compute; reflexivity).
  reflexivity.
Qed.

(** X5, witness: the fields of the logger. *)
Lemma filter_datum_empty_separator_witness :
  filter_datum PII_FIELDS "***" "name=Bob;" "" = Raise re_error.
Proof. apply (filter_datum_empty_separator PII_FIELDS "***" "name=Bob;"). reflexivity. Defined.

(** X6: a message without equals sign is returned as it is, for every
    list of literal names, the empty list and the empty message
    included. *)
Theorem filter_datum_no_equals :
  forall (fields : list string) (redaction message : string) (sep : ascii),
    forallb literal_name fields = true ->
    no_backslash redaction = true ->
    sep <> "\"%char ->
    free_of "=" message = true ->
    filter_datum fields redaction message (String sep "") = Ok message.
Proof.
  intros fields redaction message sep Hf Hr Hsep Hm.
  rewrite (filter_datum_alternatives _ _ _ _ Hf Hr Hsep).
  now rewrite (redact_no_equals _ _ _ _ Hm).
Qed.

(** X6, witness: the empty list of fields. *)
Lemma filter_datum_no_equals_witness :
  filter_datum [] "***" "user logged in; session opened;" ";" =
  Ok "user logged in; session opened;".
Proof.
  apply (filter_datum_no_equals [] "***" "user logged in; session opened;" ";"%char);
    [reflexivity | reflexivity | discriminate | reflexivity].
Defined.

(** ** [RedactingFormatter.format] on the records of a message *)

(** A letter or a digit is no space. *)
Lemma alnum_free_of_space (f : string) :
  alnum_name f = true -> free_of " " f = true.
Proof.
  unfold alnum_name. induction f as [|c f IH]; [reflexivity|].
  cbn [list_ascii_of_string forallb]. intros H. apply andb_prop in H as [Hc Hf].
  rewrite free_of_cons, (IH Hf), andb_true_r.
  apply negb_true_iff. apply eqb_neq_false. intros <-. discriminate Hc.
Qed.

Lemma forallb_alnum_free_of_space (fields : list string) :
  forallb alnum_name fields = true -> forallb (free_of " ") fields = true.
Proof.
  induction fields as [|f fields IH]; cbn [forallb]; [reflexivity|].
  intros H. apply andb_prop in H as [Hf H].
  now rewrite (alnum_free_of_space _ Hf), (IH H).
Qed.

Lemma free_of_spaces (n : nat) : free_of "=" (logging.spaces n) = true.
Proof. induction n as [|n IH]; [reflexivity|]. cbn [logging.spaces]. now rewrite free_of_cons, IH. Qed.

(** The header ends with a space, and holds no equals sign when the
    attributes of the record hold none. *)
Lemma line_header_space (record : logging.LogRecord) (k : string) :
  line_header record ++ k =
  ("[HOLBERTON] " ++ logging.name record ++ " " ++ logging.levelname record
   ++ " " ++ logging.ljust 15 (logging.asctime record) ++ ":") ++ String " " k.
Proof. unfold line_header. now rewrite !append_assoc. Qed.

Lemma line_header_free (record : logging.LogRecord) :
  free_of "=" (logging.name record) = true ->
  free_of "=" (logging.levelname record) = true ->
  free_of "=" (logging.asctime record) = true ->
  free_of "=" (line_header record) = true.
Proof.
  intros H1 H2 H3. unfold line_header, logging.ljust.
  now rewrite !free_of_append, H1, H2, H3, free_of_spaces.
Qed.

Lemma rendered_plain (record : logging.LogRecord) :
  logging.exc_text record = "" -> logging.stack_info record = "" ->
  rendered record = line_header record ++ logging.message record.
Proof.
  intros H1 H2. unfold rendered, line_header. rewrite H1, H2.
  cbn [logging.append_block]. now rewrite !append_assoc.
Qed.

(** The formatter on a record with no exception and no stack, whose
    message is a line of readable records. *)
Lemma format_line (fields : list string) (record : logging.LogRecord)
    (records : list (string * string)) :
  fields <> [] ->
  forallb alnum_name fields = true ->
  logging.exc_text record = "" ->
  logging.stack_info record = "" ->
  free_of "=" (line_header record) = true ->
  logging.message record = line ";" records ->
  readable fields ";" records = true ->
  RedactingFormatter.format (RedactingFormatter.mk fields) record =
  Ok (line_header record
      ++ line ";" (map (redact_record fields RedactingFormatter.REDACTION) records)).
Proof.
  intros Hne Hf He Hs Hh Hm Hr.
  pose proof (forallb_alnum_free_of_space _ Hf) as Hsp.
  apply forallb_alnum_field_name in Hf.
  destruct (forallb_field_name _ _ Hf) as [Hl Ha].
  destruct (forallb_atom_free_of _ _ Ha) as [Hfe Hfs].
  unfold RedactingFormatter.format. rewrite Formatter_format_rendered.
  cbn [bind RedactingFormatter.fields].
  assert (Hsep : ";"%char <> "\"%char) by discriminate.
  unfold RedactingFormatter.SEPARATOR.
  rewrite (filter_datum_redact fields RedactingFormatter.REDACTION _ ";"
             Hne Hl eq_refl Hsep).
  rewrite (rendered_plain _ He Hs), Hm.
  rewrite (redact_readable fields _ ";" Hfe Hfs eq_refl records _ Hh); [reflexivity| |exact Hr].
  intros k. rewrite line_header_space. now apply key_listed_after.
Qed.



(** X8: a list of fields is not looked at when the formatter is made.
    When the pattern of the fields does not compile, every call of
    [format] raises the error of [re.compile], whatever the record. *)
Theorem RedactingFormatter_format_bad_fields :
  forall (fields : list string) (e : exn),
    re.compile (patterns.extract fields RedactingFormatter.SEPARATOR) = Raise e ->
    forall record : logging.LogRecord,
      RedactingFormatter.format (RedactingFormatter.mk fields) record = Raise e.
Proof.
  intros fields e H record.
  unfold RedactingFormatter.format. rewrite Formatter_format_rendered.
  cbn [bind RedactingFormatter.fields]. unfold filter_datum, re.sub.
  now rewrite H.
Qed.

(** X8, witness: a field name with a closing parenthesis. *)
Lemma RedactingFormatter_format_bad_fields_witness :
  RedactingFormatter.format (RedactingFormatter.mk ["name"; "e-mail)"])
    (logging.mkLogRecord "user_data" "INFO" "2019-11-19 18:24:25,105" "" "" "") =
  Raise re_error.
Proof.
  apply (RedactingFormatter_format_bad_fields ["name"; "e-mail)"] re_error).
  vm_compute. reflexivity.
Defined.

(** ** [get_logger] *)

(** What a call of [get_logger] leaves: the logger with its level, its
    flag and one more handler; the rest of the state as it was. *)
Lemma get_logger_spec (w : world) :
  known_handlers w = true ->
  let w' := snd (get_logger w) in
  fst (get_logger w) = "user_data"
  /\ loggerDict w' "user_data" =
     Some (Logger.mk INFO false
             (user_data_handlers w ++ [redacting_handler (created w)]))
  /\ created w' = S (created w)
  /\ clock w' = clock w /\ records w' = records w /\ stderr w' = stderr w.
Proof.
  unfold known_handlers, user_data_handlers. intros K.
  assert (N : forall hs,
             forallb (fun h => StreamHandler.id h <? created w) hs = true ->
             existsb (fun h' => StreamHandler.id h' =? created w) hs = false).
  { induction hs as [|h hs IH]; cbn [forallb existsb]; [reflexivity|].
    intros H. apply andb_prop in H as [Hh H]. rewrite (IH H).
    apply Nat.ltb_lt in Hh. rewrite orb_false_r. apply Nat.eqb_neq. lia. }
  unfold get_logger, setLevel, set_propagate, addHandler, update_logger,
    new_StreamHandler, getLogger, set_logger.
  destruct (loggerDict w "user_data") as [l|] eqn:E;
    repeat first [ progress cbn -[String.eqb INFO NOTSET]
                 | rewrite E | rewrite String.eqb_refl | rewrite (N _ K) ];
    repeat split.
Qed.

Lemma get_logger_known (w : world) :
  known_handlers w = true -> known_handlers (snd (get_logger w)) = true.
Proof.
  intros K. destruct (get_logger_spec w K) as (_ & L & C & _).
  unfold known_handlers, user_data_handlers in *. rewrite L, C.
  cbn [Logger.handlers]. rewrite forallb_app. cbn [forallb redacting_handler StreamHandler.id].
  rewrite andb_true_r. apply andb_true_intro. split.
  - rewrite forallb_forall in K |- *. intros h Hh. specialize (K h Hh).
    apply Nat.ltb_lt in K. apply Nat.ltb_lt. lia.
  - apply Nat.ltb_lt. lia.
Qed.

Lemma get_logger_times_spec (n : nat) (w : world) :
  known_handlers w = true ->
  let w' := get_logger_times n w in
  known_handlers w' = true
  /\ user_data_handlers w' =
     (user_data_handlers w ++ map redacting_handler (seq (created w) n))%list
  /\ created w' = created w + n
  /\ clock w' = clock w /\ records w' = records w /\ stderr w' = stderr w.
Proof.
  intros K. induction n as [|n IH].
  - cbn [get_logger_times seq map]. rewrite app_nil_r, Nat.add_0_r. now repeat split.
  - cbn zeta in IH |- *. destruct IH as (Kn & Hn & Cn & Tn & Rn & En).
    cbn [get_logger_times].
    destruct (get_logger_spec _ Kn) as (_ & L & C & T & Rc & Er).
    split; [now apply get_logger_known|].
    split.
    + unfold user_data_handlers at 1. rewrite L. cbn [Logger.handlers].
      rewrite Hn, Cn, seq_S, map_app, <- app_assoc. reflexivity.
    + rewrite C, T, Rc, Er, Cn. repeat split; try assumption. lia.
Qed.

(** X9: every call of [get_logger] returns the one logger "user_data" and
    hangs one more handler on it.  After [n + 1] calls the logger has the
    level INFO, does not propagate, and carries the handlers it had
    before, then [n + 1] new ones, each with a [RedactingFormatter] on
    [PII_FIELDS]. *)
Theorem get_logger_adds_a_handler :
  forall (w : world) (n : nat),
    known_handlers w = true ->
    loggerDict (get_logger_times (S n) w) "user_data" =
    Some (Logger.mk INFO false
            (user_data_handlers w
             ++ map redacting_handler (seq (created w) (S n)))).
Proof.
  intros w n K.
  destruct (get_logger_times_spec n w K) as (Kn & Hn & Cn & _).
  cbn [get_logger_times].
  destruct (get_logger_spec _ Kn) as (_ & L & _).
  rewrite L, Hn, Cn, seq_S, map_app, <- app_assoc. reflexivity.
Qed.

(** X9, witness: three calls in a new process. *)
Lemma get_logger_adds_a_handler_witness :
  loggerDict (get_logger_times 3 example_world) "user_data" =
  Some (Logger.mk INFO false
          [redacting_handler 0; redacting_handler 1; redacting_handler 2]).
Proof. apply (get_logger_adds_a_handler example_world 2). reflexivity. Defined.

(** ** Records through the handlers *)

Lemma format_PII_FIELDS (record : logging.LogRecord) :
  RedactingFormatter.format (RedactingFormatter.mk PII_FIELDS) record =
  Ok (redact PII_FIELDS "***" ";" (rendered record)).
Proof.
  unfold RedactingFormatter.format. rewrite Formatter_format_rendered.
  cbn [bind RedactingFormatter.fields].
  apply (filter_datum_redact PII_FIELDS "***" _ ";");
    [discriminate | reflexivity | reflexivity | discriminate].
Qed.

(** The handlers of [get_logger] write the redacted line, one after the
    other. *)
Lemma callHandlers_redacting (ids : list nat) (ev : LogEvent) (w : world) :
  exists w' : world,
    callHandlers (map redacting_handler ids) ev w = Ok w'
    /\ loggerDict w' = loggerDict w /\ created w' = created w
    /\ clock w' = clock w /\ records w' = records w
    /\ stderr w' =
       stderr w
       ++ repeat_text (List.length ids)
            (redact PII_FIELDS "***" ";" (rendered (record ev)) ++ newline).
Proof.
  revert w; induction ids as [|i ids IH]; intros w.
  - exists w. cbn [map callHandlers List.length repeat_text].
    rewrite append_nil_r. now repeat split.
  - cbn [map callHandlers].
    change (StreamHandler.level (redacting_handler i) <=? levelno ev) with true.
    cbn iota. unfold emit.
    change (StreamHandler.formatter (redacting_handler i))
      with (Some (RedactingFormatter.mk PII_FIELDS)).
    cbn beta iota. rewrite format_PII_FIELDS. cbn [bind].
    match goal with |- context [callHandlers _ ev ?w1] =>
      destruct (IH w1) as (w' & H & L & C & T & Rc & E) end.
    exists w'. rewrite H. cbn [loggerDict created clock records stderr] in *.
    rewrite L, C, T, Rc, E. cbn [List.length repeat_text].
    unfold newline. rewrite !append_assoc. now repeat split.
Qed.



(** ** [main] *)

(** The message of a row is a line of records: the first key is the
    first column, the others are the columns after a space. *)
Lemma row_message_line (cs vs : list string) :
  forall c v : string,
    row_message (c :: cs) (v :: vs) =
    line ";" ((c, v) :: combine (map (append " ") cs) vs).
Proof.
  unfold row_message. revert vs; induction cs as [|c' cs IH]; intros vs c v.
  - cbn [combine map String.concat line fst snd]. unfold record_text.
    cbn [fst snd]. now rewrite !append_assoc, append_nil_r.
  - destruct vs as [|v' vs].
    + cbn [combine map String.concat line fst snd]. unfold record_text.
      cbn [fst snd]. now rewrite !append_assoc, append_nil_r.
    + specialize (IH vs c' v').
      cbn [combine map fst snd line] in IH |- *.
      set (rest := map (fun x => fst x ++ "=" ++ snd x) (combine cs vs)) in *.
      change (String.concat "; " ((c ++ "=" ++ v) :: (c' ++ "=" ++ v') :: rest))
        with ((c ++ "=" ++ v) ++ "; "
              ++ String.concat "; " ((c' ++ "=" ++ v') :: rest)).
      rewrite !append_assoc, IH. unfold record_text. cbn [fst snd].
      now rewrite !append_assoc.
Qed.

Lemma readable_listed (fields : list string) (sep : ascii) (k v : string)
    (records : list (string * string)) :
  free_of "=" k = true -> key_listed fields k = true ->
  free_of sep v = true -> readable fields sep records = true ->
  readable fields sep ((k, v) :: records) = true.
Proof.
  intros Hk Hl Hv Hr. cbn [readable forallb]. unfold readable_record.
  cbn [fst snd]. now rewrite Hk, Hl, Hv.
Qed.

Lemma readable_unlisted (fields : list string) (sep : ascii) (k v : string)
    (records : list (string * string)) :
  free_of "=" k = true -> key_listed fields k = false ->
  free_of "=" v = true -> readable fields sep records = true ->
  readable fields sep ((k, v) :: records) = true.
Proof.
  intros Hk Hl Hv Hr. cbn [readable forallb]. unfold readable_record.
  cbn [fst snd]. now rewrite Hk, Hl, Hv.
Qed.

Lemma readable_row (row : list string) :
  loggable row = true -> readable PII_FIELDS ";" (combine KEYS row) = true.
Proof.
  unfold loggable. intros H.
  destruct row as [|v1 [|v2 [|v3 [|v4 [|v5 [|v6 [|v7 [|v8 rest]]]]]]]];
    cbn [firstn skipn forallb] in H; split_andb;
    cbn [KEYS COLUMNS tl map combine];
    repeat first
      [ apply readable_listed; [reflexivity | reflexivity | assumption |]
      | apply readable_unlisted; [reflexivity | reflexivity | assumption |] ];
    reflexivity.
Qed.

Lemma redact_row (row : list string) :
  map (redact_record PII_FIELDS RedactingFormatter.REDACTION) (combine KEYS row) =
  combine KEYS (masked row).
Proof.
  destruct row as [|v1 [|v2 [|v3 [|v4 [|v5 [|v6 [|v7 [|v8 rest]]]]]]]];
    reflexivity.
Qed.

(** The line that the formatter of [get_logger] gives for the record of
    a row. *)
Lemma format_row (asctime : string) (row : list string) :
  free_of "=" asctime = true ->
  loggable row = true ->
  RedactingFormatter.format (RedactingFormatter.mk PII_FIELDS)
    (logging.mkLogRecord "user_data" "INFO" asctime (row_message COLUMNS row) "" "") =
  Ok ("[HOLBERTON] user_data INFO " ++ logging.ljust 15 asctime ++ ": "
      ++ row_message COLUMNS (masked row)).
Proof.
  intros Ht Hrow.
  set (record := logging.mkLogRecord "user_data" "INFO" asctime
                   (row_message COLUMNS row) "" "").
  assert (Hh : free_of "=" (line_header record) = true).
  { now apply line_header_free. }
  change ("[HOLBERTON] user_data INFO " ++ logging.ljust 15 asctime ++ ": "
          ++ row_message COLUMNS (masked row))
    with (("[HOLBERTON] " ++ logging.name record ++ " " ++ logging.levelname record
           ++ " " ++ logging.ljust 15 (logging.asctime record) ++ ": "
           ++ row_message COLUMNS (masked row))).
  transitivity (Ok (line_header record ++ row_message COLUMNS (masked row))
                : outcome string);
    [|unfold line_header; now rewrite !append_assoc].
  destruct row as [|v vs].
  - rewrite format_PII_FIELDS, (rendered_plain record eq_refl eq_refl).
    cbn [logging.message record]. f_equal. apply redact_no_equals.
    rewrite free_of_append, Hh. reflexivity.
  - rewrite (format_line PII_FIELDS record (combine KEYS (v :: vs))).
    + rewrite redact_row. f_equal. f_equal. symmetry.
      exact (row_message_line (tl COLUMNS) _ "name" RedactingFormatter.REDACTION).
    + discriminate.
    + reflexivity.
    + reflexivity.
    + reflexivity.
    + exact Hh.
    + exact (row_message_line (tl COLUMNS) vs "name" v).
    + now apply readable_row.
Qed.

Lemma Ok_inj {A : Type} (a b : A) : Ok a = Ok b -> a = b.
Proof. intros H. now injection H. Qed.

(** One row through the logger that one call of [get_logger] has set up. *)
Lemma log_row_line (i : nat) (row : list string) (w : world) :
  loggerDict w "user_data" = Some (Logger.mk INFO false [redacting_handler i]) ->
  free_of "=" (clock w (records w)) = true ->
  loggable row = true ->
  exists w' : world,
    log_row "user_data" COLUMNS row w = Ok w'
    /\ loggerDict w' = loggerDict w /\ clock w' = clock w
    /\ records w' = S (records w)
    /\ stderr w' = stderr w ++ log_line (clock w (records w)) row.
Proof.
  intros L Ht Hrow. unfold log_row, new_LogRecord.
  set (ev := mkLogEvent INFO
               (logging.mkLogRecord "user_data" (getLevelName INFO)
                  (clock w (records w)) (row_message COLUMNS row) "" "")).
  set (w1 := mkWorld (loggerDict w) (created w) (clock w) (S (records w)) (stderr w)).
  assert (Q : redact PII_FIELDS "***" ";" (rendered (record ev)) =
              "[HOLBERTON] user_data INFO "
              ++ logging.ljust 15 (clock w (records w)) ++ ": "
              ++ row_message COLUMNS (masked row)).
  { pose proof (format_PII_FIELDS (record ev)) as F.
    change (record ev)
      with (logging.mkLogRecord "user_data" "INFO" (clock w (records w))
              (row_message COLUMNS row) "" "") in F at 1.
    rewrite (format_row _ _ Ht Hrow) in F. symmetry. exact (Ok_inj _ _ F). }
  unfold handle, getLogger. change (loggerDict w1) with (loggerDict w).
  rewrite L. cbn [Logger.propagate Logger.handlers].
  destruct (callHandlers_redacting [i] ev w1) as (w' & H & Ld & _ & T & Rc & E).
  exists w'. split; [exact H|]. rewrite Ld, T, Rc, E, Q.
  cbn [List.length repeat_text]. unfold log_line.
  rewrite !append_assoc, append_nil_r. now repeat split.
Qed.

Lemma log_rows_lines (i : nat) (rows : list (list string)) :
  forall w : world,
    loggerDict w "user_data" = Some (Logger.mk INFO false [redacting_handler i]) ->
    (forall n, free_of "=" (clock w n) = true) ->
    forallb loggable rows = true ->
    exists w' : world,
      log_rows "user_data" COLUMNS rows w = Ok w'
      /\ stderr w' = stderr w ++ log_lines (clock w) (records w) rows.
Proof.
  induction rows as [|row rows IH]; intros w L Ht H.
  - exists w. cbn [log_rows log_lines]. now rewrite append_nil_r.
  - cbn [forallb] in H. apply andb_prop in H as [Hrow H].
    destruct (log_row_line i row w L (Ht _) Hrow) as (w1 & H1 & L1 & T1 & R1 & E1).
    destruct (IH w1) as (w' & H' & E'); [now rewrite L1 | now rewrite T1 | assumption |].
    exists w'. cbn [log_rows log_lines]. rewrite H1. cbn [bind]. rewrite H'.
    split; [reflexivity|]. now rewrite E', E1, T1, R1, append_assoc.
Qed.

(** X11: [main] writes one line for every row of the table, in the order
    of the rows, with the values of name, email, phone, ssn and password
    replaced by "***" and those of ip, last_login and user_agent as they
    are.  This holds in a process where the logger "user_data" was not
    yet asked for, for rows that the server at the address of [get_db]
    answers the query with, when the five values to redact hold no
    semicolon and the others, like the times of the clock, no equals
    sign. *)
Theorem main_logs_redacted_rows :
  forall (server : ConnectArgs -> string -> list (list string))
         (env : environ) (w : world),
    loggerDict w "user_data" = None ->
    (forall n, free_of "=" (clock w n) = true) ->
    forallb loggable (server (get_db env) QUERY) = true ->
    exists w' : world,
      main server env w = Ok w'
      /\ stderr w' =
         stderr w ++ log_lines (clock w) (records w) (server (get_db env) QUERY).
Proof.
  intros server env w F Ht H.
  assert (K : known_handlers w = true).
  { unfold known_handlers, user_data_handlers. now rewrite F. }
  destruct (get_logger_spec w K) as (N & L & _ & T & Rc & E).
  unfold user_data_handlers in L. rewrite F in L. cbn [app] in L.
  unfold main. destruct (get_logger w) as [info_logger w1].
  cbn [fst snd] in *. subst info_logger.
  match goal with
  | |- context [log_rows _ ?columns _ _] => change columns with COLUMNS
  end.
  change ("SELECT " ++ "name,email,phone,ssn,password,ip,last_login,user_agent"
          ++ " FROM users;") with QUERY.
  destruct (log_rows_lines (created w) (server (get_db env) QUERY) w1 L)
    as (w' & H' & E'); [intros n; rewrite T; apply Ht | assumption |].
  exists w'. split; [assumption|]. now rewrite E', E, T, Rc.
Qed.

(** X11, witness: a table of two users, the environment empty. *)
Lemma main_logs_redacted_rows_witness :
  exists w' : world,
    main example_server (fun _ => None) example_world = Ok w'
    /\ stderr w' =
       "[HOLBERTON] user_data INFO 2019-11-19 18:24:25,105: name=***; email=***; phone=***; ssn=***; password=***; ip=60ed:c396:2ff:244:bbd0:9208:26f2:93ea; last_login=2019-11-14T06:14:24; user_agent=Mozilla/5.0 (compatible; MSIE 9.0; Windows NT 6.1);"
       ++ newline ++
       "[HOLBERTON] user_data INFO 2019-11-19 18:24:25,105: name=***; email=***; phone=***; ssn=***; password=***; ip=f724:c5d1:a14d:c4c5:bae2:9457:3769:1969; last_login=2019-11-14T06:16:19; user_agent=None;"
       ++ newline.
Proof.
  apply (main_logs_redacted_rows example_server (fun _ => None) example_world);
    [reflexivity | intros n; reflexivity | reflexivity].
Defined.

(** ** The format of a hash *)

(** X12: the format of a hash.  For a password that can be encoded and
    that the release takes, and a key schedule that gives at least 23
    bytes, [hash_password] returns 60 bytes: the header "$2b$12$", then
    53 characters of the alphabet of [bcrypt], and the hash reads back as
    version 2b, cost 12 and the salt that was drawn. *)
Theorem hash_password_format :
  forall (installed : bcrypt.release)
         (eksblowfish : nat -> bytes -> bytes -> bytes)
         (password : text) (data : bytes) (e : entropy),
    encode_utf8 password = Ok data ->
    bcrypt.rejects installed data = false ->
    23 <= List.length (eksblowfish 12 (drawn_salt e) (firstn 72 data)) ->
    exists hashed : bytes,
      fst (hash_password installed eksblowfish password e) = Ok hashed
      /\ List.length hashed = 60
      /\ firstn 7 hashed = bytes_lit "$2b$12$"
      /\ forallb bcrypt.in_alphabet (skipn 7 hashed) = true
      /\ bcrypt.parse_salt hashed = Some ("b"%byte, 12, drawn_salt e).
Proof.
  intros installed eksblowfish password data e He Hd Hk.
  exists (hash_with eksblowfish (drawn_salt e) data).
  rewrite (hash_password_eq _ _ _ _ _ He Hd). split; [reflexivity|].
  pose proof (drawn_salt_length e) as Ls.
  unfold hash_with, hash_of.
  assert (Ld : List.length (digest eksblowfish 12 (drawn_salt e) data) = 23).
  { unfold digest. rewrite length_firstn. lia. }
  split; [|split; [|split]].
  - rewrite !length_app, !encode_base64_length, Ls, Ld. reflexivity.
  - reflexivity.
  - cbn [bcrypt.header app skipn].
    now rewrite forallb_app, !encode_base64_alphabet.
  - apply parse_salt_hash;
      [reflexivity | lia | assumption | apply encode_base64_alphabet].
Qed.

(** X12, witness: the password "secret" and the entropy that counts up
    from zero, for every release and every key schedule of 24 bytes. *)
Lemma hash_password_format_witness :
  encode_utf8 (text_of "secret") = Ok (bytes_lit "secret")
  /\ forall (installed : bcrypt.release)
            (eksblowfish : nat -> bytes -> bytes -> bytes),
       (forall logr csalt key, List.length (eksblowfish logr csalt key) = 24) ->
       exists hashed : bytes,
         fst (hash_password installed eksblowfish (text_of "secret") counting) =
           Ok hashed
         /\ List.length hashed = 60
         /\ firstn 7 hashed = bytes_lit "$2b$12$"
         /\ forallb bcrypt.in_alphabet (skipn 7 hashed) = true
         /\ bcrypt.parse_salt hashed = Some ("b"%byte, 12, drawn_salt counting).
Proof.
  split; [reflexivity|]. intros installed eksblowfish H.
  apply (hash_password_format installed eksblowfish (text_of "secret")
           (bytes_lit "secret") counting eq_refl).
  - destruct installed; reflexivity.
  - rewrite H. lia.
Defined.

(** X13: [is_valid] on a hash of [hash_password], asked about another
    password that can be encoded and that the release takes, returns a
    boolean: whether the digest of that password, under the salt of the
    hash, is the digest of the password that was hashed. *)
Theorem is_valid_other_password :
  forall (installed : bcrypt.release)
         (eksblowfish : nat -> bytes -> bytes -> bytes)
         (password candidate : text) (data cdata : bytes) (e : entropy),
    encode_utf8 password = Ok data ->
    bcrypt.rejects installed data = false ->
    encode_utf8 candidate = Ok cdata ->
    bcrypt.rejects installed cdata = false ->
    exists hashed : bytes,
      fst (hash_password installed eksblowfish password e) = Ok hashed
      /\ is_valid installed eksblowfish hashed candidate =
         Ok (bytes_eqb (digest eksblowfish 12 (drawn_salt e) cdata)
                       (digest eksblowfish 12 (drawn_salt e) data)).
Proof.
  intros installed eksblowfish password candidate data cdata e He Hd Hc Hcd.
  exists (hash_with eksblowfish (drawn_salt e) data).
  rewrite (hash_password_eq _ _ _ _ _ He Hd). split; [reflexivity|].
  exact (is_valid_hash_with _ _ _ _ _ _ (drawn_salt_length e) Hc Hcd).
Qed.

(** X13, witness: the hash of "secret" asked about "Secret", for every
    release and key schedule. *)
Lemma is_valid_other_password_witness :
  encode_utf8 (text_of "Secret") = Ok (bytes_lit "Secret")
  /\ forall (installed : bcrypt.release)
            (eksblowfish : nat -> bytes -> bytes -> bytes),
       exists hashed : bytes,
         fst (hash_password installed eksblowfish (text_of "secret") counting) =
           Ok hashed
         /\ is_valid installed eksblowfish hashed (text_of "Secret") =
            Ok (bytes_eqb
                  (digest eksblowfish 12 (drawn_salt counting) (bytes_lit "Secret"))
                  (digest eksblowfish 12 (drawn_salt counting) (bytes_lit "secret"))).
Proof.
  split; [reflexivity|]. intros installed eksblowfish.
  apply (is_valid_other_password installed eksblowfish (text_of "secret")
           (text_of "Secret") (bytes_lit "secret") (bytes_lit "Secret") counting);
    try reflexivity; destruct installed; reflexivity.
Defined.

(** ** A separator of several characters *)

Lemma plain_in_set_step (items : list re.set_item) (m c : ascii) :
  plain_in_set c = true ->
  re.lex_step (re.LSetLit true items m) c =
  Ok ([], re.LSetLit true (items ++ [re.SChar m]) c).
Proof.
  unfold plain_in_set. intros H. apply andb_prop in H as [H H3].
  apply andb_prop in H as [H1 H2]. apply negb_true_iff in H1, H2, H3.
  cbn [re.lex_step]. rewrite H3. unfold re.set_step. now rewrite H1, H2.
Qed.

(** The members of the set after the first, and its end. *)
Lemma lex_set_members (cs : string) :
  forall (items : list re.set_item) (m : ascii),
    forallb plain_in_set (list_ascii_of_string cs) = true ->
    re.lex (re.LSetLit true items m) (cs ++ "]*") =
    Ok [re.TSet true (items ++ re.SChar m :: set_items cs); re.TStar].
Proof.
  induction cs as [|d cs IH]; intros items m H.
  - cbn [append re.lex re.lex_step]. unfold re.set_step.
    change (Ascii.eqb "]" "-") with false. change (Ascii.eqb "]" "]") with true.
    cbn iota. destruct (items ++ [re.SChar m])%list eqn:E.
    { destruct items; discriminate. }
    rewrite <- E. cbn [bind fst snd].
    replace (re.lex_step re.LNormal "*")
      with (Ok ([re.TStar], re.LNormal) : outcome (list re.token * re.lstate))
      by (vm_compute; reflexivity).
    reflexivity.
  - cbn [list_ascii_of_string forallb] in H. apply andb_prop in H as [Hd H].
    cbn [append re.lex]. rewrite (plain_in_set_step _ _ _ Hd).
    cbn [bind fst snd]. rewrite (IH _ _ H). cbn [bind app].
    unfold set_items. cbn [list_ascii_of_string map].
    now rewrite <- app_assoc.
Qed.

Lemma lex_value_among (seps : string) :
  plain_separator seps = true ->
  re.lex re.LNormal (")=[^" ++ seps ++ "]*") =
  Ok [re.TClose; re.TLit "="; re.TSet true (set_items seps); re.TStar].
Proof.
  unfold plain_separator. intros H. apply andb_prop in H as [Hne H].
  destruct seps as [|c cs]; [discriminate|]. clear Hne.
  cbn [list_ascii_of_string forallb] in H. apply andb_prop in H as [Hc H].
  rewrite lex_append.
  replace (lex_run re.LNormal ")=[^")
    with (Ok ([re.TClose; re.TLit "="], re.LSet true [])
          : outcome (list re.token * re.lstate)) by (vm_compute; reflexivity).
  cbn [bind fst snd append re.lex].
  assert (S1 : re.lex_step (re.LSet true []) c = Ok ([], re.LSetLit true [] c)).
  { unfold plain_in_set in Hc. apply andb_prop in Hc as [Hc _].
    apply andb_prop in Hc as [H1 H2]. apply negb_true_iff in H1, H2.
    cbn [re.lex_step]. unfold re.set_step. now rewrite H1, H2. }
  rewrite S1. cbn [bind fst snd]. rewrite (lex_set_members _ _ _ H).
  reflexivity.
Qed.

Lemma lex_extract_among (fields : list string) (seps : string) :
  forallb literal_name fields = true ->
  plain_separator seps = true ->
  re.lex re.LNormal (patterns.extract fields seps) =
  Ok (extract_tokens_among fields (set_items seps)).
Proof.
  intros Hf Hs. unfold patterns.extract.
  rewrite lex_open_field, (lex_names _ _ Hf), (lex_value_among _ Hs).
  reflexivity.
Qed.

Lemma parse_extract_among (fields : list string) (its : list re.set_item) :
  re.parse_tokens re.pstate0 (extract_tokens_among fields its) =
  Ok (re.mkPstate [] []
        [value_regex_among its; re.Lit "="; re.Group 1 (names_regex fields)]
        1 [("field", 1)]).
Proof.
  unfold extract_tokens_among.
  cbn [re.parse_tokens re.parse_step re.pstate0 re.lookup bind
       re.stack re.alts re.items re.groups re.groupindex].
  rewrite parse_names. reflexivity.
Qed.

Lemma compile_extract_among (fields : list string) (seps : string) :
  forallb literal_name fields = true ->
  plain_separator seps = true ->
  re.compile (patterns.extract fields seps) =
  Ok (extract_pattern_among fields (set_items seps)).
Proof.
  intros Hf Hs. unfold re.compile.
  rewrite (lex_extract_among _ _ Hf Hs). cbn [bind].
  rewrite parse_extract_among. reflexivity.
Qed.

Lemma template_replace_among (fields : list string) (its : list re.set_item)
    (redaction : string) :
  no_backslash redaction = true ->
  re.parse_template (extract_pattern_among fields its) (patterns.replace redaction) =
  Ok (replace_template redaction).
Proof.
  intros H. unfold re.parse_template, patterns.replace.
  rewrite template_append.
  replace (template_run (extract_pattern_among fields its) re.TNormal "\g<field>=")
    with (Ok ([re.TGroup 1; re.TText "="], re.TNormal)
          : outcome (list re.titem * re.tstate)) by (vm_compute; reflexivity).
  cbn [bind fst snd]. rewrite (template_literal _ _ H). reflexivity.
Qed.

(** *** Matching *)

Lemma existsb_set_items (seps : string) (c : ascii) :
  existsb (re.in_item c) (set_items seps) = mem c seps.
Proof.
  unfold set_items, mem.
  induction (list_ascii_of_string seps) as [|d l IH]; [reflexivity|].
  cbn [map existsb re.in_item]. now rewrite IH.
Qed.

Lemma in_set_items (seps : string) (c : ascii) :
  re.in_set true (set_items seps) c = negb (mem c seps).
Proof.
  unfold re.in_set. rewrite existsb_set_items. now destruct (mem c seps).
Qed.

Lemma skip_value_among_length (seps s : string) :
  String.length (skip_value_among seps s) <= String.length s.
Proof.
  induction s as [|c s IH]; cbn [skip_value_among]; [lia|].
  destruct (mem c seps); cbn [String.length]; lia.
Qed.

Lemma take_skip_value_among (seps s : string) :
  take_value_among seps s ++ skip_value_among seps s = s.
Proof.
  induction s as [|c s IH]; cbn [take_value_among skip_value_among]; [reflexivity|].
  destruct (mem c seps); [reflexivity|]. cbn [append]. now rewrite IH.
Qed.

Lemma loop_value_among (seps : string) (k : re.cont) (s : string) :
  (forall t ct, k t ct <> None) ->
  forall (fuel : nat) (cs : re.captures),
    String.length s <= fuel ->
    re.loop (re.rmatch (re.CharSet true (set_items seps))) fuel s cs k =
    k (skip_value_among seps s) cs.
Proof.
  intros Hk. induction s as [|c s IH]; intros fuel cs Hfuel.
  - destruct fuel; reflexivity.
  - destruct fuel as [|fuel]; [cbn in Hfuel; lia|].
    cbn [re.loop re.rmatch skip_value_among]. unfold re.one_char.
    rewrite in_set_items.
    destruct (mem c seps); cbn [negb re.or_else].
    + reflexivity.
    + replace (String.length s <? String.length (String c s)) with true
        by (symmetry; apply Nat.ltb_lt; cbn; lia).
      rewrite IH by (cbn in Hfuel; lia).
      destruct (k (skip_value_among seps s) cs) eqn:E; [reflexivity|].
      now apply Hk in E.
Qed.

Lemma rmatch_value_among (seps : string) (k : re.cont) (s : string)
    (cs : re.captures) :
  (forall t ct, k t ct <> None) ->
  re.rmatch (re.Cat (re.Lit "=")
               (re.Cat (value_regex_among (set_items seps)) re.Eps)) s cs k =
  match strip_prefix "=" s with
  | Some after => k (skip_value_among seps after) cs
  | None => None
  end.
Proof.
  intros Hk. cbn [re.rmatch strip_prefix value_regex_among]. unfold re.one_char.
  destruct s as [|d s]; [reflexivity|].
  destruct (Ascii.eqb "=" d); [|reflexivity].
  now apply loop_value_among.
Qed.

Lemma rmatch_field_among (seps : string) (k : re.cont) (s : string)
    (cs : re.captures) (f : string) :
  (forall t ct, k t ct <> None) ->
  re.rmatch (name_regex f) s cs
    (fun s' cs' =>
       re.rmatch (re.Cat (re.Lit "=")
                    (re.Cat (value_regex_among (set_items seps)) re.Eps)) s'
                 ((1, re.consumed s s') :: cs') k) =
  match strip_prefix (f ++ "=") s with
  | Some after => k (skip_value_among seps after) ((1, f) :: cs)
  | None => None
  end.
Proof.
  intros Hk. rewrite rmatch_name, strip_prefix_app.
  destruct (strip_prefix f s) as [rest|] eqn:E; [|reflexivity].
  rewrite (rmatch_value_among _ _ _ _ Hk).
  apply strip_prefix_Some in E. subst s. now rewrite consumed_append.
Qed.

Lemma rmatch_names_among (seps : string) (k : re.cont) (s : string)
    (cs : re.captures) (f : string) (fields : list string) :
  (forall t ct, k t ct <> None) ->
  re.rmatch (re.alt_of (name_regex f) (map name_regex fields)) s cs
    (fun s' cs' =>
       re.rmatch (re.Cat (re.Lit "=")
                    (re.Cat (value_regex_among (set_items seps)) re.Eps)) s'
                 ((1, re.consumed s s') :: cs') k) =
  match find_field (f :: fields) s with
  | Some (g, after) => k (skip_value_among seps after) ((1, g) :: cs)
  | None => None
  end.
Proof.
  intros Hk. revert f; induction fields as [|f' fields IH]; intros f.
  - cbn [map re.alt_of find_field]. rewrite (rmatch_field_among _ _ _ _ _ Hk).
    destruct (strip_prefix (f ++ "=") s); reflexivity.
  - cbn [map re.alt_of]. rewrite rmatch_Alt, IH, (rmatch_field_among _ _ _ _ _ Hk).
    change (find_field (f :: f' :: fields) s)
      with (match strip_prefix (f ++ "=") s with
            | Some after => Some (f, after)
            | None => find_field (f' :: fields) s
            end).
    destruct (strip_prefix (f ++ "=") s) as [after|]; [|reflexivity].
    destruct (k (skip_value_among seps after) ((1, f) :: cs)) eqn:Ek; [reflexivity|].
    now apply Hk in Ek.
Qed.

Lemma match_here_extract_among (fields : list string) (seps s : string) :
  re.match_here (extract_regex_among fields (set_items seps)) s false =
  match find_field (alternatives fields) s with
  | Some (f, after) =>
      Some (skip_value_among seps after,
            [(0, re.consumed s (skip_value_among seps after)); (1, f)])
  | None => None
  end.
Proof.
  unfold re.match_here, extract_regex_among, names_regex.
  rewrite rmatch_Cat, rmatch_Group. cbn [andb].
  destruct (alternatives fields) as [|f fs] eqn:E.
  { destruct fields; discriminate. }
  cbn [map].
  rewrite (rmatch_names_among seps
             (fun s' cs' => Some (s', (0, re.consumed s s') :: cs'))) by discriminate.
  destruct (find_field (f :: fs) s) as [[g after]|]; reflexivity.
Qed.

(** *** The substitution *)

Lemma scan_extract_among (fields : list string) (seps redaction s : string) :
  re.scan (extract_regex_among fields (set_items seps)) (replace_template redaction) s 0 =
  match find_field (alternatives fields) s with
  | Some (f, after) =>
      f ++ "=" ++ redaction
        ++ re.scan (extract_regex_among fields (set_items seps))
                   (replace_template redaction) (skip_value_among seps after) 0
  | None =>
      match s with
      | EmptyString => ""
      | String c s' =>
          String c (re.scan (extract_regex_among fields (set_items seps))
                            (replace_template redaction) s' 0)
      end
  end.
Proof.
  pose proof (match_here_extract_among fields seps s) as M.
  destruct (find_field (alternatives fields) s) as [[f after]|] eqn:E.
  - apply find_field_Some in E.
    assert (Es : s = (f ++ "=" ++ take_value_among seps after)
                     ++ skip_value_among seps after).
    { now rewrite !append_assoc, take_skip_value_among. }
    destruct (f ++ "=" ++ take_value_among seps after) as [|c x] eqn:Ex.
    { destruct f; discriminate. }
    rewrite Es in M |- *. rewrite (scan_replace _ _ _ _ _ _ M).
    rewrite (expand_replace redaction f) by reflexivity.
    now rewrite !append_assoc.
  - destruct s as [|c s]; [now apply scan_nil | now apply scan_copy].
Qed.

Lemma scan_redact_among (fields : list string) (seps redaction : string) :
  forall (n : nat) (s : string),
    String.length s <= n ->
    re.scan (extract_regex_among fields (set_items seps)) (replace_template redaction) s 0 =
    redact_among_upto n (alternatives fields) redaction seps s.
Proof.
  induction n as [|n IH]; intros s Hn.
  - destruct s; [|cbn in Hn; lia].
    rewrite scan_extract_among, find_field_nil. reflexivity.
  - rewrite scan_extract_among. cbn [redact_among_upto].
    destruct (find_field (alternatives fields) s) as [[f after]|] eqn:E.
    + rewrite IH; [reflexivity|].
      apply find_field_Some in E. subst s.
      rewrite !length_append in Hn. cbn [String.length] in Hn.
      pose proof (skip_value_among_length seps after). lia.
    + destruct s as [|c s]; [reflexivity|].
      rewrite IH; [reflexivity | cbn in Hn; lia].
Qed.

(** X14: a separator of several characters is read as a set of
    characters, not as a text.  For literal field names, a redaction
    without backslash and a separator whose characters are plain in a set
    (no closing bracket, backslash or hyphen), [filter_datum] is the
    redaction from left to right in which a value ends at the first
    character that occurs in the separator: with the separator "; " a
    value ends at its first space. *)
Theorem filter_datum_separator_set :
  forall (fields : list string) (redaction message seps : string),
    fields <> [] ->
    forallb literal_name fields = true ->
    no_backslash redaction = true ->
    plain_separator seps = true ->
    filter_datum fields redaction message seps =
    Ok (redact_among fields redaction seps message).
Proof.
  intros fields redaction message seps Hne Hf Hr Hs.
  unfold filter_datum, re.sub.
  rewrite (compile_extract_among _ _ Hf Hs). cbn [bind].
  rewrite (template_replace_among _ _ _ Hr).
  cbn [bind re.p_regex extract_pattern_among].
  unfold redact_among.
  rewrite (scan_redact_among _ _ _ (String.length message)) by apply le_n.
  now rewrite (alternatives_nonempty _ Hne).
Qed.

(** X14, witness: the separator of two characters, a semicolon and a space. *)
Lemma filter_datum_separator_set_witness :
  redact_among ["name"] "***" "; " "name=John Smith; age=3; " = "name=*** Smith; age=3; "
  /\ filter_datum ["name"] "***" "name=John Smith; age=3; " "; " =
     Ok (redact_among ["name"] "***" "; " "name=John Smith; age=3; ").
Proof.
  split; [reflexivity|].
  apply (filter_datum_separator_set ["name"] "***" "name=John Smith; age=3; " "; ");
    [discriminate | reflexivity | reflexivity | reflexivity].
Defined.

(** ** The records of a message *)


(** [filter_datum] on a line of readable records. *)
Lemma filter_datum_readable (fields : list string) (redaction : string)
    (sep : ascii) (records : list (string * string)) :
  fields <> [] ->
  forallb (field_name sep) fields = true ->
  no_backslash redaction = true ->
  sep <> "\"%char ->
  sep <> "="%char ->
  readable fields sep records = true ->
  filter_datum fields redaction (line sep records) (String sep "") =
  Ok (line sep (map (redact_record fields redaction) records)).
Proof.
  intros Hne Hf Hr Hsep Heq Hrd.
  destruct (forallb_field_name _ _ Hf) as [Hl Ha].
  destruct (forallb_atom_free_of _ _ Ha) as [He Hs].
  rewrite (filter_datum_redact _ _ _ _ Hne Hl Hr Hsep). f_equal.
  exact (redact_readable fields redaction sep He Hs (eqb_neq_false _ _ Heq)
           records "" eq_refl (fun k => eq_refl) Hrd).
Qed.



(** C7, counterexample: an occurrence of a field inside the value of an
    earlier one is not redacted on its own; it goes with that value.  The
    message "id=id=2;" holds the field twice and comes out with one
    redaction. *)
Lemma filter_datum_nested_occurrence :
  filter_datum ["id"] "*" "id=id=2;" ";" = Ok "id=*;"
  /\ filter_datum ["a"; "b"] "***" "a=b=1;b=2;" ";" = Ok "a=***;b=***;".
Proof. split; vm_compute; reflexivity. Qed.

(** C7, amended: in a line of records [key=value], each closed by the
    separator, every record whose key ends with a listed name has its
    value replaced by the redaction, each on its own, and every other
    record is kept.  The keys hold no equals sign, the values to redact no
    separator (they may hold the equals sign), the values to keep no
    equals sign.  "id=1;id=2;" becomes "id=*;id=*;". *)
Theorem filter_datum_every_occurrence :
  (forall (fields : list string) (redaction : string) (sep : ascii)
          (records : list (string * string)),
     fields <> [] ->
     forallb (field_name sep) fields = true ->
     no_backslash redaction = true ->
     sep <> "\"%char ->
     sep <> "="%char ->
     readable fields sep records = true ->
     filter_datum fields redaction (line sep records) (String sep "") =
     Ok (line sep (map (redact_record fields redaction) records)))
  /\ filter_datum ["id"] "*" "id=1;id=2;" ";" = Ok "id=*;id=*;".
Proof.
  split; [exact filter_datum_readable | vm_compute; reflexivity].
Qed.

(** C7, witness: the field "id" three times, one value with equals
    signs, among records that are kept, one of them with a separator in
    its value. *)
Lemma filter_datum_every_occurrence_witness :
  line ";" [("id", "a=b"); ("user", "u1; or u2"); ("id", "2"); ("uid", "7");
            ("id", "id=3")] =
    "id=a=b;user=u1; or u2;id=2;uid=7;id=id=3;"
  /\ filter_datum ["id"] "*" "id=a=b;user=u1; or u2;id=2;uid=7;id=id=3;" ";" =
     Ok "id=*;user=u1; or u2;id=*;uid=*;id=*;".
Proof.
  split; [reflexivity|].
  apply (proj1 filter_datum_every_occurrence ["id"] "*" ";"%char
           [("id", "a=b"); ("user", "u1; or u2"); ("id", "2"); ("uid", "7");
            ("id", "id=3")]);
    [discriminate | reflexivity | reflexivity | discriminate | discriminate
    | reflexivity].
Defined.
